(** * Vitals extraction and risk tiering of [backend/ml_engine.py]

    A shallow embedding of [parse_medical_text] and [analyze_risk].

    The model is of ASCII text.  Python's [\d], [\s], [\b], [str.lower]
    and [int] work on all of Unicode; the character classes and case
    mappings below are theirs on the code points below 128, where the
    model and the code agree.  A result that depends on what counts as a
    digit, a blank, a word character or a letter is therefore stated for
    texts that satisfy [ascii_only]; results that hold of the code on
    every text (bounds, the pairing of the two blood-pressure fields,
    the strategies of [analyze_risk]) are stated without that
    hypothesis.  The calls to [re.search] are modelled by a
    backtracking matcher over a small regular-expression syntax that
    covers exactly the constructs the patterns of the module use:
    literals, character classes, ordered alternation, greedy repetition
    of a character class, capturing groups and [\b].  The [print] calls of
    the module write a trace to standard output and have no effect on the
    returned values; they are left out.  The fitted random forest
    [rf_model] is a parameter of [analyze_risk]. *)

From Stdlib Require Import Bool List Ascii String ZArith Lia.
From Stdlib Require Import Numbers.DecimalString.
Import ListNotations.

Local Open Scope char_scope.
Local Open Scope Z_scope.

(** ** Exceptions *)

Inductive exn : Type :=
| KeyError
| TypeError
| ValueError
| AttributeError.

Inductive outcome (A : Type) : Type :=
| Ok (a : A)
| Raise (e : exn).

Arguments Ok {A} a.
Arguments Raise {A} e.

Definition bind {A B : Type} (x : outcome A) (f : A -> outcome B) : outcome B :=
  match x with
  | Ok a => f a
  | Raise e => Raise e
  end.

Notation "x <- c1 ;; c2" := (bind c1 (fun x => c2))
  (at level 61, c1 at next level, right associativity).

(** ** Characters *)

Definition code (c : ascii) : N := N_of_ascii c.

Definition in_range (lo hi c : ascii) : bool :=
  ((code lo <=? code c) && (code c <=? code hi))%N.

(** [\d] on ASCII text (on other text [\d] also takes the decimal
    digits of other scripts). *)
Definition is_digit (c : ascii) : bool := in_range "0" "9" c.

Definition is_upper (c : ascii) : bool := in_range "A" "Z" c.
Definition is_lower (c : ascii) : bool := in_range "a" "z" c.

(** [\s] on ASCII text: tab, line feed, vertical tab, form feed, carriage
    return, the four separators 28..31 and the space (on other text [\s]
    also takes the no-break space and the other Unicode blanks). *)
Definition is_space (c : ascii) : bool :=
  ((9 <=? code c) && (code c <=? 13) || (28 <=? code c) && (code c <=? 32))%N.

(** [\w] on ASCII text (on other text [\w] also takes the letters and
    digits of other scripts). *)
Definition is_word (c : ascii) : bool :=
  is_digit c || is_upper c || is_lower c || Ascii.eqb c "_".

(** [str.lower] and [str.upper] of one ASCII character. *)
Definition lower_char (c : ascii) : ascii :=
  if is_upper c then ascii_of_N (code c + 32) else c.

Definition upper_char (c : ascii) : ascii :=
  if is_lower c then ascii_of_N (code c - 32) else c.

(** Text is a list of characters. *)
Abbreviation text := (list ascii) (only parsing).

Definition chars (s : string) : text := list_ascii_of_string s.

(** The texts the model covers: every character is below 128. *)
Definition is_ascii (c : ascii) : bool := (code c <? 128)%N.
Definition ascii_only (s : text) : bool := forallb is_ascii s.

(** [str.lower], [str.upper] and [str.replace] of one character. *)
Definition lower (s : text) : text := map lower_char s.
Definition upper (s : text) : text := map upper_char s.

Definition replace_char (a b : ascii) (s : text) : text :=
  map (fun c => if Ascii.eqb c a then b else c) s.

(** [s.replace(a, '')]. *)
Definition remove_char (a : ascii) (s : text) : text :=
  filter (fun c => negb (Ascii.eqb c a)) s.

Fixpoint starts_with (p s : text) : bool :=
  match p, s with
  | [], _ => true
  | a :: p', b :: s' => Ascii.eqb a b && starts_with p' s'
  | _ :: _, [] => false
  end.

(** [p in s] on strings. *)
Fixpoint contains (p s : text) : bool :=
  starts_with p s ||
  match s with
  | [] => false
  | _ :: s' => contains p s'
  end.

Definition digit_val (c : ascii) : Z := Z.of_N (code c) - 48.

(** The number a string of decimal digits denotes. *)
Definition digits_value (s : text) : Z :=
  fold_left (fun acc c => 10 * acc + digit_val c) s 0.

(** [int(s)] on a non-empty string of decimal digits.  Python's [int]
    also accepts a sign, surrounding blanks and underscores; the groups
    it is applied to here hold digits only, so the [ValueError] branch is
    never taken (see [parse_medical_text_extracted]). *)
Definition int (s : text) : outcome Z :=
  match s with
  | [] => Raise ValueError
  | _ => if forallb is_digit s then Ok (digits_value s) else Raise ValueError
  end.

(** [str(n)] of an integer, as an f-string renders it. *)
Definition str_of_int (n : Z) : text :=
  chars (NilZero.string_of_int (Z.to_int n)).

(** ** Regular expressions and [re.search] *)

Module re.

Inductive regex : Type :=
| Eps
| Chr (p : ascii -> bool)
| Seq (r1 r2 : regex)
| Alt (r1 r2 : regex)
| Star (p : ascii -> bool)
| Group (n : nat) (r : regex)
| WordB.

(** A position in the subject: the characters before it, nearest first,
    and the characters from it on. *)
Definition state : Type := (text * text)%type.

(** Captured groups, most recent first. *)
Definition caps : Type := list (nat * text).

Fixpoint lookup (n : nat) (cs : caps) : option text :=
  match cs with
  | [] => None
  | (k, v) :: cs' => if Nat.eqb k n then Some v else lookup n cs'
  end.

(** The characters read between two positions of one subject. *)
Definition consumed (st st' : state) : text :=
  rev (firstn (List.length (fst st') - List.length (fst st)) (fst st')).

(** [\b]: exactly one side of the position is a word character. *)
Definition at_boundary (st : state) : bool :=
  let before := match fst st with c :: _ => is_word c | [] => false end in
  let after := match snd st with c :: _ => is_word c | [] => false end in
  xorb before after.

Section Matcher.
Context {A : Type}.

(** Greedy repetition of a character class: read as many characters
    as possible, then give them back one by one until the rest of the
    pattern matches. *)
Fixpoint star_greedy (p : ascii -> bool) (k : state -> option A)
    (pre suf : text) : option A :=
  match suf with
  | c :: suf' =>
      if p c then
        match star_greedy p k (c :: pre) suf' with
        | Some a => Some a
        | None => k (pre, suf)
        end
      else k (pre, suf)
  | [] => k (pre, suf)
  end.

(** Backtracking matcher in continuation-passing style: [k] is the
    rest of the pattern; alternatives are tried left to right. *)
Fixpoint run (r : regex) (st : state) (cs : caps)
    (k : state -> caps -> option A) : option A :=
  match r with
  | Eps => k st cs
  | Chr p =>
      match snd st with
      | c :: suf => if p c then k (c :: fst st, suf) cs else None
      | [] => None
      end
  | Seq r1 r2 => run r1 st cs (fun st' cs' => run r2 st' cs' k)
  | Alt r1 r2 =>
      match run r1 st cs k with
      | Some a => Some a
      | None => run r2 st cs k
      end
  | Star p => star_greedy p (fun st' => k st' cs) (fst st) (snd st)
  | Group n r1 =>
      run r1 st cs (fun st' cs' => k st' ((n, consumed st st') :: cs'))
  | WordB => if at_boundary st then k st cs else None
  end.
End Matcher.

(** A match object: [group0] is [m.group(0)], [groups] the numbered
    groups. *)
Record match_obj : Type := {
  group0 : text;
  groups : caps
}.

(** [m.group(n)] for [n >= 1]: [None] when the group took no part. *)
Definition group (m : match_obj) (n : nat) : option text :=
  lookup n (groups m).

Definition match_at (r : regex) (st : state) : option match_obj :=
  run r st [] (fun st' cs => Some {| group0 := consumed st st'; groups := cs |}).

(** Try every start position from left to right, the end included. *)
Fixpoint search_from (r : regex) (pre suf : text) : option match_obj :=
  match match_at r (pre, suf) with
  | Some m => Some m
  | None =>
      match suf with
      | [] => None
      | c :: suf' => search_from r (c :: pre) suf'
      end
  end.

Definition search (r : regex) (s : text) : option match_obj :=
  search_from r [] s.

(** Pattern combinators. *)
Definition lit (c : ascii) : regex := Chr (Ascii.eqb c).

(** A literal under [re.IGNORECASE]. *)
Definition lit_i (c : ascii) : regex :=
  Chr (fun x => Ascii.eqb (lower_char x) (lower_char c)).

Fixpoint word (s : text) : regex :=
  match s with
  | [] => Eps
  | [c] => lit c
  | c :: s' => Seq (lit c) (word s')
  end.

(** [r?], greedy. *)
Definition opt (r : regex) : regex := Alt r Eps.

(** [p+] for a character class. *)
Definition plus (p : ascii -> bool) : regex := Seq (Chr p) (Star p).

Definition digit : regex := Chr is_digit.
Definition non_digit (c : ascii) : bool := negb (is_digit c).

(** [\d{2,3}] and [\d{1,2}]. *)
Definition digits_2_3 : regex := Seq digit (Seq digit (opt digit)).
Definition digits_1_2 : regex := Seq digit (opt digit).

Fixpoint alts (r : regex) (rs : list regex) : regex :=
  match rs with
  | [] => r
  | r' :: rs' => Alt r (alts r' rs')
  end.

Fixpoint seqs (r : regex) (rs : list regex) : regex :=
  match rs with
  | [] => r
  | r' :: rs' => Seq r (seqs r' rs')
  end.

End re.

(** A literal word of a pattern. *)
Definition w (s : string) : re.regex := re.word (chars s).

(** ** The patterns of [parse_medical_text] *)

Local Open Scope string_scope.

Definition bp_labels : re.regex := re.opt (re.Alt (w "bp") (w "pressure")).

(** [(?:bp|pressure)?[^\d]*(\d{2,3})\s*/\s*(\d{2,3})] *)
Definition bp_pattern : re.regex :=
  re.seqs bp_labels
    [re.Star re.non_digit; re.Group 1 re.digits_2_3; re.Star is_space;
     re.lit "/"; re.Star is_space; re.Group 2 re.digits_2_3].

(** The shape [(?:labels)[^\d]*(digits)] shared by the sugar, heart-rate
    and age patterns. *)
Definition labelled (labels digits : re.regex) : re.regex :=
  re.seqs labels [re.Star re.non_digit; re.Group 1 digits].

Definition sugar_labels : re.regex :=
  re.alts (w "sugar")
    [w "glucose"; w "rbs"; w "fbs"; w "ppbs";
     re.Seq (w "level") (re.opt (re.lit "s"))].

Definition hr_labels : re.regex :=
  re.alts (w "hr") [w "pulse"; w "rate"; w "bpm"].

Definition age_labels : re.regex := re.Alt (w "age") (w "old").

(** [(?:sugar|glucose|rbs|fbs|ppbs|levels?)[^\d]*(\d{2,3})] *)
Definition sugar_pattern : re.regex := labelled sugar_labels re.digits_2_3.

(** [(?:hr|pulse|rate|bpm)[^\d]*(\d{2,3})] *)
Definition hr_pattern : re.regex := labelled hr_labels re.digits_2_3.

(** [(?:age|old)[^\d]*(\d{1,2})] *)
Definition age_pattern : re.regex := labelled age_labels re.digits_1_2.

(** The shape [(\d{2,3})\s*(?:units)] shared by the height and weight
    patterns. *)
Definition measured (units : re.regex) : re.regex :=
  re.seqs (re.Group 1 re.digits_2_3) [re.Star is_space; units].

Definition height_units : re.regex := re.Alt (w "cm") (w "centimeters").
Definition weight_units : re.regex := re.Alt (w "kg") (w "kilograms").

(** [(\d{2,3})\s*(?:cm|centimeters)] *)
Definition height_pattern : re.regex := measured height_units.

(** [(\d{2,3})\s*(?:kg|kilograms)] *)
Definition weight_pattern : re.regex := measured weight_units.

Definition is_sign (c : ascii) : bool := Ascii.eqb c "+" || Ascii.eqb c "-".

(** [(a|b|ab|o)] under [re.IGNORECASE] and as written. *)
Definition bg_letters_i : re.regex :=
  re.alts (re.lit_i "a")
    [re.lit_i "b"; re.Seq (re.lit_i "a") (re.lit_i "b"); re.lit_i "o"].

Definition bg_letters : re.regex :=
  re.alts (re.lit "a") [re.lit "b"; w "ab"; re.lit "o"].

(** [\b(a|b|ab|o)\s?[\+\-]] under [re.IGNORECASE] *)
Definition bg_pattern : re.regex :=
  re.seqs re.WordB
    [re.Group 1 bg_letters_i; re.opt (re.Chr is_space); re.Chr is_sign].

Definition bg_words : re.regex := re.Alt (w "positive") (w "negative").

(** [\b(a|b|ab|o)\s+(positive|negative)] *)
Definition bg_word_pattern : re.regex :=
  re.seqs re.WordB
    [re.Group 1 bg_letters; re.plus is_space; re.Group 2 bg_words].

(** ** [parse_medical_text] *)

(** The dictionary [data]: its eight keys, [None] for a field that was
    not found. *)
Record features : Type := {
  systolic : option Z;
  diastolic : option Z;
  sugar : option Z;
  heart_rate : option Z;
  age : option Z;
  height : option Z;
  weight : option Z;
  blood_group : option string
}.

Definition set_systolic (v : Z) (d : features) : features :=
  {| systolic := Some v; diastolic := diastolic d; sugar := sugar d;
     heart_rate := heart_rate d; age := age d; height := height d;
     weight := weight d; blood_group := blood_group d |}.

Definition set_diastolic (v : Z) (d : features) : features :=
  {| systolic := systolic d; diastolic := Some v; sugar := sugar d;
     heart_rate := heart_rate d; age := age d; height := height d;
     weight := weight d; blood_group := blood_group d |}.

Definition set_sugar (v : Z) (d : features) : features :=
  {| systolic := systolic d; diastolic := diastolic d; sugar := Some v;
     heart_rate := heart_rate d; age := age d; height := height d;
     weight := weight d; blood_group := blood_group d |}.

Definition set_heart_rate (v : Z) (d : features) : features :=
  {| systolic := systolic d; diastolic := diastolic d; sugar := sugar d;
     heart_rate := Some v; age := age d; height := height d;
     weight := weight d; blood_group := blood_group d |}.

Definition set_age (v : Z) (d : features) : features :=
  {| systolic := systolic d; diastolic := diastolic d; sugar := sugar d;
     heart_rate := heart_rate d; age := Some v; height := height d;
     weight := weight d; blood_group := blood_group d |}.

Definition set_height (v : Z) (d : features) : features :=
  {| systolic := systolic d; diastolic := diastolic d; sugar := sugar d;
     heart_rate := heart_rate d; age := age d; height := Some v;
     weight := weight d; blood_group := blood_group d |}.

Definition set_weight (v : Z) (d : features) : features :=
  {| systolic := systolic d; diastolic := diastolic d; sugar := sugar d;
     heart_rate := heart_rate d; age := age d; height := height d;
     weight := Some v; blood_group := blood_group d |}.

Definition set_blood_group (v : text) (d : features) : features :=
  {| systolic := systolic d; diastolic := diastolic d; sugar := sugar d;
     heart_rate := heart_rate d; age := age d; height := height d;
     weight := weight d; blood_group := Some (string_of_list_ascii v) |}.

Definition empty_data : features :=
  {| systolic := None; diastolic := None; sugar := None; heart_rate := None;
     age := None; height := None; weight := None; blood_group := None |}.

(** [int(m.group(n))]: [int(None)] is a [TypeError]. *)
Definition int_group (m : re.match_obj) (n : nat) : outcome Z :=
  match re.group m n with
  | Some s => int s
  | None => Raise TypeError
  end.

(** [m.group(n)] used as a string: a method call or [in] on [None] raises. *)
Definition str_group (e : exn) (m : re.match_obj) (n : nat) : outcome text :=
  match re.group m n with
  | Some s => Ok s
  | None => Raise e
  end.

Definition newline : ascii := ascii_of_N 10.

(** The pre-processing of the text: lower case, then [:], [-], line
    feed, [*] and [#] each replaced by a space. *)
Definition clean (raw : text) : text :=
  replace_char "#" " "
    (replace_char "*" " "
       (replace_char newline " "
          (replace_char "-" " " (replace_char ":" " " (lower raw))))).

(** One labelled numeric field: on a match store [int(m.group(1))]. *)
Definition extract_field (pat : re.regex) (set : Z -> features -> features)
    (clean_text : text) (data : features) : outcome features :=
  match re.search pat clean_text with
  | Some m => v <- int_group m 1 ;; Ok (set v data)
  | None => Ok data
  end.

Definition parse_medical_text (text_data : string) : outcome features :=
  let raw := chars text_data in
  let data := empty_data in
  let clean_text := clean raw in
  data <- match re.search bp_pattern clean_text with
          | Some bp_match =>
              s <- int_group bp_match 1 ;;
              d <- int_group bp_match 2 ;;
              Ok (set_diastolic d (set_systolic s data))
          | None => Ok data
          end ;;
  data <- extract_field sugar_pattern set_sugar clean_text data ;;
  data <- extract_field hr_pattern set_heart_rate clean_text data ;;
  data <- extract_field age_pattern set_age clean_text data ;;
  data <- extract_field height_pattern set_height clean_text data ;;
  data <- extract_field weight_pattern set_weight clean_text data ;;
  match re.search bg_pattern raw with
  | Some bg_match =>
      Ok (set_blood_group (remove_char " " (upper (re.group0 bg_match))) data)
  | None =>
      match re.search bg_word_pattern clean_text with
      | Some bg_word_match =>
          g1 <- str_group AttributeError bg_word_match 1 ;;
          let grp := upper g1 in
          g2 <- str_group TypeError bg_word_match 2 ;;
          let sign :=
            if contains (chars "positive") g2 then "+" else "-" in
          Ok (set_blood_group (grp ++ chars sign)%list data)
      | None => Ok data
      end
  end.

(** ** [analyze_risk] *)

Local Open Scope Z_scope.

Module detected.
(** The dictionary under ["vitals_detected"]. *)
Record t : Type := {
  bp : option string;
  sugar : option Z;
  heart_rate : option Z;
  height : option Z;
  weight : option Z;
  age : option Z;
  blood_group : option string
}.
End detected.

(** The dictionary [analyze_risk] returns. *)
Record assessment : Type := {
  risk_level : string;
  vitals_detected : detected.t
}.

Definition is_not_None {A : Type} (o : option A) : bool :=
  match o with
  | Some _ => true
  | None => false
  end.

(** Truth value of an optional integer: [None] and [0] are false. *)
Definition truthy (o : option Z) : bool :=
  match o with
  | Some v => negb (v =? 0)
  | None => false
  end.

(** An optional integer inside an f-string. *)
Definition fmt (o : option Z) : text :=
  match o with
  | Some v => str_of_int v
  | None => chars "None"
  end.

(** [status_map = {0: "Healthy", 1: "Warning", 2: "Critical"}] read at a
    key: any other key is a [KeyError]. *)
Definition status_map (i : Z) : outcome string :=
  if i =? 0 then Ok "Healthy"
  else if i =? 1 then Ok "Warning"
  else if i =? 2 then Ok "Critical"
  else Raise KeyError.

(** [" ".join(text_records) if text_records else ""] *)
Definition join_records (text_records : list string) : string :=
  match text_records with
  | [] => ""
  | _ => String.concat " " text_records
  end.

(** The blood-pressure step of the rule ladder. *)
Definition check_bp (sys dia current_risk : Z) : Z :=
  if (sys >=? 180) || (dia >=? 120) then Z.max current_risk 2
  else if (sys >=? 140) || (dia >=? 90) then Z.max current_risk 1
  else current_risk.

(** The sugar step of the rule ladder. *)
Definition check_sugar (sug current_risk : Z) : Z :=
  if sug >=? 200 then Z.max current_risk 2
  else if sug >=? 140 then Z.max current_risk 1
  else current_risk.

Section Risk.
(** [rf_predict x] stands for [rf_model.predict([x])[0]], the class
    index the fitted forest gives the feature vector [x]. *)
Variable rf_predict : list Z -> Z.

(** The risk status of the extracted features (lines 113-161).  A
    comparison or a prediction on [None] would raise; the guards make
    those branches unreachable. *)
Definition risk_of (f : features) : outcome string :=
  let has_bp := is_not_None (systolic f) && is_not_None (diastolic f) in
  let has_sugar := is_not_None (sugar f) in
  let has_age := is_not_None (age f) in
  if has_bp && has_sugar && has_age then
    match systolic f, diastolic f, sugar f, age f with
    | Some sys, Some dia, Some sug, Some a =>
        let hr_val :=
          match heart_rate f with
          | Some hr => hr
          | None => 72
          end in
        let input_data := [sys; dia; sug; hr_val; a] in
        let prediction_index := rf_predict input_data in
        status_map prediction_index
    | _, _, _, _ => Raise TypeError
    end
  else if has_bp || has_sugar then
    let current_risk := 0 in
    current_risk <-
      (if has_bp then
         match systolic f, diastolic f with
         | Some sys, Some dia => Ok (check_bp sys dia current_risk)
         | _, _ => Raise TypeError
         end
       else Ok current_risk) ;;
    current_risk <-
      (if has_sugar then
         match sugar f with
         | Some sug => Ok (check_sugar sug current_risk)
         | None => Raise TypeError
         end
       else Ok current_risk) ;;
    status_map current_risk
  else Ok "Insufficient Data".

(** The echoed vitals (lines 165-174); ["bp"] is rendered only when
    both readings are truthy. *)
Definition echo (f : features) : detected.t :=
  {| detected.bp :=
       if truthy (systolic f) && truthy (diastolic f)
       then Some (string_of_list_ascii
                    (fmt (systolic f) ++ chars "/" ++ fmt (diastolic f))%list)
       else None;
     detected.sugar := sugar f;
     detected.heart_rate := heart_rate f;
     detected.height := height f;
     detected.weight := weight f;
     detected.age := age f;
     detected.blood_group := blood_group f |}.

Definition analyze_risk (text_records : list string) : outcome assessment :=
  let full_text := join_records text_records in
  features <- parse_medical_text full_text ;;
  risk_status <- risk_of features ;;
  Ok {| risk_level := risk_status; vitals_detected := echo features |}.
End Risk.

(** * A declarative reading of the patterns

    The statements below describe what a pattern can read; the lemmas
    of the next part relate the matcher to them. *)

Module re_spec.
Import re.

Local Open Scope list_scope.

(** [matches r st cs st' cs']: the pattern [r] can read the subject from
    position [st] to position [st'], turning the captures [cs] into
    [cs']. *)
Fixpoint matches (r : regex) (st : state) (cs : caps) (st' : state)
    (cs' : caps) : Prop :=
  match r with
  | Eps => st' = st /\ cs' = cs
  | Chr p =>
      exists c suf,
        snd st = c :: suf /\ p c = true /\ st' = (c :: fst st, suf) /\ cs' = cs
  | Seq r1 r2 =>
      exists st1 cs1, matches r1 st cs st1 cs1 /\ matches r2 st1 cs1 st' cs'
  | Alt r1 r2 => matches r1 st cs st' cs' \/ matches r2 st cs st' cs'
  | Star p =>
      exists xs,
        forallb p xs = true /\ snd st = (xs ++ snd st')%list /\
        fst st' = (rev xs ++ fst st)%list /\ cs' = cs
  | Group n r1 =>
      exists cs1, matches r1 st cs st' cs1 /\ cs' = (n, consumed st st') :: cs1
  | WordB => at_boundary st = true /\ st' = st /\ cs' = cs
  end.

(** Reading the characters [xs] leads from [st] to [st']. *)
Definition reads (st st' : state) (xs : text) : Prop :=
  snd st = xs ++ snd st' /\ fst st' = rev xs ++ fst st.

(** Patterns without groups and without [\b]. *)
Fixpoint plain (r : regex) : bool :=
  match r with
  | Eps | Chr _ | Star _ => true
  | Seq r1 r2 | Alt r1 r2 => plain r1 && plain r2
  | Group _ _ | WordB => false
  end.

(** The strings a plain pattern can read. *)
Fixpoint lang (r : regex) (xs : text) : Prop :=
  match r with
  | Eps => xs = []
  | Chr p => exists c, xs = [c] /\ p c = true
  | Seq r1 r2 => exists x1 x2, xs = x1 ++ x2 /\ lang r1 x1 /\ lang r2 x2
  | Alt r1 r2 => lang r1 xs \/ lang r2 xs
  | Star p => forallb p xs = true
  | Group _ _ | WordB => False
  end.

(** A string of between [lo] and [hi] decimal digits. *)
Definition is_digits (lo hi : nat) (ds : text) : Prop :=
  forallb is_digit ds = true /\ (lo <= List.length ds <= hi)%nat.

End re_spec.

(** * The extracted record as a function of the text *)

(** The integer in group [n] of the first match of [pat] in [s]. *)
Definition found (pat : re.regex) (n : nat) (s : text) : option Z :=
  match re.search pat s with
  | Some m => option_map digits_value (re.group m n)
  | None => None
  end.

(** The blood group: the adjacent-sign pattern on the raw text, else the
    word form on the cleaned text. *)
Definition found_blood_group (raw : text) : option string :=
  match re.search bg_pattern raw with
  | Some m =>
      Some (string_of_list_ascii (remove_char " " (upper (re.group0 m))))
  | None =>
      match re.search bg_word_pattern (clean raw) with
      | Some m =>
          match re.group m 1, re.group m 2 with
          | Some g1, Some g2 =>
              Some (string_of_list_ascii
                      (upper g1 ++
                       (if contains (chars "positive") g2
                        then ["+"%char] else ["-"%char]))%list)
          | _, _ => None
          end
      | None => None
      end
  end.

Definition extracted (raw : text) : features :=
  {| systolic := found bp_pattern 1 (clean raw);
     diastolic := found bp_pattern 2 (clean raw);
     sugar := found sugar_pattern 1 (clean raw);
     heart_rate := found hr_pattern 1 (clean raw);
     age := found age_pattern 1 (clean raw);
     height := found height_pattern 1 (clean raw);
     weight := found weight_pattern 1 (clean raw);
     blood_group := found_blood_group raw |}.

(** What [clean] does to one character. *)
Definition clean_char (c : ascii) : ascii :=
  let c := lower_char c in
  if Ascii.eqb c ":" || Ascii.eqb c "-" || Ascii.eqb c newline ||
     Ascii.eqb c "*" || Ascii.eqb c "#"
  then " "%char else c.

Definition not_slash (c : ascii) : bool := negb (Ascii.eqb c "/").
Definition not_sign (c : ascii) : bool := negb (is_sign c).

(** The label words of the three labelled patterns. *)
Definition sugar_words : list text :=
  [chars "sugar"; chars "glucose"; chars "rbs"; chars "fbs"; chars "ppbs";
   chars "level"; chars "levels"].
Definition hr_words : list text :=
  [chars "hr"; chars "pulse"; chars "rate"; chars "bpm"].
Definition age_words : list text := [chars "age"; chars "old"].

(** [post] does not start with a digit. *)
Definition no_digit_next (post : text) : Prop :=
  match post with
  | c :: _ => is_digit c = false
  | [] => True
  end.

(** [ds] is what a greedy pattern for between [lo] and [hi] digits takes
    from a text that goes on with [ds ++ post]: [hi] digits, or fewer
    when no digit comes next. *)
Definition greedy_digits (lo hi : nat) (ds post : text) : Prop :=
  forallb is_digit ds = true /\
  ((lo <= List.length ds < hi)%nat /\ no_digit_next post \/
   List.length ds = hi).

(** No word character stands just before the end of [pre]. *)
Definition word_start (pre : text) : bool :=
  match rev pre with
  | c :: _ => negb (is_word c)
  | [] => true
  end.

(** One of the letters a, b, o in either case. *)
Definition is_abo (c : ascii) : bool :=
  Ascii.eqb (lower_char c) "a" || Ascii.eqb (lower_char c) "b" ||
  Ascii.eqb (lower_char c) "o".

(** The four letter groups of the blood-group patterns. *)
Definition group_letters : list text :=
  [chars "a"; chars "b"; chars "ab"; chars "o"].

(** * The labelled fields in the words of the design

    A labelled field is read at the first place of the text where a
    label starts and where the text after the label, read over
    characters that are not digits, goes on with enough digits; nothing
    is asked of the characters before the label or after the digits. *)

(** The decimal digits [s] starts with. *)
Fixpoint leading_digits (s : text) : text :=
  match s with
  | c :: s' => if is_digit c then c :: leading_digits s' else []
  | [] => []
  end.

(** The first run of decimal digits of [s]. *)
Fixpoint first_digits (s : text) : text :=
  match s with
  | c :: s' => if is_digit c then c :: leading_digits s' else first_digits s'
  | [] => []
  end.

(** What follows the label, when one of [words] starts [s]. *)
Fixpoint after_label (words : list text) (s : text) : option text :=
  match words with
  | w :: words' =>
      if starts_with w s then Some (skipn (List.length w) s)
      else after_label words' s
  | [] => None
  end.

(** The digits read at a label that starts [s]: the first run of digits
    after the label when it has at least [lo] digits, cut to its first
    [hi] digits. *)
Definition number_at (words : list text) (lo hi : nat) (s : text)
    : option text :=
  match after_label words s with
  | Some rest =>
      let ds := first_digits rest in
      if (lo <=? List.length ds)%nat then Some (firstn hi ds) else None
  | None => None
  end.

(** The digits of the field: those read at the first place that gives
    any. *)
Fixpoint reading (words : list text) (lo hi : nat) (s : text) : option text :=
  match number_at words lo hi s with
  | Some ds => Some ds
  | None =>
      match s with
      | _ :: s' => reading words lo hi s'
      | [] => None
      end
  end.

(** * The blood group in the words of the design

    Rule (a): a letter group a, b, ab or o in either case that starts a
    word and is followed by a sign, directly or after one blank; the
    value is the letters in upper case and the sign, a space between
    them left out.  Rule (b), on the cleaned text: a letter group that
    starts a word, blanks, and [positive] or [negative].  The first
    place where rule (a) applies decides; rule (b) is tried only when
    rule (a) applies nowhere. *)

(** No word character stands before the place. *)
Definition starts_word (prev : option ascii) : bool :=
  match prev with
  | Some c => negb (is_word c)
  | None => true
  end.

(** The first answer among those of the candidates. *)
Fixpoint first_some {A B : Type} (f : A -> option B) (l : list A) : option B :=
  match l with
  | a :: l' =>
      match f a with
      | Some b => Some b
      | None => first_some f l'
      end
  | [] => None
  end.

Definition fold_case (ignore_case : bool) (x : ascii) : ascii :=
  if ignore_case then lower_char x else x.

Definition abo (c : ascii) : bool :=
  Ascii.eqb c "a" || Ascii.eqb c "b" || Ascii.eqb c "o".

(** The letter groups [s] can start with, in upper case, each with the
    text after it: one letter a, b or o, then the two letters ab. *)
Definition letter_groups (ignore_case : bool) (s : text)
    : list (text * text) :=
  match s with
  | x :: s1 =>
      (if abo (fold_case ignore_case x) then [([upper_char x], s1)] else []) ++
      match s1 with
      | y :: s2 =>
          if Ascii.eqb (fold_case ignore_case x) "a" &&
             Ascii.eqb (fold_case ignore_case y) "b"
          then [([upper_char x; upper_char y], s2)] else []
      | [] => []
      end
  | [] => []
  end.

(** A sign at the start of [s], or one blank and a sign: the sign,
    preceded by the blank when it is not a space. *)
Definition sign_after (s : text) : option text :=
  match s with
  | c :: rest =>
      if is_sign c then Some [c]
      else if is_space c then
        match rest with
        | d :: _ =>
            if is_sign d
            then Some (if Ascii.eqb c " " then [d] else [c; d])
            else None
        | [] => None
        end
      else None
  | [] => None
  end.

(** Rule (a) at the start of [s]. *)
Definition adjacent_at (s : text) : option text :=
  first_some (fun c => option_map (app (fst c)) (sign_after (snd c)))
    (letter_groups true s).

Fixpoint skip_blanks (s : text) : text :=
  match s with
  | c :: s' => if is_space c then skip_blanks s' else s
  | [] => []
  end.

(** Blanks and then [positive] or [negative] at the start of [s]. *)
Definition word_sign (s : text) : option text :=
  match s with
  | c :: _ =>
      if is_space c then
        if starts_with (chars "positive") (skip_blanks s)
        then Some ["+"%char]
        else if starts_with (chars "negative") (skip_blanks s)
        then Some ["-"%char]
        else None
      else None
  | [] => None
  end.

(** Rule (b) at the start of [s]. *)
Definition word_at (s : text) : option text :=
  first_some (fun c => option_map (app (fst c)) (word_sign (snd c)))
    (letter_groups false s).

(** The first place, from left to right, where a rule applies at the
    start of a word; [prev] is the character before [s]. *)
Fixpoint scan (rule : text -> option text) (prev : option ascii) (s : text)
    : option text :=
  match (if starts_word prev then rule s else None) with
  | Some v => Some v
  | None =>
      match s with
      | c :: s' => scan rule (Some c) s'
      | [] => None
      end
  end.

Definition adjacent_group (raw : text) : option text := scan adjacent_at None raw.
Definition word_group (clean_text : text) : option text :=
  scan word_at None clean_text.

(** Rule (a) first, rule (b) only when rule (a) finds nothing. *)
Definition two_rules (raw : text) : option string :=
  option_map string_of_list_ascii
    match adjacent_group raw with
    | Some v => Some v
    | None => word_group (clean raw)
    end.

(** The sign the code derives from the second group of the word form. *)
Definition sign_of (pn : text) : text :=
  if contains (chars "positive") pn then ["+"%char] else ["-"%char].

(** The value the code computes from a match of the word form. *)
Definition word_value (m : re.match_obj) : option text :=
  match re.group m 1, re.group m 2 with
  | Some g1, Some g2 => Some (upper g1 ++ sign_of g2)%list
  | _, _ => None
  end.

(** The character before the end of [pre], or [prev] when [pre] is
    empty. *)
Definition last_before (prev : option ascii) (pre : text) : option ascii :=
  match rev pre with
  | c :: _ => Some c
  | [] => prev
  end.

(** Neither a space nor a lower-case letter. *)
Definition upper_no_space (c : ascii) : bool :=
  negb (Ascii.eqb c " ") && negb (is_lower c).

(** * The strategies of [analyze_risk] in the words of the design *)

(** The three completeness flags. *)
Definition has_bp (f : features) : bool :=
  is_not_None (systolic f) && is_not_None (diastolic f).
Definition has_sugar (f : features) : bool := is_not_None (sugar f).
Definition has_age (f : features) : bool := is_not_None (age f).

(** Which strategy applies, in priority order. *)
Definition full_path (f : features) : bool :=
  has_bp f && has_sugar f && has_age f.
Definition partial_path (f : features) : bool :=
  negb (full_path f) && (has_bp f || has_sugar f).

(** The tiers the two classifying strategies can give, by severity. *)
Inductive level : Type :=
| Healthy
| Warning
| Critical.

Definition rank (l : level) : Z :=
  match l with
  | Healthy => 0
  | Warning => 1
  | Critical => 2
  end.

Definition level_name (l : level) : string :=
  match l with
  | Healthy => "Healthy"
  | Warning => "Warning"
  | Critical => "Critical"
  end.

Definition level_max (a b : level) : level :=
  if rank a <=? rank b then b else a.

(** The blood-pressure rung and the sugar rung of the rule ladder. *)
Definition bp_level (sys dia : Z) : level :=
  if (180 <=? sys) || (120 <=? dia) then Critical
  else if (140 <=? sys) || (90 <=? dia) then Warning
  else Healthy.

Definition sugar_level (sug : Z) : level :=
  if 200 <=? sug then Critical
  else if 140 <=? sug then Warning
  else Healthy.

(** The rule ladder: start at [Healthy] and take the maximum over the
    checks whose reading is present. *)
Definition ladder (f : features) : level :=
  level_max
    (match systolic f, diastolic f with
     | Some sys, Some dia => bp_level sys dia
     | _, _ => Healthy
     end)
    (match sugar f with
     | Some sug => sugar_level sug
     | None => Healthy
     end).

(** The feature vector given to the classifier. *)
Definition feature_vector (sys dia sug a : Z) (hr : option Z) : list Z :=
  [sys; dia; sug; match hr with Some h => h | None => 72 end; a].

(** Two stand-ins for the fitted classifier, used in the examples. *)
Definition always_healthy : list Z -> Z := fun _ => 0.

(** The class grows with the systolic reading. *)
Definition by_systolic (x : list Z) : Z :=
  match x with
  | sys :: _ => if 150 <=? sys then 2 else if 130 <=? sys then 1 else 0
  | [] => 0
  end.

(** * The callers of the engine

    The two web applications call the engine on what the record store
    returns.  The store, the language model and the web framework are
    outside: the rows they return are arguments of the functions below. *)

(** ** [analyze_health] of [app.py] *)

Module app.

(** The three kinds of reply: a JSON body with ["success": False], one
    with the prediction, and the status 500 of the [except] branch. *)
Inductive reply : Type :=
| Failure (error : string)
| Prediction (prediction : assessment)
| ServerError (e : exn).

(** Truth value of a text column: [None] and [""] are false. *)
Definition truthy_text (o : option string) : bool :=
  match o with
  | Some s => negb (String.eqb s "")
  | None => false
  end.

(** [[item['content'] for item in data if item.get('content')]]: a row
    is given by its text column. *)
Definition texts_of (data : list (option string)) : list string :=
  flat_map
    (fun item =>
       match item with
       | Some s => if truthy_text item then [s] else []
       | None => []
       end)
    data.

(** [chunks] is the answer of the query on [document_chunks], [records]
    that of the query on [records] (made only when [chunks] is empty). *)
Definition analyze_health (rf_predict : list Z -> Z)
    (chunks records : list (option string)) : reply :=
  let chosen :=
    match chunks with
    | [] =>
        match records with
        | [] => inl "No medical records found for analysis"
        | _ => inr (texts_of records)
        end
    | _ => inr (texts_of chunks)
    end in
  match chosen with
  | inl error => Failure error
  | inr text_records =>
      match text_records with
      | [] => Failure "Records exist but contain no text."
      | _ =>
          match analyze_risk rf_predict text_records with
          | Ok analysis_result => Prediction analysis_result
          | Raise e => ServerError e
          end
      end
  end.

End app.

(** ** [get_health_trends] and the merge of [analyze_health] in [main.py] *)

Module history.
(** An item of [get_patient_records_with_dates]. *)
Record t : Type := {
  date : string;
  text : string
}.
End history.

Module timeline.
(** An entry of the timeline. *)
Record t : Type := {
  date : string;
  systolic : option Z;
  diastolic : option Z;
  sugar : option Z;
  heart_rate : option Z;
  weight : option Z
}.
End timeline.

Module main.

Inductive trends_reply : Type :=
| Trends (timeline : list timeline.t)
| Http500 (e : exn).

(** [any(v is not None for v in [systolic, sugar, heart_rate, weight])] *)
Definition key_metric_found (vitals : features) : bool :=
  existsb is_not_None
    [systolic vitals; sugar vitals; heart_rate vitals; weight vitals].

Definition entry_of (record : history.t) (vitals : features) : timeline.t :=
  {| timeline.date := history.date record;
     timeline.systolic := systolic vitals;
     timeline.diastolic := diastolic vitals;
     timeline.sugar := sugar vitals;
     timeline.heart_rate := heart_rate vitals;
     timeline.weight := weight vitals |}.

(** The loop over the history: each text is cleaned, then parsed (and so
    cleaned once more), and appended when a key metric was found. *)
Fixpoint trends_loop (history : list history.t) (timeline : list timeline.t)
    : outcome (list timeline.t) :=
  match history with
  | [] => Ok timeline
  | record :: rest =>
      let clean_text :=
        string_of_list_ascii (clean (chars (history.text record))) in
      vitals <- parse_medical_text clean_text ;;
      trends_loop rest
        (if key_metric_found vitals
         then (timeline ++ [entry_of record vitals])%list
         else timeline)
  end.

Definition get_health_trends (history : list history.t) : trends_reply :=
  match trends_loop history [] with
  | Ok timeline => Trends timeline
  | Raise e => Http500 e
  end.

(** The keys of ["vitals_detected"]. *)
Inductive vkey : Type :=
| key_bp
| key_sugar
| key_heart_rate
| key_height
| key_weight
| key_age
| key_blood_group.

Definition vkey_eqb (a b : vkey) : bool :=
  match a, b with
  | key_bp, key_bp | key_sugar, key_sugar | key_heart_rate, key_heart_rate
  | key_height, key_height | key_weight, key_weight | key_age, key_age
  | key_blood_group, key_blood_group => true
  | _, _ => false
  end.

(** [key in ['sugar', 'heart_rate', 'weight', 'age']] *)
Definition numeric_key (key : vkey) : bool :=
  match key with
  | key_sugar | key_heart_rate | key_weight | key_age => true
  | _ => false
  end.

(** [re.findall(r'\d+', s)] as the code looks at it: empty or not, and
    its first element, which is the first match of the pattern (of ASCII
    digits: see the scope of the model). *)
Definition first_number (s : text) : option text :=
  option_map re.group0 (re.search (re.plus is_digit) s).

Section Merge.
(** A value decoded by [json.loads], seen through [bool] and [str]. *)
Variable json : Type.
Variable json_truth : json -> bool.
Variable json_str : json -> text.
(** [sys.get_int_max_str_digits()]: [int] refuses longer strings; 0
    stands for no limit. *)
Variable int_max_str_digits : nat.

(** What a key of ["vitals_detected"] can hold once the values of the
    language model are merged in. *)
Inductive cell : Type :=
| Absent
| Int (n : Z)
| Str (s : string)
| Json (v : json).

Definition vitals : Type := vkey -> cell.

Definition of_option_int (o : option Z) : cell :=
  match o with
  | Some n => Int n
  | None => Absent
  end.

Definition of_option_str (o : option string) : cell :=
  match o with
  | Some s => Str s
  | None => Absent
  end.

(** The dictionary [analysis_result['vitals_detected']] before the merge. *)
Definition vitals_of (d : detected.t) : vitals :=
  fun key =>
    match key with
    | key_bp => of_option_str (detected.bp d)
    | key_sugar => of_option_int (detected.sugar d)
    | key_heart_rate => of_option_int (detected.heart_rate d)
    | key_height => of_option_int (detected.height d)
    | key_weight => of_option_int (detected.weight d)
    | key_age => of_option_int (detected.age d)
    | key_blood_group => of_option_str (detected.blood_group d)
    end.

(** Truth value of what a key holds. *)
Definition cell_truth (c : cell) : bool :=
  match c with
  | Absent => false
  | Int n => negb (n =? 0)
  | Str s => negb (String.eqb s "")
  | Json v => json_truth v
  end.

Definition store (key : vkey) (c : cell) (d : vitals) : vitals :=
  fun k => if vkey_eqb k key then c else d k.

(** [int(nums[0])] under the limit on the length of the string. *)
Definition int_limited (s : text) : outcome Z :=
  if negb (Nat.eqb int_max_str_digits 0) &&
     Nat.ltb int_max_str_digits (List.length s)
  then Raise ValueError
  else int s.

(** [update_if_missing(key, val)], with [val = gemini_vitals.get(key)];
    an exception in the conversion is swallowed by [except: pass]. *)
Definition update_if_missing (key : vkey) (val : option json) (d : vitals)
    : vitals :=
  match val with
  | Some v =>
      if negb (cell_truth (d key)) && json_truth v then
        if numeric_key key then
          match first_number (json_str v) with
          | Some n0 =>
              match int_limited n0 with
              | Ok n => store key (Int n) d
              | Raise _ => d
              end
          | None => d
          end
        else store key (Json v) d
      else d
  | None => d
  end.

(** The six calls, in the order of the source. *)
Definition merge_vitals (gemini_vitals : vkey -> option json) (d : vitals)
    : vitals :=
  let d := update_if_missing key_bp (gemini_vitals key_bp) d in
  let d := update_if_missing key_sugar (gemini_vitals key_sugar) d in
  let d := update_if_missing key_heart_rate (gemini_vitals key_heart_rate) d in
  let d := update_if_missing key_weight (gemini_vitals key_weight) d in
  let d := update_if_missing key_age (gemini_vitals key_age) d in
  update_if_missing key_blood_group (gemini_vitals key_blood_group) d.
End Merge.

Arguments Absent {json}.
Arguments Int {json} n.
Arguments Str {json} s.
Arguments Json {json} v.

End main.

(** ** Words for the further results *)

(** The eight blood groups. *)
Definition blood_groups : list string :=
  ["A+"; "A-"; "B+"; "B-"; "AB+"; "AB-"; "O+"; "O-"].

Definition group_names : list text :=
  [chars "A"; chars "B"; chars "AB"; chars "O"].

(** A blank that is not the space character. *)
Definition odd_blank (c : ascii) : bool :=
  is_space c && negb (Ascii.eqb c " ").

(** ["A<tab>+"] *)
Definition tabbed_group : string :=
  String "A" (String (ascii_of_N 9) (String "+" EmptyString)).

Definition plain_blanks (raw : text) : bool :=
  forallb (fun c => negb (odd_blank c)) raw.

Definition tier_names : list string :=
  ["Healthy"; "Warning"; "Critical"; "Insufficient Data"].

(** The text does not end with a digit. *)
Definition no_digit_last (pre : text) : Prop :=
  match rev pre with
  | c :: _ => is_digit c = false
  | [] => True
  end.

(** A number in front of a unit as the measured patterns take it: two
    or three digits, with no further digit just before when there are
    only two. *)
Definition unit_digits (pre ds : text) : Prop :=
  re_spec.is_digits 2 3 ds /\ (List.length ds = 3%nat \/ no_digit_last pre).

Definition not_char (a c : ascii) : bool := negb (Ascii.eqb c a).

(** What the trends loop keeps of a record, read from the text of the
    record as it is stored. *)
Definition kept (record : history.t) : bool :=
  match parse_medical_text (history.text record) with
  | Ok vitals => main.key_metric_found vitals
  | Raise _ => false
  end.

Definition entry_as_stored (record : history.t) : timeline.t :=
  match parse_medical_text (history.text record) with
  | Ok vitals => main.entry_of record vitals
  | Raise _ => main.entry_of record empty_data
  end.

(** * Properties *)

Local Open Scope list_scope.

(** ** Tactics *)

Ltac case_match_in H E :=
  match type of H with
  | context [match ?x with _ => _ end] => destruct x eqn:E
  end.

Ltac each_char c := destruct c as [[] [] [] [] [] [] [] []].

Ltac first_answer Hk :=
  match goal with
  | |- match ?x with _ => _ end = _ =>
      let E := fresh "E" in
      destruct x eqn:E;
      [first [reflexivity|symmetry; exact E]|exfalso; exact (Hk _ _ E)]
  end.

(** ** The matcher against a declarative reading of the patterns *)

Module re_facts.
Import re re_spec.

Lemma star_greedy_sound {A : Type} (p : ascii -> bool) (k : state -> option A) :
  forall suf pre a,
    star_greedy p k pre suf = Some a ->
    exists xs suf',
      suf = (xs ++ suf')%list /\ forallb p xs = true /\
      k ((rev xs ++ pre)%list, suf') = Some a.
Proof.
  induction suf as [|c suf IH]; intros pre a H; simpl in H.
  - exists [], []. auto.
  - destruct (p c) eqn:Hp.
    + destruct (star_greedy p k (c :: pre) suf) eqn:Hs.
      * injection H as <-. apply IH in Hs.
        destruct Hs as (xs & suf' & -> & Hall & Hk).
        exists (c :: xs), suf'. simpl. rewrite Hp, Hall.
        rewrite <- app_assoc. simpl. auto.
      * exists [], (c :: suf). auto.
    + exists [], (c :: suf). auto.
Qed.

Lemma star_greedy_none {A : Type} (p : ascii -> bool) (k : state -> option A) :
  forall suf pre,
    star_greedy p k pre suf = None ->
    forall xs suf',
      suf = (xs ++ suf')%list -> forallb p xs = true ->
      k ((rev xs ++ pre)%list, suf') = None.
Proof.
  induction suf as [|c suf IH]; intros pre H xs suf' Heq Hall; simpl in H.
  - symmetry in Heq. apply app_eq_nil in Heq. destruct Heq as [-> ->]. exact H.
  - destruct xs as [|x xs]; simpl in Heq.
    + subst suf'. simpl.
      destruct (p c); [destruct (star_greedy p k (c :: pre) suf)|];
        try discriminate; exact H.
    + injection Heq as Hc Hs. subst c suf. simpl in Hall.
      apply andb_true_iff in Hall. destruct Hall as [Hx Hall].
      rewrite Hx in H.
      destruct (star_greedy p k (x :: pre) (xs ++ suf')) eqn:Hs; [discriminate|].
      simpl. rewrite <- app_assoc. simpl.
      eapply IH; eauto.
Qed.

(** Every answer of the matcher comes from a reading of the pattern. *)
Lemma run_sound {A : Type} :
  forall r st cs (k : state -> caps -> option A) a,
    run r st cs k = Some a ->
    exists st' cs', matches r st cs st' cs' /\ k st' cs' = Some a.
Proof.
  induction r as [|p|r1 IH1 r2 IH2|r1 IH1 r2 IH2|p|n r1 IH1|];
    intros [pre suf] cs k a H; simpl in H.
  - exists (pre, suf), cs. simpl. auto.
  - destruct suf as [|c suf]; [discriminate|].
    destruct (p c) eqn:Hp; [|discriminate].
    exists (c :: pre, suf), cs. simpl. split; [|exact H].
    exists c, suf. auto.
  - apply IH1 in H. destruct H as (st1 & cs1 & H1 & H).
    apply IH2 in H. destruct H as (st2 & cs2 & H2 & H).
    exists st2, cs2. split; [|exact H]. simpl. eauto.
  - destruct (run r1 (pre, suf) cs k) eqn:H1.
    + injection H as <-. apply IH1 in H1.
      destruct H1 as (st' & cs' & H1 & Hk). exists st', cs'. simpl. auto.
    + apply IH2 in H.
      destruct H as (st' & cs' & H2 & Hk). exists st', cs'. simpl. auto.
  - apply star_greedy_sound in H. destruct H as (xs & suf' & -> & Hall & Hk).
    exists ((rev xs ++ pre)%list, suf'), cs. split; [|exact Hk].
    simpl. exists xs. auto.
  - apply IH1 in H. destruct H as (st' & cs' & H1 & Hk).
    exists st', ((n, consumed (pre, suf) st') :: cs'). split; [|exact Hk].
    simpl. eauto.
  - destruct (at_boundary (pre, suf)) eqn:Hb; [|discriminate].
    exists (pre, suf), cs. simpl. auto.
Qed.

(** When the matcher fails, no reading of the pattern can be continued. *)
Lemma run_none {A : Type} :
  forall r st cs (k : state -> caps -> option A),
    run r st cs k = None ->
    forall st' cs', matches r st cs st' cs' -> k st' cs' = None.
Proof.
  induction r as [|p|r1 IH1 r2 IH2|r1 IH1 r2 IH2|p|n r1 IH1|];
    intros [pre suf] cs k H st' cs' Hm; simpl in H, Hm.
  - destruct Hm as [-> ->]. exact H.
  - destruct Hm as (c & suf' & Hs & Hp & -> & ->). simpl in Hs. subst suf.
    rewrite Hp in H. exact H.
  - destruct Hm as (st1 & cs1 & H1 & H2).
    eapply IH2; [|exact H2].
    exact (IH1 _ _ _ H _ _ H1).
  - destruct (run r1 (pre, suf) cs k) eqn:H1; [discriminate|].
    destruct Hm as [Hm|Hm]; eauto.
  - destruct Hm as (xs & Hall & Hs & Hf & ->). destruct st' as [pre' suf'].
    simpl in Hs, Hf. subst pre'.
    exact (star_greedy_none _ _ _ _ H _ _ Hs Hall).
  - destruct Hm as (cs1 & H1 & ->).
    exact (IH1 _ _ _ H _ _ H1).
  - destruct Hm as (Hb & -> & ->). rewrite Hb in H. exact H.
Qed.

(** A reading only moves forward in the subject. *)
Lemma matches_split :
  forall r st cs st' cs',
    matches r st cs st' cs' ->
    exists xs,
      snd st = (xs ++ snd st')%list /\ fst st' = (rev xs ++ fst st)%list.
Proof.
  induction r as [|p|r1 IH1 r2 IH2|r1 IH1 r2 IH2|p|n r1 IH1|];
    intros st cs st' cs' Hm; simpl in Hm.
  - destruct Hm as [-> _]. exists []. auto.
  - destruct Hm as (c & suf & Hs & _ & -> & _). exists [c]. simpl. auto.
  - destruct Hm as (st1 & cs1 & H1 & H2).
    apply IH1 in H1. apply IH2 in H2.
    destruct H1 as (xs & Hs1 & Hf1). destruct H2 as (ys & Hs2 & Hf2).
    exists (xs ++ ys)%list. rewrite Hs1, Hs2, Hf2, Hf1, rev_app_distr.
    rewrite !app_assoc. auto.
  - destruct Hm as [Hm|Hm]; eauto.
  - destruct Hm as (xs & _ & Hs & Hf & _). eauto.
  - destruct Hm as (cs1 & H1 & _). eauto.
  - destruct Hm as (_ & -> & _). exists []. auto.
Qed.

Lemma consumed_app (pre xs suf suf' : text) :
  consumed (pre, suf) ((rev xs ++ pre)%list, suf') = xs.
Proof.
  unfold consumed. simpl.
  rewrite length_app, length_rev.
  replace (List.length xs + List.length pre - List.length pre)%nat
    with (List.length (rev xs)) by (rewrite length_rev; lia).
  rewrite firstn_app, Nat.sub_diag, firstn_all. simpl.
  rewrite app_nil_r. apply rev_involutive.
Qed.

Lemma consumed_rev pre0 ds post suf :
  consumed (pre0, suf) (rev ds ++ pre0, post) = ds.
Proof. exact (consumed_app pre0 ds suf post). Qed.

Lemma reads_nil (st st' : state) : reads st st' [] <-> st' = st.
Proof.
  unfold reads. destruct st as [a b], st' as [a' b']. simpl. split.
  - intros [-> ->]. reflexivity.
  - intros [= -> ->]. auto.
Qed.

Lemma reads_app (st st' : state) (xs ys : text) :
  reads st st' (xs ++ ys) <->
  exists st1, reads st st1 xs /\ reads st1 st' ys.
Proof.
  unfold reads. split.
  - intros [Hs Hf]. exists (rev xs ++ fst st, ys ++ snd st'). simpl.
    rewrite Hs, Hf, rev_app_distr, !app_assoc. auto.
  - intros (st1 & [Hs1 Hf1] & [Hs2 Hf2]).
    rewrite Hs1, Hs2, Hf2, Hf1, rev_app_distr, !app_assoc. auto.
Qed.

Lemma reads_consumed (st st' : state) (xs : text) :
  reads st st' xs -> consumed st st' = xs.
Proof.
  destruct st as [pre suf], st' as [pre' suf']. intros [_ Hf]. simpl in Hf.
  subst pre'. apply consumed_app.
Qed.

Lemma matches_reads r st cs st' cs' :
  matches r st cs st' cs' -> exists xs, reads st st' xs.
Proof. exact (matches_split r st cs st' cs'). Qed.

(** A plain pattern reads exactly the strings of its language and
    leaves the captures alone. *)
Lemma matches_plain :
  forall r, plain r = true ->
  forall st cs st' cs',
    matches r st cs st' cs' <->
    exists xs, lang r xs /\ reads st st' xs /\ cs' = cs.
Proof.
  induction r as [|p|r1 IH1 r2 IH2|r1 IH1 r2 IH2|p|n r1 IH1|];
    simpl; intros Hp st cs st' cs'; try discriminate.
  - split.
    + intros [-> ->]. exists []. rewrite reads_nil. auto.
    + intros (xs & -> & Hr & ->). apply reads_nil in Hr. auto.
  - split.
    + intros (c & suf & Hs & Hc & -> & ->). exists [c].
      split; [eauto|]. split; [|reflexivity]. split; simpl; auto.
    + intros (xs & (c & -> & Hc) & [Hs Hf] & ->).
      exists c, (snd st'). simpl in Hs, Hf. repeat split; auto.
      destruct st' as [a b]. simpl in *. rewrite Hf. reflexivity.
  - apply andb_true_iff in Hp. destruct Hp as [Hp1 Hp2]. split.
    + intros (st1 & cs1 & H1 & H2).
      apply (IH1 Hp1) in H1. apply (IH2 Hp2) in H2.
      destruct H1 as (x1 & L1 & R1 & ->). destruct H2 as (x2 & L2 & R2 & ->).
      exists (x1 ++ x2). split; [eauto|]. split; [|reflexivity].
      apply reads_app. eauto.
    + intros (xs & (x1 & x2 & -> & L1 & L2) & Hr & ->).
      apply reads_app in Hr. destruct Hr as (st1 & R1 & R2).
      exists st1, cs. split; [apply (IH1 Hp1)|apply (IH2 Hp2)]; eauto.
  - apply andb_true_iff in Hp. destruct Hp as [Hp1 Hp2].
    rewrite (IH1 Hp1), (IH2 Hp2). split.
    + intros [(xs & L & R)|(xs & L & R)]; exists xs; auto.
    + intros (xs & [L|L] & R); [left|right]; eauto.
  - split.
    + intros (xs & Hall & Hs & Hf & ->). exists xs. unfold reads. auto.
    + intros (xs & Hall & [Hs Hf] & ->). exists xs. auto.
Qed.

(** A group around a plain pattern records what the pattern read. *)
Lemma matches_group n r :
  plain r = true ->
  forall st cs st' cs',
    matches (Group n r) st cs st' cs' <->
    exists xs, lang r xs /\ reads st st' xs /\ cs' = (n, xs) :: cs.
Proof.
  intros Hp st cs st' cs'. simpl. split.
  - intros (cs1 & H1 & ->). apply (matches_plain r Hp) in H1.
    destruct H1 as (xs & L & R & ->). exists xs.
    rewrite (reads_consumed _ _ _ R). auto.
  - intros (xs & L & R & ->). exists cs.
    rewrite (reads_consumed _ _ _ R). split; [|reflexivity].
    apply (matches_plain r Hp). eauto.
Qed.

Lemma matches_seq r1 r2 st cs st' cs' :
  matches (Seq r1 r2) st cs st' cs' <->
  exists st1 cs1, matches r1 st cs st1 cs1 /\ matches r2 st1 cs1 st' cs'.
Proof. reflexivity. Qed.

Lemma matches_star p st cs st' cs' :
  matches (Star p) st cs st' cs' <->
  exists xs, forallb p xs = true /\ reads st st' xs /\ cs' = cs.
Proof. apply (matches_plain (Star p) eq_refl). Qed.

Lemma matches_word_b st cs st' cs' :
  matches WordB st cs st' cs' <-> at_boundary st = true /\ st' = st /\ cs' = cs.
Proof. reflexivity. Qed.

(** [re.search]: the answer is the first reading in pattern order at
    the leftmost position that has one. *)
Lemma match_at_some r st m :
  match_at r st = Some m ->
  exists st', matches r st [] st' (groups m) /\ group0 m = consumed st st'.
Proof.
  unfold match_at. intros H. apply run_sound in H.
  destruct H as (st' & cs' & Hm & Hk). simpl in Hk. injection Hk as <-.
  exists st'. simpl. auto.
Qed.

Lemma match_at_none r st :
  match_at r st = None -> forall st' cs', ~ matches r st [] st' cs'.
Proof.
  unfold match_at. intros H st' cs' Hm.
  pose proof (run_none _ _ _ _ H _ _ Hm) as Hk. discriminate.
Qed.

Lemma match_at_matches r st st' cs' :
  matches r st [] st' cs' -> match_at r st <> None.
Proof. intros Hm H. exact (match_at_none _ _ H _ _ Hm). Qed.

Lemma search_from_some r :
  forall suf pre m,
    search_from r pre suf = Some m ->
    exists ys rest,
      suf = ys ++ rest /\ match_at r (rev ys ++ pre, rest) = Some m /\
      forall ys1 ys2,
        ys = ys1 ++ ys2 -> ys2 <> [] ->
        match_at r (rev ys1 ++ pre, ys2 ++ rest) = None.
Proof.
  induction suf as [|c suf IH]; intros pre m H; cbn [search_from] in H.
  - case_match_in H Hm; [|discriminate].
    injection H as ->. exists [], []. repeat split; auto.
    intros ys1 ys2 Heq Hne. symmetry in Heq.
    apply app_eq_nil in Heq. tauto.
  - case_match_in H Hm.
    + injection H as ->. exists [], (c :: suf). repeat split; auto.
      intros ys1 ys2 Heq Hne. symmetry in Heq.
      apply app_eq_nil in Heq. tauto.
    + apply IH in H. destruct H as (ys & rest & -> & Hat & Hleft).
      exists (c :: ys), rest. simpl. rewrite <- app_assoc. simpl.
      repeat split; auto.
      intros [|y ys1] ys2 Heq Hne; simpl in Heq.
      * subst ys2. simpl. exact Hm.
      * injection Heq as <- ->. simpl. rewrite <- !app_assoc. simpl.
        apply Hleft; auto.
Qed.

Lemma search_from_none r :
  forall suf pre,
    search_from r pre suf = None ->
    forall ys rest, suf = ys ++ rest -> match_at r (rev ys ++ pre, rest) = None.
Proof.
  induction suf as [|c suf IH]; intros pre H ys rest Heq; cbn [search_from] in H.
  - symmetry in Heq. apply app_eq_nil in Heq. destruct Heq as [-> ->].
    case_match_in H Hm; [discriminate|exact Hm].
  - case_match_in H Hm; [discriminate|].
    destruct ys as [|y ys]; simpl in Heq.
    + subst rest. exact Hm.
    + injection Heq as <- ->. simpl. rewrite <- app_assoc. simpl.
      apply IH; auto.
Qed.

Lemma app_split_lt {A : Type} :
  forall (pre1 pre a b : list A),
    pre ++ a = pre1 ++ b -> (List.length pre1 < List.length pre)%nat ->
    exists ys2, pre = pre1 ++ ys2 /\ ys2 <> [].
Proof.
  induction pre1 as [|x pre1 IH]; intros pre a b Heq Hlen.
  - exists pre. split; [reflexivity|]. intros ->. simpl in Hlen. lia.
  - destruct pre as [|y pre]; simpl in Hlen; [lia|].
    simpl in Heq. injection Heq as -> Heq.
    destruct (IH pre a b Heq) as (ys2 & -> & Hne); [lia|].
    exists ys2. auto.
Qed.

Lemma app_split_le {A : Type} :
  forall (ys pre a b : list A),
    ys ++ a = pre ++ b -> (List.length ys <= List.length pre)%nat ->
    exists z, pre = ys ++ z /\ a = z ++ b.
Proof.
  induction ys as [|y ys IH]; intros pre a b Heq Hlen.
  - exists pre. auto.
  - destruct pre as [|x pre]; simpl in Hlen; [lia|].
    simpl in Heq. injection Heq as -> Heq.
    destruct (IH pre a b Heq) as (z & -> & ->); [lia|].
    exists z. auto.
Qed.

(** The match found by [search], in terms of the subject: it starts
    after [pre], reads [group0], and no earlier position has a reading. *)
Lemma search_some r s m :
  search r s = Some m ->
  exists pre post,
    s = pre ++ group0 m ++ post /\
    matches r (rev pre, group0 m ++ post) []
      (rev (group0 m) ++ rev pre, post) (groups m) /\
    forall pre1 rest1 st' cs',
      s = pre1 ++ rest1 -> (List.length pre1 < List.length pre)%nat ->
      ~ matches r (rev pre1, rest1) [] st' cs'.
Proof.
  unfold search. intros H. apply search_from_some in H.
  destruct H as (pre & rest & -> & Hat & Hleft).
  rewrite app_nil_r in Hat.
  apply match_at_some in Hat. destruct Hat as ([pre' post] & Hm & Hg).
  destruct (matches_reads _ _ _ _ _ Hm) as (xs & Hr).
  rewrite (reads_consumed _ _ _ Hr) in Hg.
  destruct Hr as [Hs Hf]. simpl in Hs, Hf. subst rest pre'. rewrite Hg.
  exists pre, post. repeat split; auto.
  intros pre1 rest1 st' cs' Heq Hlen Hm1.
  destruct (app_split_lt _ _ _ _ Heq Hlen) as (ys2 & Hpre & Hne).
  subst pre.
  rewrite <- app_assoc in Heq. apply app_inv_head in Heq. subst rest1.
  specialize (Hleft pre1 ys2 eq_refl Hne). rewrite app_nil_r in Hleft.
  exact (match_at_none _ _ Hleft _ _ Hm1).
Qed.

Lemma search_none r s :
  search r s = None ->
  forall pre rest st' cs',
    s = pre ++ rest -> ~ matches r (rev pre, rest) [] st' cs'.
Proof.
  unfold search. intros H pre rest st' cs' Heq Hm.
  pose proof (search_from_none _ _ _ H _ _ Heq) as Hat.
  rewrite app_nil_r in Hat. exact (match_at_none _ _ Hat _ _ Hm).
Qed.

(** A reading anywhere in the subject makes [search] succeed. *)
Lemma search_finds r pre rest st' cs' :
  matches r (rev pre, rest) [] st' cs' -> search r (pre ++ rest) <> None.
Proof.
  intros Hm H. exact (search_none _ _ H _ _ _ _ eq_refl Hm).
Qed.

Lemma search_leftmost r s m :
  search r s = Some m ->
  exists ys rest,
    s = ys ++ rest /\ match_at r (rev ys, rest) = Some m /\
    forall pre1 rest1,
      s = pre1 ++ rest1 -> (List.length pre1 < List.length ys)%nat ->
      match_at r (rev pre1, rest1) = None.
Proof.
  unfold search. intros H. apply search_from_some in H.
  destruct H as (ys & rest & -> & Hat & Hleft). rewrite app_nil_r in Hat.
  exists ys, rest. repeat split; auto.
  intros pre1 rest1 Heq Hlen.
  destruct (app_split_lt _ _ _ _ Heq Hlen) as (ys2 & -> & Hne).
  rewrite <- app_assoc in Heq. apply app_inv_head in Heq. subst rest1.
  specialize (Hleft pre1 ys2 eq_refl Hne). rewrite app_nil_r in Hleft.
  exact Hleft.
Qed.

(** The leftmost match starts no later than any position that has a
    reading. *)
Lemma leftmost_before r s m ys rest pre tail st' cs' :
  s = ys ++ rest -> s = pre ++ tail ->
  (forall pre1 rest1,
     s = pre1 ++ rest1 -> (List.length pre1 < List.length ys)%nat ->
     match_at r (rev pre1, rest1) = None) ->
  match_at r (rev ys, rest) = Some m ->
  matches r (rev pre, tail) [] st' cs' ->
  exists z, pre = ys ++ z /\ rest = z ++ tail.
Proof.
  intros Hs1 Hs2 Hleft _ Hm.
  apply app_split_le; [congruence|].
  destruct (Nat.le_gt_cases (List.length ys) (List.length pre)) as [Hle|Hgt];
    [exact Hle|].
  exfalso. exact (match_at_none _ _ (Hleft pre tail Hs2 Hgt) _ _ Hm).
Qed.

(** Two ways to cut one text at the first character that fails [p]. *)
Lemma first_stop_unique (p : ascii -> bool) :
  forall (u v : text) (c d : ascii) (r1 r2 : text),
    u ++ c :: r1 = v ++ d :: r2 ->
    forallb p u = true -> forallb p v = true ->
    p c = false -> p d = false ->
    u = v /\ c = d /\ r1 = r2.
Proof.
  induction u as [|x u IH]; intros v c d r1 r2 Heq Hu Hv Hc Hd.
  - destruct v as [|y v]; simpl in Heq.
    + injection Heq as -> ->. auto.
    + injection Heq as -> _. simpl in Hv. rewrite Hc in Hv. discriminate.
  - destruct v as [|y v]; simpl in Heq.
    + injection Heq as -> _. simpl in Hu. rewrite Hd in Hu. discriminate.
    + injection Heq as -> Heq. simpl in Hu, Hv.
      apply andb_true_iff in Hu, Hv.
      destruct (IH v c d r1 r2 Heq) as (-> & -> & ->); tauto.
Qed.

End re_facts.

(** ** What the patterns of the module read *)

Module pattern_facts.
Import re re_spec re_facts.

Lemma lang_lit c xs : lang (lit c) xs <-> xs = [c].
Proof.
  simpl. split.
  - intros (c' & -> & Hc). apply Ascii.eqb_eq in Hc. subst. reflexivity.
  - intros ->. exists c. split; [reflexivity|apply Ascii.eqb_refl].
Qed.

Lemma lang_lit_i c xs :
  lang (lit_i c) xs <-> exists x, xs = [x] /\ lower_char x = lower_char c.
Proof.
  unfold lit_i. cbn [lang]. split.
  - intros (x & -> & H). apply Ascii.eqb_eq in H. eauto.
  - intros (x & -> & H). exists x. split; [reflexivity|].
    apply Ascii.eqb_eq. exact H.
Qed.

Lemma lang_word : forall s xs, lang (word s) xs <-> xs = s.
Proof.
  induction s as [|c s IH]; intros xs.
  - simpl. tauto.
  - destruct s as [|c2 s].
    + apply lang_lit.
    + change (word (c :: c2 :: s)) with (Seq (lit c) (word (c2 :: s))).
      cbn [lang]. split.
      * intros (x1 & x2 & -> & H1 & H2).
        apply lang_lit in H1. apply IH in H2. subst. reflexivity.
      * intros ->. exists [c], (c2 :: s). split; [reflexivity|].
        split; [apply lang_lit|apply IH]; reflexivity.
Qed.

Lemma plain_word : forall s, plain (word s) = true.
Proof.
  induction s as [|c s IH]; [reflexivity|].
  destruct s; [reflexivity|]. simpl in *. exact IH.
Qed.

Lemma lang_digits_2_3 ds : lang digits_2_3 ds <-> is_digits 2 3 ds.
Proof.
  unfold is_digits, digits_2_3, opt, digit. cbn [lang]. split.
  - intros (x1 & x2 & -> & (c1 & -> & H1) & x3 & x4 & -> & (c2 & -> & H2) & H3).
    destruct H3 as [(c3 & -> & H3)| ->]; simpl; rewrite ?H1, ?H2, ?H3;
      split; try reflexivity; lia.
  - intros [Hall Hlen].
    destruct ds as [|a [|b [|c [|d ds]]]]; simpl in Hlen; try lia;
      simpl in Hall; repeat rewrite andb_true_iff in Hall;
      destruct Hall as (Ha & Hb & Hc).
    + exists [a], [b]. split; [reflexivity|]. split; [eauto|].
      exists [b], []. split; [reflexivity|]. split; [eauto|]. right. reflexivity.
    + exists [a], [b; c]. split; [reflexivity|]. split; [eauto|].
      exists [b], [c]. split; [reflexivity|]. split; [eauto|].
      left. exists c. split; [reflexivity|tauto].
Qed.

Lemma lang_digits_1_2 ds : lang digits_1_2 ds <-> is_digits 1 2 ds.
Proof.
  unfold is_digits, digits_1_2, opt, digit. cbn [lang]. split.
  - intros (x1 & x2 & -> & (c1 & -> & H1) & H3).
    destruct H3 as [(c3 & -> & H3)| ->]; simpl; rewrite ?H1, ?H3;
      split; try reflexivity; lia.
  - intros [Hall Hlen].
    destruct ds as [|a [|b [|c ds]]]; simpl in Hlen; try lia;
      simpl in Hall; repeat rewrite andb_true_iff in Hall;
      destruct Hall as (Ha & Hb).
    + exists [a], []. split; [reflexivity|]. split; [eauto|]. right. reflexivity.
    + exists [a], [b]. split; [reflexivity|]. split; [eauto|].
      left. exists b. split; [reflexivity|tauto].
Qed.

Lemma digits_2_3_first ds :
  lang digits_2_3 ds -> exists c ds', ds = c :: ds' /\ is_digit c = true.
Proof.
  intros H. apply lang_digits_2_3 in H. destruct H as [Hall Hlen].
  destruct ds as [|c ds]; [simpl in Hlen; lia|].
  simpl in Hall. apply andb_true_iff in Hall. exists c, ds. tauto.
Qed.

Lemma digits_1_2_first ds :
  lang digits_1_2 ds -> exists c ds', ds = c :: ds' /\ is_digit c = true.
Proof.
  intros H. apply lang_digits_1_2 in H. destruct H as [Hall Hlen].
  destruct ds as [|c ds]; [simpl in Hlen; lia|].
  simpl in Hall. apply andb_true_iff in Hall. exists c, ds. tauto.
Qed.

Lemma greedy_digits_lang_2_3 ds post :
  greedy_digits 2 3 ds post -> lang digits_2_3 ds.
Proof.
  intros [Hall Hlen]. apply lang_digits_2_3. split; [exact Hall|lia].
Qed.

Lemma greedy_digits_lang_1_2 ds post :
  greedy_digits 1 2 ds post -> lang digits_1_2 ds.
Proof.
  intros [Hall Hlen]. apply lang_digits_1_2. split; [exact Hall|lia].
Qed.

Lemma words_no_digit (ws : list text) x :
  forallb (forallb non_digit) ws = true -> In x ws ->
  forallb non_digit x = true.
Proof.
  intros H Hin. rewrite forallb_forall in H. exact (H x Hin).
Qed.

Lemma lang_sugar_labels x : lang sugar_labels x <-> In x sugar_words.
Proof.
  unfold sugar_labels, sugar_words, w, opt. cbn [alts lang In].
  rewrite !lang_word. split.
  - intros [H|[H|[H|[H|[H|H]]]]]; subst; auto 10.
    destruct H as (x1 & x2 & -> & H1 & H2). apply lang_word in H1. subst x1.
    destruct H2 as [H2| ->].
    + apply lang_lit in H2. subst x2. auto 10.
    + auto 10.
  - intros [H|[H|[H|[H|[H|[H|[H|[]]]]]]]]; subst; auto 10.
    + do 5 right. exists (chars "level"), [].
      split; [reflexivity|]. split; [apply lang_word; reflexivity|].
      right. reflexivity.
    + do 5 right. exists (chars "level"), (chars "s").
      split; [reflexivity|]. split; [apply lang_word; reflexivity|].
      left. exists "s"%char. split; [reflexivity|apply Ascii.eqb_refl].
Qed.

Lemma lang_hr_labels x : lang hr_labels x <-> In x hr_words.
Proof.
  unfold hr_labels, hr_words, w. cbn [alts lang In].
  rewrite !lang_word. intuition (subst; auto).
Qed.

Lemma lang_age_labels x : lang age_labels x <-> In x age_words.
Proof.
  unfold age_labels, age_words, w. cbn [lang In].
  rewrite !lang_word. intuition (subst; auto).
Qed.

Lemma lang_bp_labels_nil : lang bp_labels [].
Proof. unfold bp_labels, opt. cbn [lang]. right. reflexivity. Qed.

Lemma lang_bg_letters_i g : lang bg_letters_i g -> In (lower g) group_letters.
Proof.
  unfold bg_letters_i, group_letters. cbn [alts lang].
  rewrite !lang_lit_i.
  intros [(x & -> & Hx)|[(x & -> & Hx)|[H|(x & -> & Hx)]]].
  - left. cbn. rewrite Hx. reflexivity.
  - right. left. cbn. rewrite Hx. reflexivity.
  - destruct H as (x1 & x2 & -> & H1 & H2).
    apply lang_lit_i in H1, H2.
    destruct H1 as (x & -> & Hx). destruct H2 as (y & -> & Hy).
    right. right. left. cbn. rewrite Hx, Hy. reflexivity.
  - right. right. right. left. cbn. rewrite Hx. reflexivity.
Qed.

Lemma lang_bg_letters g : lang bg_letters g -> In g group_letters.
Proof.
  unfold bg_letters, group_letters, w. cbn [alts lang].
  rewrite !lang_lit, lang_word. cbn.
  intros [->|[->|[->| ->]]]; auto.
Qed.

Lemma lang_opt_space sp :
  lang (opt (Chr is_space)) sp ->
  sp = [] \/ exists c, sp = [c] /\ is_space c = true.
Proof. unfold opt. cbn [lang]. tauto. Qed.

Lemma lang_sign sg :
  lang (Chr is_sign) sg -> sg = chars "+" \/ sg = chars "-".
Proof.
  cbn [lang]. intros (c & -> & H). unfold is_sign in H.
  apply orb_true_iff in H. destruct H as [H|H]; apply Ascii.eqb_eq in H;
    subst c; auto.
Qed.

Lemma lang_plus_space sp :
  lang (plus is_space) sp -> sp <> [] /\ forallb is_space sp = true.
Proof.
  unfold plus. cbn [lang]. intros (x1 & x2 & -> & (c & -> & Hc) & Hall).
  split; [discriminate|]. simpl. rewrite Hc, Hall. reflexivity.
Qed.

Lemma lang_bg_words pn :
  lang bg_words pn -> pn = chars "positive" \/ pn = chars "negative".
Proof. unfold bg_words, w. cbn [lang]. rewrite !lang_word. auto. Qed.

(** The labelled shape reads a label, then characters that are not
    digits, then the digits it records as group 1. *)
Lemma matches_labelled L D :
  plain L = true -> plain D = true ->
  forall st st' cs',
    matches (labelled L D) st [] st' cs' <->
    exists lab mid ds,
      lang L lab /\ forallb non_digit mid = true /\ lang D ds /\
      reads st st' (lab ++ mid ++ ds) /\ cs' = [(1%nat, ds)].
Proof.
  intros HL HD st st' cs'. unfold labelled. cbn [seqs matches]. split.
  - intros (st1 & cs1 & H1 & st2 & cs2 & (mid & Hmid & Hs & Hf & ->) & H3).
    apply (matches_plain L HL) in H1. destruct H1 as (lab & Hlab & R1 & ->).
    assert (H3' : matches (Group 1 D) st2 [] st' cs') by exact H3.
    apply (matches_group 1 D HD) in H3'. destruct H3' as (ds & Hds & R3 & ->).
    exists lab, mid, ds. repeat split; auto.
    + apply reads_app. exists st1. split; [exact R1|].
      apply reads_app. exists st2. split; [split; assumption|exact R3].
    + apply reads_app. exists st1. split; [exact R1|].
      apply reads_app. exists st2. split; [split; assumption|exact R3].
  - intros (lab & mid & ds & Hlab & Hmid & Hds & R & ->).
    apply reads_app in R. destruct R as (st1 & R1 & R).
    apply reads_app in R. destruct R as (st2 & [Hs Hf] & R3).
    exists st1, []. split; [apply (matches_plain L HL); eauto|].
    exists st2, []. split; [exists mid; auto|].
    change (matches (Group 1 D) st2 [] st' [(1%nat, ds)]).
    apply (matches_group 1 D HD). eauto.
Qed.

(** The blood-pressure pattern: an optional label, characters that are
    not digits, the first number, a slash between optional blanks and
    the second number. *)
Lemma matches_bp st st' cs' :
  matches bp_pattern st [] st' cs' <->
  exists lab mid d1 s1 s2 d2,
    lang bp_labels lab /\ forallb non_digit mid = true /\
    is_digits 2 3 d1 /\ forallb is_space s1 = true /\
    forallb is_space s2 = true /\ is_digits 2 3 d2 /\
    reads st st' (lab ++ mid ++ d1 ++ s1 ++ "/"%char :: s2 ++ d2) /\
    cs' = [(2%nat, d2); (1%nat, d1)].
Proof.
  unfold bp_pattern. cbn [seqs]. rewrite !matches_seq. split.
  - intros (st1 & cs1 & H1 & H). apply matches_seq in H.
    destruct H as (st2 & cs2 & H2 & H). apply matches_seq in H.
    destruct H as (st3 & cs3 & H3 & H). apply matches_seq in H.
    destruct H as (st4 & cs4 & H4 & H). apply matches_seq in H.
    destruct H as (st5 & cs5 & H5 & H). apply matches_seq in H.
    destruct H as (st6 & cs6 & H6 & H7).
    apply (matches_plain bp_labels eq_refl) in H1.
    destruct H1 as (lab & Hlab & R1 & ->).
    apply matches_star in H2. destruct H2 as (mid & Hmid & R2 & ->).
    apply (matches_group 1 digits_2_3 eq_refl) in H3.
    destruct H3 as (d1 & Hd1 & R3 & ->).
    apply matches_star in H4. destruct H4 as (s1 & Hs1 & R4 & ->).
    apply (matches_plain (lit "/") eq_refl) in H5.
    destruct H5 as (sl & Hsl & R5 & ->). apply lang_lit in Hsl. subst sl.
    apply matches_star in H6. destruct H6 as (s2 & Hs2 & R6 & ->).
    apply (matches_group 2 digits_2_3 eq_refl) in H7.
    destruct H7 as (d2 & Hd2 & R7 & ->).
    apply lang_digits_2_3 in Hd1, Hd2.
    exists lab, mid, d1, s1, s2, d2. do 6 (split; [assumption|]).
    split; [|reflexivity].
    apply reads_app. exists st1. split; [exact R1|].
    apply reads_app. exists st2. split; [exact R2|].
    apply reads_app. exists st3. split; [exact R3|].
    apply reads_app. exists st4. split; [exact R4|].
    change ("/"%char :: s2 ++ d2) with (["/"%char] ++ s2 ++ d2).
    apply reads_app. exists st5. split; [exact R5|].
    apply reads_app. exists st6. split; [exact R6|exact R7].
  - intros (lab & mid & d1 & s1 & s2 & d2 & Hlab & Hmid & Hd1 & Hs1 & Hs2 &
            Hd2 & R & ->).
    apply lang_digits_2_3 in Hd1, Hd2.
    apply reads_app in R. destruct R as (st1 & R1 & R).
    apply reads_app in R. destruct R as (st2 & R2 & R).
    apply reads_app in R. destruct R as (st3 & R3 & R).
    apply reads_app in R. destruct R as (st4 & R4 & R).
    change ("/"%char :: s2 ++ d2) with (["/"%char] ++ s2 ++ d2) in R.
    apply reads_app in R. destruct R as (st5 & R5 & R).
    apply reads_app in R. destruct R as (st6 & R6 & R7).
    exists st1, []. split; [apply (matches_plain bp_labels eq_refl); eauto|].
    apply matches_seq. exists st2, [].
    split; [apply matches_star; eauto|].
    apply matches_seq. exists st3, [(1%nat, d1)].
    split; [apply (matches_group 1 digits_2_3 eq_refl); eauto|].
    apply matches_seq. exists st4, [(1%nat, d1)].
    split; [apply matches_star; eauto|].
    apply matches_seq. exists st5, [(1%nat, d1)].
    split; [apply (matches_plain (lit "/") eq_refl); exists ["/"%char];
            split; [apply lang_lit; reflexivity|auto]|].
    apply matches_seq. exists st6, [(1%nat, d1)].
    split; [apply matches_star; eauto|].
    apply (matches_group 2 digits_2_3 eq_refl). eauto.
Qed.

(** The measured shape reads the digits it records as group 1, optional
    blanks and the unit. *)
Lemma matches_measured U :
  plain U = true ->
  forall st st' cs',
    matches (measured U) st [] st' cs' <->
    exists ds sp u,
      is_digits 2 3 ds /\ forallb is_space sp = true /\ lang U u /\
      reads st st' (ds ++ sp ++ u) /\ cs' = [(1%nat, ds)].
Proof.
  intros HU st st' cs'. unfold measured. cbn [seqs]. rewrite matches_seq. split.
  - intros (st1 & cs1 & H1 & H). apply matches_seq in H.
    destruct H as (st2 & cs2 & H2 & H3).
    apply (matches_group 1 digits_2_3 eq_refl) in H1.
    destruct H1 as (ds & Hds & R1 & ->).
    apply matches_star in H2. destruct H2 as (sp & Hsp & R2 & ->).
    apply (matches_plain U HU) in H3. destruct H3 as (u & Hu & R3 & ->).
    apply lang_digits_2_3 in Hds.
    exists ds, sp, u. do 3 (split; [assumption|]). split; [|reflexivity].
    apply reads_app. exists st1. split; [exact R1|].
    apply reads_app. exists st2. split; [exact R2|exact R3].
  - intros (ds & sp & u & Hds & Hsp & Hu & R & ->).
    apply lang_digits_2_3 in Hds.
    apply reads_app in R. destruct R as (st1 & R1 & R).
    apply reads_app in R. destruct R as (st2 & R2 & R3).
    exists st1, [(1%nat, ds)].
    split; [apply (matches_group 1 digits_2_3 eq_refl); eauto|].
    apply matches_seq. exists st2, [(1%nat, ds)].
    split; [apply matches_star; eauto|].
    apply (matches_plain U HU). eauto.
Qed.

(** The adjacent-sign blood-group pattern: at a word boundary, the
    letters it records as group 1, at most one blank and a sign. *)
Lemma matches_bg st st' cs' :
  matches bg_pattern st [] st' cs' <->
  at_boundary st = true /\
  exists g sp sg,
    lang bg_letters_i g /\ lang (opt (Chr is_space)) sp /\
    lang (Chr is_sign) sg /\ reads st st' (g ++ sp ++ sg) /\
    cs' = [(1%nat, g)].
Proof.
  unfold bg_pattern. cbn [seqs]. rewrite matches_seq. split.
  - intros (st0 & cs0 & H0 & H). apply matches_seq in H.
    destruct H as (st1 & cs1 & H1 & H). apply matches_seq in H.
    destruct H as (st2 & cs2 & H2 & H3).
    apply matches_word_b in H0. destruct H0 as (Hb & -> & ->).
    apply (matches_group 1 bg_letters_i eq_refl) in H1.
    destruct H1 as (g & Hg & R1 & ->).
    apply (matches_plain (opt (Chr is_space)) eq_refl) in H2.
    destruct H2 as (sp & Hsp & R2 & ->).
    apply (matches_plain (Chr is_sign) eq_refl) in H3.
    destruct H3 as (sg & Hsg & R3 & ->).
    split; [exact Hb|].
    exists g, sp, sg. do 3 (split; [assumption|]). split; [|reflexivity].
    apply reads_app. exists st1. split; [exact R1|].
    apply reads_app. exists st2. split; [exact R2|exact R3].
  - intros (Hb & g & sp & sg & Hg & Hsp & Hsg & R & ->).
    apply reads_app in R. destruct R as (st1 & R1 & R).
    apply reads_app in R. destruct R as (st2 & R2 & R3).
    exists st, []. split; [apply matches_word_b; auto|].
    apply matches_seq. exists st1, [(1%nat, g)].
    split; [apply (matches_group 1 bg_letters_i eq_refl); eauto|].
    apply matches_seq. exists st2, [(1%nat, g)].
    split; [apply (matches_plain (opt (Chr is_space)) eq_refl); eauto|].
    apply (matches_plain (Chr is_sign) eq_refl). eauto.
Qed.

(** The word form: at a word boundary, the letters (group 1), at least
    one blank and one of the two words (group 2). *)
Lemma matches_bg_word st st' cs' :
  matches bg_word_pattern st [] st' cs' <->
  at_boundary st = true /\
  exists g sp pn,
    lang bg_letters g /\ lang (plus is_space) sp /\ lang bg_words pn /\
    reads st st' (g ++ sp ++ pn) /\ cs' = [(2%nat, pn); (1%nat, g)].
Proof.
  unfold bg_word_pattern. cbn [seqs]. rewrite matches_seq. split.
  - intros (st0 & cs0 & H0 & H). apply matches_seq in H.
    destruct H as (st1 & cs1 & H1 & H). apply matches_seq in H.
    destruct H as (st2 & cs2 & H2 & H3).
    apply matches_word_b in H0. destruct H0 as (Hb & -> & ->).
    apply (matches_group 1 bg_letters eq_refl) in H1.
    destruct H1 as (g & Hg & R1 & ->).
    apply (matches_plain (plus is_space) eq_refl) in H2.
    destruct H2 as (sp & Hsp & R2 & ->).
    apply (matches_group 2 bg_words eq_refl) in H3.
    destruct H3 as (pn & Hpn & R3 & ->).
    split; [exact Hb|].
    exists g, sp, pn. do 3 (split; [assumption|]). split; [|reflexivity].
    apply reads_app. exists st1. split; [exact R1|].
    apply reads_app. exists st2. split; [exact R2|exact R3].
  - intros (Hb & g & sp & pn & Hg & Hsp & Hpn & R & ->).
    apply reads_app in R. destruct R as (st1 & R1 & R).
    apply reads_app in R. destruct R as (st2 & R2 & R3).
    exists st, []. split; [apply matches_word_b; auto|].
    apply matches_seq. exists st1, [(1%nat, g)].
    split; [apply (matches_group 1 bg_letters eq_refl); eauto|].
    apply matches_seq. exists st2, [(1%nat, g)].
    split; [apply (matches_plain (plus is_space) eq_refl); eauto|].
    apply (matches_group 2 bg_words eq_refl). eauto.
Qed.

(** *** Decimal values *)
Lemma digit_val_range c : is_digit c = true -> 0 <= digit_val c <= 9.
Proof.
  unfold is_digit, in_range, digit_val. intros H.
  apply andb_true_iff in H. destruct H as [H1 H2].
  apply N.leb_le in H1, H2. change (code "0") with 48%N in H1.
  change (code "9") with 57%N in H2. lia.
Qed.

Lemma digits_value_bound ds :
  forallb is_digit ds = true -> (List.length ds <= 3)%nat ->
  0 <= digits_value ds /\
  ((List.length ds <= 2)%nat -> digits_value ds < 100) /\
  digits_value ds < 1000.
Proof.
  intros Hall Hlen.
  destruct ds as [|a [|b [|c [|d ds]]]]; simpl in Hlen; try lia;
    unfold digits_value; cbn [fold_left]; cbn [forallb] in Hall;
    repeat rewrite andb_true_iff in Hall;
    repeat match goal with
           | H : _ /\ _ |- _ => destruct H
           | H : is_digit _ = true |- _ => apply digit_val_range in H
           end; cbn [List.length]; lia.
Qed.

Lemma int_digits lo hi ds :
  is_digits lo hi ds -> (1 <= lo)%nat -> int ds = Ok (digits_value ds).
Proof.
  intros [Hall Hlen] Hlo. unfold int.
  destruct ds as [|c ds]; [simpl in Hlen; lia|]. rewrite Hall. reflexivity.
Qed.

(** *** The first match of each pattern *)
Lemma search_reads (s : text) m pre post xs :
  s = pre ++ group0 m ++ post ->
  reads (rev pre, group0 m ++ post) (rev (group0 m) ++ rev pre, post) xs ->
  group0 m = xs.
Proof.
  intros _ [Hs _]. simpl in Hs. apply app_inv_tail in Hs. exact Hs.
Qed.

Lemma search_labelled L D s m :
  plain L = true -> plain D = true ->
  search (labelled L D) s = Some m ->
  exists pre lab mid ds post,
    s = pre ++ lab ++ mid ++ ds ++ post /\
    lang L lab /\ forallb non_digit mid = true /\ lang D ds /\
    groups m = [(1%nat, ds)] /\ group0 m = lab ++ mid ++ ds.
Proof.
  intros HL HD H. apply search_some in H.
  destruct H as (pre & post & Hs & Hm & _).
  apply (matches_labelled L D HL HD) in Hm.
  destruct Hm as (lab & mid & ds & Hlab & Hmid & Hds & R & Hg).
  pose proof (search_reads s m pre post _ Hs R) as Hg0.
  exists pre, lab, mid, ds, post. rewrite Hs, Hg0, <- !app_assoc. auto 10.
Qed.

Lemma search_bp s m :
  search bp_pattern s = Some m ->
  exists pre lab mid d1 s1 s2 d2 post,
    s = pre ++ lab ++ mid ++ d1 ++ s1 ++ "/"%char :: s2 ++ d2 ++ post /\
    lang bp_labels lab /\ forallb non_digit mid = true /\
    is_digits 2 3 d1 /\ forallb is_space s1 = true /\
    forallb is_space s2 = true /\ is_digits 2 3 d2 /\
    groups m = [(2%nat, d2); (1%nat, d1)].
Proof.
  intros H. apply search_some in H.
  destruct H as (pre & post & Hs & Hm & _).
  apply matches_bp in Hm.
  destruct Hm as (lab & mid & d1 & s1 & s2 & d2 & Hlab & Hmid & Hd1 & Hs1 &
                  Hs2 & Hd2 & R & Hg).
  pose proof (search_reads s m pre post _ Hs R) as Hg0.
  exists pre, lab, mid, d1, s1, s2, d2, post.
  rewrite Hs, Hg0, <- !app_assoc. simpl. rewrite <- !app_assoc. auto 10.
Qed.

Lemma search_measured U s m :
  plain U = true ->
  search (measured U) s = Some m ->
  exists pre ds sp u post,
    s = pre ++ ds ++ sp ++ u ++ post /\
    is_digits 2 3 ds /\ forallb is_space sp = true /\ lang U u /\
    groups m = [(1%nat, ds)].
Proof.
  intros HU H. apply search_some in H.
  destruct H as (pre & post & Hs & Hm & _).
  apply (matches_measured U HU) in Hm.
  destruct Hm as (ds & sp & u & Hds & Hsp & Hu & R & Hg).
  pose proof (search_reads s m pre post _ Hs R) as Hg0.
  exists pre, ds, sp, u, post. rewrite Hs, Hg0, <- !app_assoc. auto 10.
Qed.

Lemma search_bg s m :
  search bg_pattern s = Some m ->
  exists pre g sp sg post,
    s = pre ++ g ++ sp ++ sg ++ post /\
    at_boundary (rev pre, g ++ sp ++ sg ++ post) = true /\
    lang bg_letters_i g /\ lang (opt (Chr is_space)) sp /\
    lang (Chr is_sign) sg /\ group0 m = g ++ sp ++ sg.
Proof.
  intros H. apply search_some in H.
  destruct H as (pre & post & Hs & Hm & _).
  apply matches_bg in Hm.
  destruct Hm as (Hb & g & sp & sg & Hg & Hsp & Hsg & R & Hc).
  pose proof (search_reads s m pre post _ Hs R) as Hg0.
  exists pre, g, sp, sg, post. rewrite Hg0, <- !app_assoc in Hb.
  rewrite Hs, Hg0, <- !app_assoc. auto 10.
Qed.

Lemma search_bg_word s m :
  search bg_word_pattern s = Some m ->
  exists pre g sp pn post,
    s = pre ++ g ++ sp ++ pn ++ post /\
    lang bg_letters g /\ lang (plus is_space) sp /\ lang bg_words pn /\
    groups m = [(2%nat, pn); (1%nat, g)].
Proof.
  intros H. apply search_some in H.
  destruct H as (pre & post & Hs & Hm & _).
  apply matches_bg_word in Hm.
  destruct Hm as (Hb & g & sp & pn & Hg & Hsp & Hpn & R & Hc).
  pose proof (search_reads s m pre post _ Hs R) as Hg0.
  exists pre, g, sp, pn, post. rewrite Hs, Hg0, <- !app_assoc. auto 10.
Qed.

End pattern_facts.

(** ** Cleaning, character by character *)

Module clean_facts.

Lemma clean_map raw : clean raw = map clean_char raw.
Proof.
  unfold clean, replace_char, lower. rewrite !map_map.
  apply map_ext. intros c. each_char c; reflexivity.
Qed.

Lemma clean_char_slash c : not_slash (clean_char c) = not_slash c.
Proof. each_char c; reflexivity. Qed.

Lemma forallb_map_char (p : ascii -> bool) (g : ascii -> ascii) (s : text) :
  (forall c, p (g c) = p c) -> forallb p (map g s) = forallb p s.
Proof.
  intros H. induction s as [|c s IH]; [reflexivity|].
  simpl. rewrite H, IH. reflexivity.
Qed.

Lemma clean_not_slash raw :
  forallb not_slash raw = true -> forallb not_slash (clean raw) = true.
Proof.
  rewrite clean_map, (forallb_map_char _ _ _ clean_char_slash). auto.
Qed.

Lemma forallb_not_slash_no_slash a b :
  forallb not_slash (a ++ "/"%char :: b) = false.
Proof.
  rewrite forallb_app. simpl. apply andb_false_r.
Qed.

End clean_facts.

(** ** [parse_medical_text] never raises *)

Module parse_facts.
Import re re_spec re_facts pattern_facts.

Lemma is_digits_weaken lo hi ds :
  is_digits lo hi ds -> (1 <= lo)%nat -> (hi <= 3)%nat -> is_digits 1 3 ds.
Proof. unfold is_digits. intros [Hall Hlen] Hlo Hhi. split; [exact Hall|lia]. Qed.

(** Group 1 of a match of the numeric patterns holds one to three digits. *)
Lemma labelled_group1 L D s m :
  plain L = true -> plain D = true ->
  (forall ds, lang D ds -> is_digits 1 3 ds) ->
  search (labelled L D) s = Some m ->
  exists ds, group m 1 = Some ds /\ lang D ds.
Proof.
  intros HL HD HDd H. apply (search_labelled L D s m HL HD) in H.
  destruct H as (pre & lab & mid & ds & post & _ & _ & _ & Hds & Hg & _).
  exists ds. unfold group. rewrite Hg. auto.
Qed.

Lemma measured_group1 U s m :
  plain U = true ->
  search (measured U) s = Some m ->
  exists ds, group m 1 = Some ds /\ is_digits 2 3 ds.
Proof.
  intros HU H. apply (search_measured U s m HU) in H.
  destruct H as (pre & ds & sp & u & post & _ & Hds & _ & _ & Hg).
  exists ds. unfold group. rewrite Hg. auto.
Qed.

Lemma bp_groups s m :
  search bp_pattern s = Some m ->
  exists d1 d2,
    group m 1 = Some d1 /\ group m 2 = Some d2 /\
    is_digits 2 3 d1 /\ is_digits 2 3 d2.
Proof.
  intros H. apply search_bp in H.
  destruct H as (pre & lab & mid & d1 & s1 & s2 & d2 & post & _ & _ & _ &
                 Hd1 & _ & _ & Hd2 & Hg).
  exists d1, d2. unfold group. rewrite Hg. auto.
Qed.

Lemma extract_field_found pat set s data :
  (forall m, search pat s = Some m ->
             exists ds, group m 1 = Some ds /\ is_digits 1 3 ds) ->
  extract_field pat set s data =
  Ok (match found pat 1 s with
      | Some v => set v data
      | None => data
      end).
Proof.
  intros H. unfold extract_field, found.
  destruct (search pat s) as [m|]; [|reflexivity].
  destruct (H m eq_refl) as (ds & Hg & Hd).
  unfold int_group. rewrite Hg, (int_digits 1 3 ds Hd (le_n 1)). reflexivity.
Qed.

Lemma sugar_group1 s m :
  search sugar_pattern s = Some m ->
  exists ds, group m 1 = Some ds /\ is_digits 1 3 ds.
Proof.
  intros H.
  destruct (labelled_group1 sugar_labels digits_2_3 s m eq_refl eq_refl)
    as (ds & Hg & Hd); auto.
  - intros ds Hd. apply lang_digits_2_3 in Hd.
    apply (is_digits_weaken 2 3); auto.
  - exists ds. split; [exact Hg|]. apply lang_digits_2_3 in Hd.
    apply (is_digits_weaken 2 3); auto.
Qed.

Lemma hr_group1 s m :
  search hr_pattern s = Some m ->
  exists ds, group m 1 = Some ds /\ is_digits 1 3 ds.
Proof.
  intros H.
  destruct (labelled_group1 hr_labels digits_2_3 s m eq_refl eq_refl)
    as (ds & Hg & Hd); auto.
  - intros ds Hd. apply lang_digits_2_3 in Hd.
    apply (is_digits_weaken 2 3); auto.
  - exists ds. split; [exact Hg|]. apply lang_digits_2_3 in Hd.
    apply (is_digits_weaken 2 3); auto.
Qed.

Lemma age_group1 s m :
  search age_pattern s = Some m ->
  exists ds, group m 1 = Some ds /\ is_digits 1 2 ds.
Proof.
  intros H.
  destruct (labelled_group1 age_labels digits_1_2 s m eq_refl eq_refl)
    as (ds & Hg & Hd); auto.
  - intros ds Hd. apply lang_digits_1_2 in Hd.
    apply (is_digits_weaken 1 2); auto.
  - exists ds. split; [exact Hg|]. apply lang_digits_1_2 in Hd. exact Hd.
Qed.

(** The record [parse_medical_text] returns: it never raises, and each
    field is the first match of its pattern. *)
Lemma parse_medical_text_extracted (text_data : string) :
  parse_medical_text text_data = Ok (extracted (chars text_data)).
Proof.
  unfold parse_medical_text, extracted.
  set (raw := chars text_data). set (s := clean raw).
  assert (Hbp :
    match search bp_pattern s with
    | Some bp_match =>
        s0 <- int_group bp_match 1 ;;
        d <- int_group bp_match 2 ;;
        Ok (set_diastolic d (set_systolic s0 empty_data))
    | None => Ok empty_data
    end =
    Ok {| systolic := found bp_pattern 1 s; diastolic := found bp_pattern 2 s;
          sugar := None; heart_rate := None; age := None; height := None;
          weight := None; blood_group := None |}).
  { unfold found. destruct (search bp_pattern s) as [m|] eqn:Hm; [|reflexivity].
    destruct (bp_groups s m Hm) as (d1 & d2 & Hg1 & Hg2 & Hd1 & Hd2).
    unfold int_group. rewrite Hg1, Hg2.
    rewrite (int_digits 2 3 d1 Hd1), (int_digits 2 3 d2 Hd2) by lia.
    reflexivity. }
  rewrite Hbp. cbn [bind].
  rewrite (extract_field_found sugar_pattern) by apply sugar_group1.
  cbn [bind].
  rewrite (extract_field_found hr_pattern) by apply hr_group1.
  cbn [bind].
  rewrite (extract_field_found age_pattern).
  2:{ intros m Hm. destruct (age_group1 s m Hm) as (ds & Hg & Hd).
      exists ds. split; [exact Hg|]. apply (is_digits_weaken 1 2); auto. }
  cbn [bind].
  rewrite (extract_field_found height_pattern).
  2:{ intros m Hm.
      destruct (measured_group1 height_units s m eq_refl Hm) as (ds & Hg & Hd).
      exists ds. split; [exact Hg|]. apply (is_digits_weaken 2 3); auto. }
  cbn [bind].
  rewrite (extract_field_found weight_pattern).
  2:{ intros m Hm.
      destruct (measured_group1 weight_units s m eq_refl Hm) as (ds & Hg & Hd).
      exists ds. split; [exact Hg|]. apply (is_digits_weaken 2 3); auto. }
  cbn [bind].
  assert (Hbg : forall data : features,
    match search bg_pattern raw with
    | Some bg_match =>
        Ok (set_blood_group (remove_char " " (upper (group0 bg_match))) data)
    | None =>
        match search bg_word_pattern s with
        | Some bg_word_match =>
            g1 <- str_group AttributeError bg_word_match 1 ;;
            g2 <- str_group TypeError bg_word_match 2 ;;
            Ok (set_blood_group
                  (upper g1 ++
                   chars
                     (if contains (chars "positive") g2
                      then "+" else "-"))%list data)
        | None => Ok data
        end
    end =
    Ok {| systolic := systolic data; diastolic := diastolic data;
          sugar := sugar data; heart_rate := heart_rate data;
          age := age data; height := height data; weight := weight data;
          blood_group :=
            match found_blood_group raw with
            | Some g => Some g
            | None => blood_group data
            end |}).
  { intros data. unfold found_blood_group. fold s.
    destruct (search bg_pattern raw) as [m|]; [reflexivity|].
    destruct (search bg_word_pattern s) as [m|] eqn:Hm.
    - apply search_bg_word in Hm.
      destruct Hm as (pre & g & sp & pn & post & _ & _ & _ & _ & Hg).
      unfold str_group, group. rewrite Hg. cbn.
      destruct (contains _ pn); reflexivity.
    - destruct data; reflexivity. }
  rewrite Hbg.
  destruct (found sugar_pattern 1 s), (found hr_pattern 1 s),
    (found age_pattern 1 s), (found height_pattern 1 s),
    (found weight_pattern 1 s), (found_blood_group raw); reflexivity.
Qed.

End parse_facts.

(** ** The strategies of [analyze_risk] *)

Module risk_facts.

Lemma analyze_risk_parse rf recs f :
  parse_medical_text (join_records recs) = Ok f ->
  analyze_risk rf recs =
  (risk_status <- risk_of rf f ;;
   Ok {| risk_level := risk_status; vitals_detected := echo f |}).
Proof. intros H. unfold analyze_risk. rewrite H. reflexivity. Qed.

Lemma risk_of_full rf f sys dia sug a :
  systolic f = Some sys -> diastolic f = Some dia ->
  sugar f = Some sug -> age f = Some a ->
  risk_of rf f = status_map (rf (feature_vector sys dia sug a (heart_rate f))).
Proof.
  intros Hs Hd Hg Ha. unfold risk_of, feature_vector.
  rewrite Hs, Hd, Hg, Ha. reflexivity.
Qed.

Lemma status_map_level l : status_map (rank l) = Ok (level_name l).
Proof. destruct l; reflexivity. Qed.

Lemma check_bp_level sys dia :
  check_bp sys dia 0 = rank (bp_level sys dia).
Proof.
  unfold check_bp, bp_level.
  replace (sys >=? 180) with (180 <=? sys) by (rewrite Z.geb_leb; reflexivity).
  replace (dia >=? 120) with (120 <=? dia) by (rewrite Z.geb_leb; reflexivity).
  replace (sys >=? 140) with (140 <=? sys) by (rewrite Z.geb_leb; reflexivity).
  replace (dia >=? 90) with (90 <=? dia) by (rewrite Z.geb_leb; reflexivity).
  destruct ((180 <=? sys) || (120 <=? dia)); [reflexivity|].
  destruct ((140 <=? sys) || (90 <=? dia)); reflexivity.
Qed.

Lemma check_sugar_level sug l :
  check_sugar sug (rank l) = rank (level_max l (sugar_level sug)).
Proof.
  unfold check_sugar, sugar_level, level_max.
  replace (sug >=? 200) with (200 <=? sug) by (rewrite Z.geb_leb; reflexivity).
  replace (sug >=? 140) with (140 <=? sug) by (rewrite Z.geb_leb; reflexivity).
  destruct (200 <=? sug); [destruct l; reflexivity|].
  destruct (140 <=? sug); destruct l; reflexivity.
Qed.

Lemma level_max_healthy_r l : level_max l Healthy = l.
Proof. destruct l; reflexivity. Qed.

Lemma risk_of_partial rf f :
  partial_path f = true -> risk_of rf f = Ok (level_name (ladder f)).
Proof.
  unfold partial_path, full_path, has_bp, has_sugar, has_age, risk_of, ladder.
  intros H. apply andb_true_iff in H. destruct H as [Hfull Hany].
  apply negb_true_iff in Hfull. rewrite Hfull, Hany.
  destruct (systolic f) as [sys|], (diastolic f) as [dia|],
    (sugar f) as [sug|]; simpl in Hany; try discriminate; cbn;
    rewrite ?check_bp_level;
    try (change 0 with (rank Healthy)); rewrite ?check_sugar_level;
    rewrite ?level_max_healthy_r; apply status_map_level.
Qed.

Lemma risk_of_insufficient rf f :
  has_bp f = false -> has_sugar f = false ->
  risk_of rf f = Ok "Insufficient Data".
Proof.
  unfold has_bp, has_sugar, risk_of. intros Hb Hs. rewrite Hb, Hs. reflexivity.
Qed.

Lemma status_map_not_insufficient i s :
  status_map i = Ok s -> s <> "Insufficient Data".
Proof.
  unfold status_map. intros H.
  destruct (i =? 0); [injection H as <-; discriminate|].
  destruct (i =? 1); [injection H as <-; discriminate|].
  destruct (i =? 2); [injection H as <-; discriminate|discriminate].
Qed.

Lemma full_path_inv f :
  full_path f = true ->
  exists sys dia sug a,
    systolic f = Some sys /\ diastolic f = Some dia /\
    sugar f = Some sug /\ age f = Some a.
Proof.
  unfold full_path, has_bp, has_sugar, has_age. intros H.
  destruct (systolic f) as [sys|], (diastolic f) as [dia|],
    (sugar f) as [sug|], (age f) as [a|]; try discriminate.
  exists sys, dia, sug, a. auto.
Qed.

Lemma risk_of_insufficient_inv rf f :
  risk_of rf f = Ok "Insufficient Data" ->
  has_bp f = false /\ has_sugar f = false.
Proof.
  intros H.
  destruct (full_path f) eqn:Hfull.
  - exfalso. destruct (full_path_inv f Hfull) as (sys & dia & sug & a & Hs & Hd & Hg & Ha).
    rewrite (risk_of_full rf f sys dia sug a Hs Hd Hg Ha) in H.
    exact (status_map_not_insufficient _ _ H eq_refl).
  - destruct (has_bp f || has_sugar f) eqn:Hany.
    + exfalso. rewrite risk_of_partial in H
        by (unfold partial_path; rewrite Hfull, Hany; reflexivity).
      injection H as H. destruct (ladder f); discriminate.
    + apply orb_false_iff in Hany. exact Hany.
Qed.

(** The ["bp"] entry of the echoed vitals, for every extraction: it is
    the combined string when both readings are present and non-zero,
    and absent otherwise. *)
Lemma echo_bp rf recs f a :
  parse_medical_text (join_records recs) = Ok f ->
  analyze_risk rf recs = Ok a ->
  detected.bp (vitals_detected a) =
  match systolic f, diastolic f with
  | Some sys, Some dia =>
      if (sys =? 0) || (dia =? 0) then None
      else Some (string_of_list_ascii
                   (str_of_int sys ++ "/"%char :: str_of_int dia))
  | _, _ => None
  end.
Proof.
  intros Hp Ha. rewrite (analyze_risk_parse rf recs f Hp) in Ha.
  destruct (risk_of rf f) as [st|e]; [|discriminate].
  cbn in Ha. injection Ha as <-. cbn.
  destruct (systolic f) as [sys|], (diastolic f) as [dia|]; cbn;
    rewrite ?andb_false_r; try reflexivity.
  destruct (sys =? 0), (dia =? 0); reflexivity.
Qed.

End risk_facts.

(** ** The first number after a label *)

Module label_facts.
Import re re_spec re_facts pattern_facts.

Section Labelled.
Variables L D : regex.
Hypothesis plain_L : plain L = true.
Hypothesis plain_D : plain D = true.
(** Labels hold no digit. *)
Hypothesis label_no_digit :
  forall x, lang L x -> forallb non_digit x = true.
(** The digits pattern starts with a digit. *)
Hypothesis digits_first :
  forall ds, lang D ds -> exists c ds', ds = c :: ds' /\ is_digit c = true.

Variables ds post : text.
Hypothesis lang_D : lang D ds.
(** At a run that starts with [ds] the matcher records exactly [ds],
    whenever the rest of the pattern cannot fail. *)
Hypothesis run_D :
  forall (k : state -> caps -> option match_obj) pre0,
    (forall st cs, k st cs <> None) ->
    run (Group 1 D) (pre0, ds ++ post) [] k =
    k (rev ds ++ pre0, post) [(1%nat, ds)].

Lemma labelled_first_number pre lab mid :
  lang L lab ->
  forallb non_digit pre = true -> forallb non_digit mid = true ->
  found (labelled L D) 1 (pre ++ lab ++ mid ++ ds ++ post) =
  Some (digits_value ds).
Proof.
  intros Hlab Hpre Hmid.
  destruct (digits_first ds lang_D) as (d1 & ds' & Hds & Hd1).
  set (s := pre ++ lab ++ mid ++ ds ++ post).
  assert (Hex : matches (labelled L D) (rev pre, lab ++ mid ++ ds ++ post) []
                  (rev (lab ++ mid ++ ds) ++ rev pre, post)
                  [(1%nat, ds)]).
  { apply (matches_labelled L D plain_L plain_D).
    exists lab, mid, ds. repeat split; auto.
    cbn [fst snd]. rewrite <- !app_assoc. reflexivity. }
  unfold found.
  destruct (search (labelled L D) s) as [m|] eqn:Hsearch.
  2:{ exfalso. exact (search_finds _ _ _ _ _ Hex Hsearch). }
  apply search_leftmost in Hsearch.
  destruct Hsearch as (ys & rest & Hs & Hat & Hleft).
  destruct (leftmost_before _ s m ys rest pre _ _ _ Hs eq_refl Hleft Hat Hex)
    as (z & Hpre_eq & Hrest).
  assert (Hys : forallb non_digit ys = true).
  { rewrite Hpre_eq, forallb_app in Hpre.
    apply andb_true_iff in Hpre. tauto. }
  (* follow the matcher through the label and the non-digits *)
  unfold match_at, labelled in Hat. cbn [seqs run] in Hat.
  apply run_sound in Hat. destruct Hat as (st1 & cs1 & H1 & Hat).
  apply (matches_plain L plain_L) in H1.
  destruct H1 as (x1 & Hx1 & [R1s R1f] & ->).
  apply star_greedy_sound in Hat.
  destruct Hat as (x2 & suf2 & Hsuf & Hx2 & Hat).
  destruct st1 as [pre1 suf1]. cbn [fst snd] in *.
  (* the digits pattern succeeded, so a digit follows *)
  assert (Hdig : exists c suf3, suf2 = c :: suf3 /\ is_digit c = true).
  { change (run (Group 1 D) (rev x2 ++ pre1, suf2) []
              (fun st' cs => Some {| group0 := consumed (rev ys, rest) st';
                                     groups := cs |}) = Some m) in Hat.
    apply run_sound in Hat. destruct Hat as (st' & cs' & Hm & _).
    apply (matches_group 1 D plain_D) in Hm.
    destruct Hm as (es & Hes & [Rs _] & _). cbn [fst snd] in Rs.
    destruct (digits_first es Hes) as (c & es' & -> & Hc).
    exists c, (es' ++ snd st'). auto. }
  destruct Hdig as (c & suf3 & -> & Hc).
  assert (Hcut : c :: suf3 = ds ++ post).
  { assert (Heq : (ys ++ x1 ++ x2) ++ c :: suf3 =
                  (pre ++ lab ++ mid) ++ d1 :: ds' ++ post).
    { rewrite <- !app_assoc. rewrite <- Hsuf, <- R1s.
      change (d1 :: ds' ++ post) with ((d1 :: ds') ++ post).
      rewrite <- Hds. fold s. symmetry. exact Hs. }
    apply (first_stop_unique non_digit) in Heq.
    - destruct Heq as (_ & -> & ->). rewrite Hds. reflexivity.
    - rewrite !forallb_app, Hys, Hx2, (label_no_digit x1 Hx1). reflexivity.
    - rewrite !forallb_app, Hpre, Hmid, (label_no_digit lab Hlab). reflexivity.
    - unfold non_digit. rewrite Hc. reflexivity.
    - unfold non_digit. rewrite Hd1. reflexivity. }
  rewrite Hcut in Hat.
  change (run (Group 1 D) (rev x2 ++ pre1, ds ++ post) []
            (fun st' cs => Some {| group0 := consumed (rev ys, rest) st';
                                   groups := cs |}) = Some m) in Hat.
  rewrite run_D in Hat by discriminate.
  injection Hat as <-. reflexivity.
Qed.
End Labelled.

(** [\d{2,3}] takes three digits, or two when no digit comes next. *)
Lemma run_digits_2_3 ds post :
  greedy_digits 2 3 ds post ->
  forall (k : state -> caps -> option match_obj) pre0,
    (forall st cs, k st cs <> None) ->
    run (Group 1 digits_2_3) (pre0, ds ++ post) [] k =
    k (rev ds ++ pre0, post) [(1%nat, ds)].
Proof.
  intros [Hall Hlen] k pre0 Hk.
  pose proof (consumed_rev pre0 ds post (ds ++ post)) as Hc.
  destruct ds as [|d1 [|d2 [|d3 [|d4 ds]]]]; cbn [List.length] in Hlen;
    try lia; cbn [forallb] in Hall; repeat rewrite andb_true_iff in Hall;
    cbn [rev app] in Hc |- *.
  - destruct Hall as (H1 & H2 & _). destruct Hlen as [[_ Hpost]|Hlen]; [|lia].
    unfold digits_2_3, opt, digit. cbn [run fst snd]. rewrite H1, H2.
    destruct post as [|c post]; cbn [run fst snd].
    + rewrite Hc. reflexivity.
    + simpl in Hpost. rewrite Hpost, Hc. reflexivity.
  - destruct Hall as (H1 & H2 & H3 & _).
    unfold digits_2_3, opt, digit. cbn [run fst snd]. rewrite H1, H2, H3.
    rewrite Hc. first_answer Hk.
Qed.

(** [\d{1,2}] takes two digits, or one when no digit comes next. *)
Lemma run_digits_1_2 ds post :
  greedy_digits 1 2 ds post ->
  forall (k : state -> caps -> option match_obj) pre0,
    (forall st cs, k st cs <> None) ->
    run (Group 1 digits_1_2) (pre0, ds ++ post) [] k =
    k (rev ds ++ pre0, post) [(1%nat, ds)].
Proof.
  intros [Hall Hlen] k pre0 Hk.
  pose proof (consumed_rev pre0 ds post (ds ++ post)) as Hc.
  destruct ds as [|d1 [|d2 [|d3 ds]]]; cbn [List.length] in Hlen;
    try lia; cbn [forallb] in Hall; repeat rewrite andb_true_iff in Hall;
    cbn [rev app] in Hc |- *.
  - destruct Hall as (H1 & _). destruct Hlen as [[_ Hpost]|Hlen]; [|lia].
    unfold digits_1_2, opt, digit. cbn [run fst snd]. rewrite H1.
    destruct post as [|c post]; cbn [run fst snd].
    + rewrite Hc. reflexivity.
    + simpl in Hpost. rewrite Hpost, Hc. reflexivity.
  - destruct Hall as (H1 & H2 & _).
    unfold digits_1_2, opt, digit. cbn [run fst snd]. rewrite H1, H2.
    rewrite Hc. first_answer Hk.
Qed.

End label_facts.

(** ** Letter groups and signs *)

Module blood_group_facts.
Import re re_spec re_facts pattern_facts.

Lemma starts_with_app p post : starts_with p (p ++ post) = true.
Proof.
  induction p as [|c p IH]; [reflexivity|].
  simpl. rewrite Ascii.eqb_refl. exact IH.
Qed.

Lemma contains_app p pre post : contains p (pre ++ p ++ post) = true.
Proof.
  induction pre as [|c pre IH].
  - simpl. destruct (p ++ post) eqn:E; simpl;
      rewrite <- E, starts_with_app; reflexivity.
  - simpl. rewrite IH. apply orb_true_r.
Qed.

(** * A hyphen after a letter group reads as a negative blood group *)
Lemma is_abo_facts c :
  is_abo c = true ->
  is_word c = true /\ not_sign c = true /\ is_space c = false /\
  Ascii.eqb (upper_char c) " " = false.
Proof. each_char c; cbn; intros H; try discriminate; auto. Qed.

Lemma space_not_sign c : is_space c = true -> not_sign c = true.
Proof. each_char c; cbn; intros H; try discriminate; auto. Qed.

(** The shapes of a letter group in either case. *)
Lemma letters_shape g :
  In (lower g) group_letters <->
  (exists x, g = [x] /\ is_abo x = true) \/
  (exists x y, g = [x; y] /\ lower_char x = "a"%char /\ lower_char y = "b"%char).
Proof.
  unfold group_letters. split.
  - intros H. destruct g as [|x [|y [|z g]]]; cbn in H;
      repeat match goal with
             | H : _ \/ _ |- _ => destruct H
             | H : False |- _ => destruct H
             end; try discriminate;
      match goal with
      | H : [_] = [_] |- _ =>
          injection H as Hx; left; exists x; split; [reflexivity|];
          unfold is_abo; rewrite <- Hx; reflexivity
      | H : [_; _] = [_; _] |- _ =>
          injection H as Hx Hy; right; exists x, y; auto
      end.
  - intros [(x & -> & H)|(x & y & -> & Hx & Hy)].
    + unfold is_abo in H. cbn.
      apply orb_true_iff in H. destruct H as [H|H];
        [apply orb_true_iff in H; destruct H as [H|H]|];
        apply Ascii.eqb_eq in H; rewrite H; auto.
    + cbn. rewrite Hx, Hy. auto.
Qed.

Lemma lang_bg_letters_i_iff g : lang bg_letters_i g <-> In (lower g) group_letters.
Proof.
  split; [apply lang_bg_letters_i|]. intros H. apply letters_shape in H.
  unfold bg_letters_i, is_abo in *. cbn [alts lang].
  destruct H as [(x & -> & H)|(x & y & -> & Hx & Hy)].
  - apply orb_true_iff in H. destruct H as [H|H];
      [apply orb_true_iff in H; destruct H as [H|H]|];
      apply Ascii.eqb_eq in H.
    + left. apply lang_lit_i. exists x. auto.
    + right. left. apply lang_lit_i. exists x. auto.
    + right. right. right. apply lang_lit_i. exists x. auto.
  - right. right. left. exists [x], [y]. split; [reflexivity|].
    split; apply lang_lit_i; eauto.
Qed.

Lemma letters_facts g :
  In (lower g) group_letters ->
  forallb not_sign g = true /\
  remove_char " " (upper g) = upper g /\
  exists x g', g = x :: g' /\ is_word x = true.
Proof.
  intros H. apply letters_shape in H.
  destruct H as [(x & -> & H)|(x & y & -> & Hx & Hy)].
  - destruct (is_abo_facts x H) as (Hw & Hs & _ & Hu).
    cbn. rewrite Hs, Hu. cbn. eauto 6.
  - assert (Ax : is_abo x = true)
      by (unfold is_abo; rewrite Hx; reflexivity).
    assert (Ay : is_abo y = true)
      by (unfold is_abo; rewrite Hy; reflexivity).
    destruct (is_abo_facts x Ax) as (Hw & Hs & _ & Hu).
    destruct (is_abo_facts y Ay) as (_ & Hs' & _ & Hu').
    cbn. rewrite Hs, Hs', Hu, Hu'. cbn. eauto 6.
Qed.

Lemma word_start_boundary pre x rest :
  word_start pre = true -> is_word x = true ->
  at_boundary (rev pre, x :: rest) = true.
Proof.
  unfold word_start, at_boundary. cbn [fst snd]. intros Hp Hx. rewrite Hx.
  destruct (rev pre) as [|c r]; [reflexivity|].
  apply negb_true_iff in Hp. rewrite Hp. reflexivity.
Qed.

(** Where the letters of a reading can end when the text continues with
    a letter group and a hyphen. *)
Lemma letters_align z g g' sp :
  In (lower g) group_letters -> In (lower g') group_letters ->
  (sp = [] \/ exists c, sp = [c] /\ is_space c = true) ->
  z ++ g = g' ++ sp ->
  (z = [] /\ g' = g /\ sp = []) \/
  (exists z0, z = [z0] /\ is_word z0 = true).
Proof.
  intros Hg Hg' Hsp Heq.
  apply letters_shape in Hg, Hg'.
  assert (Hlast : forall x c, is_abo x = true -> is_space c = true -> x <> c).
  { intros x c Hx Hc ->. destruct (is_abo_facts c Hx) as (_ & _ & Hn & _).
    congruence. }
  assert (Hb : forall y, lower_char y = "b"%char -> is_abo y = true)
    by (intros y Hy; unfold is_abo; rewrite Hy; reflexivity).
  assert (Ha : forall y, lower_char y = "a"%char -> is_abo y = true)
    by (intros y Hy; unfold is_abo; rewrite Hy; reflexivity).
  destruct Hsp as [-> | (c & -> & Hc)].
  - rewrite app_nil_r in Heq. subst g'.
    destruct z as [|z0 [|z1 z]].
    + left. auto.
    + right. exists z0. split; [reflexivity|].
      destruct Hg' as [(x & Hx & _)|(x & y & Hxy & Hx & _)].
      * destruct g; [|discriminate].
        destruct Hg as [(? & ? & _)|(? & ? & ? & _)]; discriminate.
      * injection Hxy as -> _. exact (proj1 (is_abo_facts x (Ha x Hx))).
    + exfalso.
      destruct Hg' as [(x & Hx & _)|(x & y & Hxy & _)]; [discriminate|].
      injection Hxy as _ _ Hnil. apply app_eq_nil in Hnil.
      destruct Hnil as [_ ->].
      destruct Hg as [(? & ? & _)|(? & ? & ? & _)]; discriminate.
  - exfalso. apply (f_equal (@rev ascii)) in Heq.
    rewrite !rev_app_distr in Heq. cbn in Heq.
    destruct Hg as [(x & -> & Hx)|(x & y & -> & Hx & Hy)]; cbn in Heq;
      injection Heq as Heq _.
    + exact (Hlast x c Hx Hc Heq).
    + exact (Hlast y c (Hb y Hy) Hc Heq).
Qed.

End blood_group_facts.

(** ** The labelled fields against their reading in words *)

Module reading_facts.
Import re re_spec re_facts pattern_facts label_facts blood_group_facts.
Local Open Scope char_scope.

Lemma starts_with_split w : forall s,
  starts_with w s = true -> s = w ++ skipn (List.length w) s.
Proof.
  induction w as [|a w IH]; intros s H; [reflexivity|].
  destruct s as [|b s]; [discriminate|].
  cbn [starts_with] in H. apply andb_true_iff in H. destruct H as [Hab H].
  apply Ascii.eqb_eq in Hab. subst b.
  cbn [List.length skipn app]. f_equal. apply IH, H.
Qed.

Lemma after_label_some words s rest :
  after_label words s = Some rest -> exists w, In w words /\ s = w ++ rest.
Proof.
  induction words as [|w words IH]; [discriminate|].
  cbn [after_label]. destruct (starts_with w s) eqn:E.
  - intros [= <-]. exists w. split; [left; reflexivity|].
    apply starts_with_split, E.
  - intros H. destruct (IH H) as (w' & Hin & Hs). exists w'.
    split; [right; exact Hin|exact Hs].
Qed.

Lemma after_label_none words s :
  after_label words s = None -> forall w r, In w words -> s <> w ++ r.
Proof.
  induction words as [|w words IH]; intros H w' r Hin; [destruct Hin|].
  cbn [after_label] in H. destruct (starts_with w s) eqn:E; [discriminate|].
  destruct Hin as [<- | Hin].
  - intros ->. rewrite starts_with_app in E. discriminate.
  - exact (IH H w' r Hin).
Qed.

Lemma leading_digits_split s :
  exists post,
    s = leading_digits s ++ post /\
    forallb is_digit (leading_digits s) = true /\ no_digit_next post.
Proof.
  induction s as [|c s IH]; [exists []; cbn; auto|].
  cbn [leading_digits]. destruct (is_digit c) eqn:E.
  - destruct IH as (post & Hs & Hd & Hp). exists post.
    cbn [app forallb]. rewrite E, Hd. split; [f_equal; exact Hs|auto].
  - exists (c :: s). cbn. auto.
Qed.

Lemma leading_digits_app ds post :
  forallb is_digit ds = true ->
  leading_digits (ds ++ post) = ds ++ leading_digits post.
Proof.
  induction ds as [|d ds IH]; intros H; [reflexivity|].
  cbn [forallb] in H. apply andb_true_iff in H. destruct H as [Hd H].
  cbn [app leading_digits]. rewrite Hd, (IH H). reflexivity.
Qed.

Lemma first_digits_skip mid s :
  forallb non_digit mid = true -> first_digits (mid ++ s) = first_digits s.
Proof.
  induction mid as [|c mid IH]; intros H; [reflexivity|].
  cbn [forallb] in H. apply andb_true_iff in H. destruct H as [Hc H].
  unfold non_digit in Hc. apply negb_true_iff in Hc.
  cbn [app first_digits]. rewrite Hc. apply IH, H.
Qed.

Lemma first_digits_leading s :
  match s with c :: _ => is_digit c = true | [] => True end ->
  first_digits s = leading_digits s.
Proof.
  destruct s as [|c s]; [reflexivity|]. intros H.
  cbn [first_digits leading_digits]. rewrite H. reflexivity.
Qed.

Lemma first_digits_split s :
  exists mid post,
    s = mid ++ first_digits s ++ post /\
    forallb non_digit mid = true /\
    forallb is_digit (first_digits s) = true /\ no_digit_next post.
Proof.
  induction s as [|c s IH]; [exists [], []; cbn; auto|].
  cbn [first_digits]. destruct (is_digit c) eqn:E.
  - destruct (leading_digits_split s) as (post & Hs & Hd & Hp).
    exists [], post. cbn [app forallb]. rewrite E, Hd.
    split; [f_equal; exact Hs|auto].
  - destruct IH as (mid & post & Hs & Hm & Hd & Hp).
    exists (c :: mid), post. cbn [app forallb]. unfold non_digit at 1.
    rewrite E, Hm. split; [f_equal; exact Hs|auto].
Qed.

Lemma no_digit_next_app a b :
  forallb is_digit a = true -> no_digit_next b ->
  a = [] -> no_digit_next (a ++ b).
Proof. intros _ Hb ->. exact Hb. Qed.

(** Taking at most [hi] digits of a run of at least [lo]. *)
Lemma greedy_firstn lo hi run post :
  (lo <= hi)%nat ->
  forallb is_digit run = true -> no_digit_next post ->
  (lo <= List.length run)%nat ->
  greedy_digits lo hi (firstn hi run) (skipn hi run ++ post).
Proof.
  intros Hlh Hrun Hpost Hlen. split.
  - rewrite <- (firstn_skipn hi run), forallb_app in Hrun.
    apply andb_true_iff in Hrun. tauto.
  - destruct (Nat.lt_ge_cases (List.length run) hi) as [Hlt|Hge].
    + left. rewrite firstn_all2 by lia. rewrite skipn_all2 by lia.
      split; [lia|exact Hpost].
    + right. rewrite length_firstn. lia.
Qed.

Section Labelled.
Variables L D : regex.
Variable words : list text.
Variables lo hi : nat.
Hypothesis plain_L : plain L = true.
Hypothesis plain_D : plain D = true.
Hypothesis lang_L : forall x, lang L x <-> In x words.
Hypothesis words_no_digits : forallb (forallb non_digit) words = true.
Hypothesis lang_D : forall ds, lang D ds <-> is_digits lo hi ds.
Hypothesis lo_pos : (1 <= lo)%nat.
Hypothesis lo_hi : (lo <= hi)%nat.
Hypothesis run_D :
  forall ds post,
    greedy_digits lo hi ds post ->
    forall (k : state -> caps -> option match_obj) pre0,
      (forall st cs, k st cs <> None) ->
      run (Group 1 D) (pre0, ds ++ post) [] k =
      k (rev ds ++ pre0, post) [(1%nat, ds)].

Lemma greedy_is_digits ds post : greedy_digits lo hi ds post -> is_digits lo hi ds.
Proof. intros [Hall [[Hlen _]|Hlen]]; split; auto; lia. Qed.

Lemma is_digits_first ds :
  is_digits lo hi ds -> exists c ds', ds = c :: ds' /\ is_digit c = true.
Proof.
  intros [Hall Hlen]. destruct ds as [|c ds]; [cbn in Hlen; lia|].
  cbn [forallb] in Hall. apply andb_true_iff in Hall.
  exists c, ds. tauto.
Qed.

(** At a label followed by non-digits and digits the matcher records
    the digits a greedy reading takes. *)
Lemma labelled_at p0 lab mid ds post :
  In lab words -> forallb non_digit mid = true ->
  greedy_digits lo hi ds post ->
  exists m,
    match_at (labelled L D) (p0, lab ++ mid ++ ds ++ post) = Some m /\
    group m 1 = Some ds.
Proof.
  intros Hlab Hmid Hds.
  pose proof (greedy_is_digits ds post Hds) as Hds'.
  destruct (is_digits_first ds Hds') as (d1 & ds' & Hdseq & Hd1).
  assert (Hex : matches (labelled L D) (p0, lab ++ mid ++ ds ++ post) []
                  (rev (lab ++ mid ++ ds) ++ p0, post) [(1%nat, ds)]).
  { apply (matches_labelled L D plain_L plain_D).
    exists lab, mid, ds. split; [apply lang_L; exact Hlab|].
    split; [exact Hmid|]. split; [apply lang_D; exact Hds'|].
    split; [|reflexivity]. split; cbn [fst snd].
    - rewrite <- !app_assoc. reflexivity.
    - reflexivity. }
  destruct (match_at (labelled L D) (p0, lab ++ mid ++ ds ++ post))
    as [m|] eqn:Hat.
  2:{ exfalso. exact (match_at_matches _ _ _ _ Hex Hat). }
  exists m. split; [reflexivity|].
  unfold match_at, labelled in Hat. cbn [seqs run] in Hat.
  apply run_sound in Hat. destruct Hat as (st1 & cs1 & H1 & Hat).
  apply (matches_plain L plain_L) in H1.
  destruct H1 as (x1 & Hx1 & [R1s R1f] & ->).
  apply star_greedy_sound in Hat.
  destruct Hat as (x2 & suf2 & Hsuf & Hx2 & Hat).
  destruct st1 as [pre1 suf1]. cbn [fst snd] in *.
  assert (Hdig : exists c suf3, suf2 = c :: suf3 /\ is_digit c = true).
  { change (run (Group 1 D) (rev x2 ++ pre1, suf2) []
              (fun st' cs =>
                 Some {| group0 :=
                           consumed (p0, lab ++ mid ++ ds ++ post) st';
                         groups := cs |}) = Some m) in Hat.
    apply run_sound in Hat. destruct Hat as (st' & cs' & Hm & _).
    apply (matches_group 1 D plain_D) in Hm.
    destruct Hm as (es & Hes & [Rs _] & _). cbn [fst snd] in Rs.
    apply lang_D in Hes.
    destruct (is_digits_first es Hes) as (c & es' & -> & Hc).
    exists c, (es' ++ snd st'). auto. }
  destruct Hdig as (c & suf3 & -> & Hc).
  assert (Hnd : forall x, In x words -> forallb non_digit x = true).
  { intros x Hx. exact (words_no_digit words x words_no_digits Hx). }
  assert (Hcut : c :: suf3 = ds ++ post).
  { assert (Heq : (x1 ++ x2) ++ c :: suf3 =
                  (lab ++ mid) ++ d1 :: ds' ++ post).
    { rewrite <- !app_assoc. rewrite <- Hsuf, <- R1s.
      change (d1 :: ds' ++ post) with ((d1 :: ds') ++ post).
      rewrite <- Hdseq. reflexivity. }
    apply (first_stop_unique non_digit) in Heq.
    - destruct Heq as (_ & -> & ->). rewrite Hdseq. reflexivity.
    - rewrite forallb_app, Hx2, (Hnd x1 (proj1 (lang_L x1) Hx1)). reflexivity.
    - rewrite forallb_app, Hmid, (Hnd lab Hlab). reflexivity.
    - unfold non_digit. rewrite Hc. reflexivity.
    - unfold non_digit. rewrite Hd1. reflexivity. }
  rewrite Hcut in Hat.
  change (run (Group 1 D) (rev x2 ++ pre1, ds ++ post) []
            (fun st' cs =>
               Some {| group0 := consumed (p0, lab ++ mid ++ ds ++ post) st';
                       groups := cs |}) = Some m) in Hat.
  rewrite (run_D ds post Hds) in Hat by discriminate.
  injection Hat as <-. reflexivity.
Qed.

(** What [number_at] returns is read at a label. *)
Lemma number_at_some s ds :
  number_at words lo hi s = Some ds ->
  exists lab mid post,
    s = lab ++ mid ++ ds ++ post /\ In lab words /\
    forallb non_digit mid = true /\ greedy_digits lo hi ds post.
Proof.
  unfold number_at. destruct (after_label words s) as [rest|] eqn:Hl;
    [|discriminate].
  cbn zeta. destruct (lo <=? List.length (first_digits rest))%nat eqn:Hlen;
    [|discriminate].
  intros [= <-]. apply Nat.leb_le in Hlen.
  destruct (after_label_some _ _ _ Hl) as (lab & Hin & Hs).
  destruct (first_digits_split rest) as (mid & post & Hrest & Hmid & Hd & Hp).
  exists lab, mid, (skipn hi (first_digits rest) ++ post).
  split.
  - rewrite Hs. f_equal. rewrite Hrest at 1. f_equal.
    rewrite app_assoc, firstn_skipn. reflexivity.
  - split; [exact Hin|]. split; [exact Hmid|].
    apply greedy_firstn; assumption.
Qed.

(** Where [number_at] finds nothing the pattern does not match. *)
Lemma number_at_none p0 s :
  number_at words lo hi s = None -> match_at (labelled L D) (p0, s) = None.
Proof.
  intros Hn. destruct (match_at (labelled L D) (p0, s)) as [m|] eqn:Hat;
    [exfalso|reflexivity].
  apply match_at_some in Hat. destruct Hat as (st' & Hm & _).
  apply (matches_labelled L D plain_L plain_D) in Hm.
  destruct Hm as (lab & mid & ds & Hlab & Hmid & Hds & [Rs _] & _).
  cbn [fst snd] in Rs. apply lang_L in Hlab. apply lang_D in Hds.
  unfold number_at in Hn.
  destruct (after_label words s) as [rest|] eqn:Hl.
  - destruct (after_label_some _ _ _ Hl) as (w & Hw & Hs).
    assert (Hnd : forall x, In x words -> forallb non_digit x = true).
    { intros x Hx. exact (words_no_digit words x words_no_digits Hx). }
    assert (Hfd : first_digits rest = ds ++ leading_digits (snd st')).
    { rewrite <- (first_digits_skip w rest (Hnd w Hw)), <- Hs, Rs.
      rewrite <- !app_assoc.
      rewrite (first_digits_skip lab _ (Hnd lab Hlab)).
      rewrite (first_digits_skip mid _ Hmid).
      destruct (is_digits_first ds Hds) as (c & ds' & -> & Hc).
      rewrite first_digits_leading by exact Hc.
      apply leading_digits_app. exact (proj1 Hds). }
    cbn zeta in Hn. rewrite Hfd, length_app in Hn.
    destruct Hds as [_ Hlen].
    destruct (lo <=? List.length ds + List.length (leading_digits (snd st')))%nat
      eqn:E; [discriminate|].
    apply Nat.leb_gt in E. lia.
  - apply (after_label_none _ _ Hl lab (mid ++ ds ++ snd st') Hlab).
    rewrite Rs, <- !app_assoc. reflexivity.
Qed.

Lemma search_from_reading : forall s p0,
  match search_from (labelled L D) p0 s with
  | Some m => group m 1
  | None => None
  end = reading words lo hi s.
Proof.
  induction s as [|c s IH]; intros p0.
  - cbn [search_from reading].
    destruct (number_at words lo hi []) as [ds|] eqn:Hn.
    + destruct (number_at_some _ _ Hn) as (lab & mid & post & Hs & Hlab & Hmid & Hds).
      destruct (labelled_at p0 lab mid ds post Hlab Hmid Hds) as (m & Hat & Hg).
      rewrite <- Hs in Hat. rewrite Hat. exact Hg.
    + rewrite (number_at_none p0 [] Hn). reflexivity.
  - cbn [search_from reading].
    destruct (number_at words lo hi (c :: s)) as [ds|] eqn:Hn.
    + destruct (number_at_some _ _ Hn) as (lab & mid & post & Hs & Hlab & Hmid & Hds).
      destruct (labelled_at p0 lab mid ds post Hlab Hmid Hds) as (m & Hat & Hg).
      rewrite <- Hs in Hat. rewrite Hat. exact Hg.
    + rewrite (number_at_none p0 (c :: s) Hn). apply IH.
Qed.

Lemma found_reading s :
  found (labelled L D) 1 s = option_map digits_value (reading words lo hi s).
Proof.
  unfold found, search. rewrite <- (search_from_reading s []).
  destruct (search_from (labelled L D) [] s); reflexivity.
Qed.

End Labelled.

Lemma found_sugar s :
  found sugar_pattern 1 s = option_map digits_value (reading sugar_words 2 3 s).
Proof.
  apply (found_reading sugar_labels digits_2_3 sugar_words 2 3);
    try reflexivity; try lia.
  - apply lang_sugar_labels.
  - apply lang_digits_2_3.
  - apply run_digits_2_3.
Qed.

Lemma found_hr s :
  found hr_pattern 1 s = option_map digits_value (reading hr_words 2 3 s).
Proof.
  apply (found_reading hr_labels digits_2_3 hr_words 2 3);
    try reflexivity; try lia.
  - apply lang_hr_labels.
  - apply lang_digits_2_3.
  - apply run_digits_2_3.
Qed.

Lemma found_age s :
  found age_pattern 1 s = option_map digits_value (reading age_words 1 2 s).
Proof.
  apply (found_reading age_labels digits_1_2 age_words 1 2);
    try reflexivity; try lia.
  - apply lang_age_labels.
  - apply lang_digits_1_2.
  - apply run_digits_1_2.
Qed.

(** What [reading] returns stands after a label, behind non-digits. *)
Lemma reading_some words lo hi :
  (lo <= hi)%nat ->
  forall s ds,
    reading words lo hi s = Some ds ->
    exists pre lab mid post,
      s = pre ++ lab ++ mid ++ ds ++ post /\ In lab words /\
      forallb non_digit mid = true /\ greedy_digits lo hi ds post.
Proof.
  intros Hlh. induction s as [|c s IH]; intros ds; cbn [reading].
  - destruct (number_at words lo hi []) as [ds'|] eqn:Hn; [|discriminate].
    intros [= <-].
    destruct (number_at_some words lo hi Hlh _ _ Hn)
      as (lab & mid & post & Hs & H).
    exists [], lab, mid, post. auto.
  - destruct (number_at words lo hi (c :: s)) as [ds'|] eqn:Hn.
    + intros [= <-].
      destruct (number_at_some words lo hi Hlh _ _ Hn)
        as (lab & mid & post & Hs & H).
      exists [], lab, mid, post. auto.
    + intros H. destruct (IH ds H) as (pre & lab & mid & post & Hs & H').
      exists (c :: pre), lab, mid, post. split; [|exact H'].
      cbn [app]. f_equal. exact Hs.
Qed.

(** A label followed by non-digits and digits anywhere in the text
    makes the field present. *)
Lemma label_found L D s pre lab mid ds post :
  plain L = true -> plain D = true ->
  (forall m, search (labelled L D) s = Some m ->
             exists es, group m 1 = Some es /\ is_digits 1 3 es) ->
  s = pre ++ lab ++ mid ++ ds ++ post ->
  lang L lab -> forallb non_digit mid = true -> lang D ds ->
  found (labelled L D) 1 s <> None.
Proof.
  intros HL HD Hg Hs Hlab Hmid Hds. unfold found.
  destruct (search (labelled L D) s) as [m|] eqn:Hm.
  - destruct (Hg m eq_refl) as (es & -> & _). discriminate.
  - exfalso. rewrite Hs in Hm.
    refine (search_finds _ pre _
              (rev (lab ++ mid ++ ds) ++ rev pre, post) [(1%nat, ds)] _ Hm).
    apply (matches_labelled L D HL HD).
    exists lab, mid, ds. do 3 (split; [assumption|]). split; [|reflexivity].
    split; cbn [fst snd].
    + rewrite <- !app_assoc. reflexivity.
    + reflexivity.
Qed.

End reading_facts.

(** ** The blood group against the two rules *)

Module two_rules_facts.
Import re re_spec re_facts pattern_facts blood_group_facts reading_facts.
Local Open Scope char_scope.

Lemma sign_facts c :
  is_sign c = true ->
  is_word c = false /\ is_space c = false /\ upper_char c = c /\
  Ascii.eqb c " " = false /\ abo (lower_char c) = false /\ abo c = false /\
  Ascii.eqb (lower_char c) "b" = false /\ Ascii.eqb c "b" = false.
Proof. each_char c; cbn; intros H; try discriminate; auto 10. Qed.

Lemma space_facts c :
  is_space c = true ->
  is_word c = false /\ is_sign c = false /\ upper_char c = c /\
  abo (lower_char c) = false /\ abo c = false /\
  Ascii.eqb (lower_char c) "b" = false /\ Ascii.eqb c "b" = false.
Proof. each_char c; cbn; intros H; try discriminate; auto 10. Qed.

Lemma abo_facts c :
  abo (lower_char c) = true ->
  is_word c = true /\ is_sign c = false /\ is_space c = false /\
  Ascii.eqb (upper_char c) " " = false.
Proof. each_char c; cbn; intros H; try discriminate; auto. Qed.

Lemma abo_lower c : abo c = true -> abo (lower_char c) = true /\ lower_char c = c.
Proof. each_char c; cbn; intros H; try discriminate; auto. Qed.

Lemma sign_after_sign sg post :
  is_sign sg = true -> sign_after (sg :: post) = Some [sg].
Proof. intros H. cbn [sign_after]. rewrite H. reflexivity. Qed.

Lemma sign_after_blank c sg post :
  is_space c = true -> is_sign sg = true ->
  sign_after (c :: sg :: post) =
  Some (remove_char " " (upper [c; sg])).
Proof.
  intros Hc Hs. destruct (space_facts c Hc) as (_ & Hn & Hu & _).
  destruct (sign_facts sg Hs) as (_ & _ & Hus & He & _).
  cbn [sign_after]. rewrite Hn, Hc, Hs.
  unfold upper, remove_char. cbn [map filter]. rewrite Hu, Hus, He.
  cbn [negb]. destruct (Ascii.eqb c " "); reflexivity.
Qed.

Lemma sign_after_word y r : is_word y = true -> sign_after (y :: r) = None.
Proof.
  intros H. cbn [sign_after].
  destruct (is_sign y) eqn:Es.
  - destruct (sign_facts y Es) as (Hw & _). congruence.
  - destruct (is_space y) eqn:Ep; [|reflexivity].
    destruct (space_facts y Ep) as (Hw & _). congruence.
Qed.

Lemma sign_after_inv s t :
  sign_after s = Some t ->
  exists sp sg post,
    s = sp ++ sg :: post /\
    (sp = [] \/ exists c, sp = [c] /\ is_space c = true) /\
    is_sign sg = true /\ t = remove_char " " (upper (sp ++ [sg])).
Proof.
  destruct s as [|c rest]; [discriminate|]. cbn [sign_after].
  destruct (is_sign c) eqn:Es.
  - intros [= <-]. exists [], c, rest.
    destruct (sign_facts c Es) as (_ & _ & Hu & He & _).
    split; [reflexivity|]. split; [left; reflexivity|]. split; [exact Es|].
    unfold upper, remove_char. cbn. rewrite Hu, He. reflexivity.
  - destruct (is_space c) eqn:Ep; [|discriminate].
    destruct rest as [|d rest]; [discriminate|].
    destruct (is_sign d) eqn:Ed; [|discriminate].
    intros H. exists [c], d, rest.
    split; [reflexivity|]. split; [right; eauto|]. split; [exact Ed|].
    pose proof (sign_after_blank c d rest Ep Ed) as Hb.
    cbn [sign_after] in Hb. rewrite Es, Ep, Ed in Hb.
    cbn [app]. congruence.
Qed.

Lemma upper_cons x s : upper (x :: s) = upper_char x :: upper s.
Proof. reflexivity. Qed.

Lemma remove_cons_letter x s :
  abo (lower_char x) = true ->
  remove_char " " (upper (x :: s)) = upper_char x :: remove_char " " (upper s).
Proof.
  intros H. destruct (abo_facts x H) as (_ & _ & _ & Hu).
  unfold upper, remove_char. cbn [map filter]. rewrite Hu. reflexivity.
Qed.

(** What the adjacent rule reads at one place. *)
Lemma adjacent_at_intro g sp sg post :
  In (lower g) group_letters ->
  (sp = [] \/ exists c, sp = [c] /\ is_space c = true) ->
  is_sign sg = true ->
  adjacent_at (g ++ sp ++ sg :: post) =
  Some (remove_char " " (upper (g ++ sp ++ [sg]))).
Proof.
  intros Hg Hsp Hs. apply letters_shape in Hg.
  assert (Htail : sign_after (sp ++ sg :: post) =
                  Some (remove_char " " (upper (sp ++ [sg])))).
  { destruct Hsp as [-> | (c & -> & Hc)].
    - cbn [app]. rewrite sign_after_sign by exact Hs.
      destruct (sign_facts sg Hs) as (_ & _ & Hu & He & _).
      unfold upper, remove_char. cbn. rewrite Hu, He. reflexivity.
    - apply sign_after_blank; assumption. }
  assert (Hfirst : exists c r, sp ++ sg :: post = c :: r /\
                               abo (lower_char c) = false /\
                               Ascii.eqb (lower_char c) "b" = false).
  { destruct Hsp as [-> | (c & -> & Hc)].
    - exists sg, post. destruct (sign_facts sg Hs) as (_ & _ & _ & _ & H1 & _ & H2 & _).
      auto.
    - exists c, (sg :: post).
      destruct (space_facts c Hc) as (_ & _ & _ & H1 & _ & H2 & _). auto. }
  destruct Hg as [(x & -> & Hx)|(x & y & -> & Hx & Hy)].
  - change (is_abo x = true) with (abo (lower_char x) = true) in Hx.
    unfold adjacent_at. cbn [app letter_groups fold_case]. rewrite Hx.
    cbn [app first_some fst snd]. rewrite Htail. cbn [option_map].
    rewrite (remove_cons_letter x _ Hx). reflexivity.
  - assert (Ax : abo (lower_char x) = true) by (rewrite Hx; reflexivity).
    assert (Ay : abo (lower_char y) = true) by (rewrite Hy; reflexivity).
    unfold adjacent_at. cbn [app letter_groups fold_case].
    rewrite Ax, Hx, Hy, !Ascii.eqb_refl.
    cbn [andb app first_some fst snd].
    rewrite (sign_after_word y _ (proj1 (abo_facts y Ay))).
    cbn [option_map first_some fst snd].
    rewrite Htail. cbn [option_map].
    rewrite (remove_cons_letter x _ Ax), (remove_cons_letter y _ Ay).
    reflexivity.
Qed.

Lemma adjacent_one x s1 t :
  sign_after s1 = Some t -> abo (lower_char x) = true ->
  exists g sp sg post,
    x :: s1 = g ++ sp ++ sg :: post /\ In (lower g) group_letters /\
    (sp = [] \/ exists c, sp = [c] /\ is_space c = true) /\
    is_sign sg = true.
Proof.
  intros Ht Hx. apply sign_after_inv in Ht.
  destruct Ht as (sp & sg & post & -> & Hsp & Hs & _).
  exists [x], sp, sg, post. split; [reflexivity|].
  split; [|auto]. apply letters_shape. left. exists x. auto.
Qed.

Lemma adjacent_two x y s2 t :
  sign_after s2 = Some t ->
  Ascii.eqb (lower_char x) "a" && Ascii.eqb (lower_char y) "b" = true ->
  exists g sp sg post,
    x :: y :: s2 = g ++ sp ++ sg :: post /\ In (lower g) group_letters /\
    (sp = [] \/ exists c, sp = [c] /\ is_space c = true) /\
    is_sign sg = true.
Proof.
  intros Ht Hxy. apply sign_after_inv in Ht.
  destruct Ht as (sp & sg & post & -> & Hsp & Hs & _).
  apply andb_true_iff in Hxy. destruct Hxy as [Hx Hy].
  apply Ascii.eqb_eq in Hx, Hy.
  exists [x; y], sp, sg, post. split; [reflexivity|].
  split; [|auto]. apply letters_shape. right. exists x, y. auto.
Qed.

Lemma adjacent_at_elim s v :
  adjacent_at s = Some v ->
  exists g sp sg post,
    s = g ++ sp ++ sg :: post /\ In (lower g) group_letters /\
    (sp = [] \/ exists c, sp = [c] /\ is_space c = true) /\
    is_sign sg = true.
Proof.
  unfold adjacent_at. destruct s as [|x s1]; [discriminate|].
  cbn [letter_groups fold_case].
  destruct (abo (lower_char x)) eqn:Hx; cbn [app first_some fst snd].
  - destruct (sign_after s1) as [t|] eqn:Ht; cbn [option_map].
    + intros _. exact (adjacent_one x s1 t Ht Hx).
    + destruct s1 as [|y s2]; [discriminate|].
      destruct (Ascii.eqb (lower_char x) "a" && Ascii.eqb (lower_char y) "b")
        eqn:Hxy; cbn [first_some fst snd]; [|discriminate].
      destruct (sign_after s2) as [t|] eqn:Ht2; [|discriminate].
      intros _. exact (adjacent_two x y s2 t Ht2 Hxy).
  - destruct s1 as [|y s2]; [discriminate|].
    destruct (Ascii.eqb (lower_char x) "a" && Ascii.eqb (lower_char y) "b")
      eqn:Hxy; cbn [first_some fst snd]; [|discriminate].
    destruct (sign_after s2) as [t|] eqn:Ht2; [|discriminate].
    intros _. exact (adjacent_two x y s2 t Ht2 Hxy).
Qed.

Lemma boundary_starts_word p0 x rest :
  is_word x = true ->
  at_boundary (p0, x :: rest) = starts_word (hd_error p0).
Proof.
  intros Hx. unfold at_boundary, starts_word. cbn [fst snd]. rewrite Hx.
  destruct p0 as [|c p0]; cbn [hd_error]; [reflexivity|].
  destruct (is_word c); reflexivity.
Qed.

Lemma letters_first g :
  In (lower g) group_letters -> exists x g', g = x :: g' /\ is_word x = true.
Proof. intros H. exact (proj2 (proj2 (letters_facts g H))). Qed.

(** The adjacent-sign pattern at one place. *)
Lemma bg_at_some p0 s m :
  match_at bg_pattern (p0, s) = Some m ->
  starts_word (hd_error p0) = true /\
  adjacent_at s = Some (remove_char " " (upper (group0 m))).
Proof.
  intros Hat. apply match_at_some in Hat. destruct Hat as (st' & Hm & Hg0).
  apply matches_bg in Hm.
  destruct Hm as (Hb & g & sp & sg & Hg & Hsp & Hsg & R & _).
  rewrite (reads_consumed _ _ _ R) in Hg0.
  destruct R as [Rs _]. cbn [fst snd] in Rs.
  apply lang_bg_letters_i in Hg. apply lang_opt_space in Hsp.
  destruct Hsg as (c & -> & Hc).
  destruct (letters_first g Hg) as (x & g' & Hgx & Hxw).
  split.
  - rewrite Rs, Hgx in Hb. cbn [app] in Hb.
    rewrite (boundary_starts_word p0 x _ Hxw) in Hb. exact Hb.
  - rewrite Rs, Hg0, <- !app_assoc. cbn [app].
    apply adjacent_at_intro; assumption.
Qed.

Lemma bg_at_none p0 s v :
  starts_word (hd_error p0) = true -> adjacent_at s = Some v ->
  match_at bg_pattern (p0, s) <> None.
Proof.
  intros Hw Hv. apply adjacent_at_elim in Hv.
  destruct Hv as (g & sp & sg & post & -> & Hg & Hsp & Hs).
  destruct (letters_first g Hg) as (x & g' & Hgx & Hxw).
  apply (match_at_matches bg_pattern _
           (rev (g ++ sp ++ [sg]) ++ p0, post) [(1%nat, g)]).
  apply matches_bg. split.
  - rewrite Hgx. cbn [app]. rewrite (boundary_starts_word p0 x _ Hxw). exact Hw.
  - exists g, sp, [sg]. split; [apply lang_bg_letters_i_iff; exact Hg|].
    split.
    { destruct Hsp as [-> | (c & -> & Hc)]; [right; reflexivity|].
      left. exists c. auto. }
    split; [exists sg; auto|]. split; [|reflexivity].
    split; cbn [fst snd].
    + rewrite <- !app_assoc. reflexivity.
    + reflexivity.
Qed.

(** Scanning with a rule against searching with a pattern. *)
Section Scan.
Variable r : regex.
Variable rule : text -> option text.
Variable val : match_obj -> option text.
Hypothesis at_some :
  forall p0 s m,
    match_at r (p0, s) = Some m ->
    starts_word (hd_error p0) = true /\ rule s = val m /\ val m <> None.
Hypothesis at_none :
  forall p0 s v,
    starts_word (hd_error p0) = true -> rule s = Some v ->
    match_at r (p0, s) <> None.

Lemma search_from_scan : forall s p0,
  match search_from r p0 s with
  | Some m => val m
  | None => None
  end = scan rule (hd_error p0) s.
Proof.
  assert (Hstep : forall p0 s,
    match_at r (p0, s) = None ->
    (if starts_word (hd_error p0) then rule s else None) = None).
  { intros p0 s Hn. destruct (starts_word (hd_error p0)) eqn:Hw; [|reflexivity].
    destruct (rule s) as [v|] eqn:Hv; [|reflexivity].
    exfalso. exact (at_none p0 s v Hw Hv Hn). }
  induction s as [|c s IH]; intros p0; cbn [search_from scan];
    destruct (match_at r (p0, _)) as [m|] eqn:Hat.
  - destruct (at_some _ _ _ Hat) as (Hw & Hr & Hv). rewrite Hw, Hr.
    destruct (val m); [reflexivity|congruence].
  - rewrite (Hstep _ _ Hat). reflexivity.
  - destruct (at_some _ _ _ Hat) as (Hw & Hr & Hv). rewrite Hw, Hr.
    destruct (val m); [reflexivity|congruence].
  - rewrite (Hstep _ _ Hat). apply (IH (c :: p0)).
Qed.
End Scan.

Lemma search_bg_adjacent raw :
  option_map (fun m => remove_char " " (upper (group0 m)))
    (search bg_pattern raw) = adjacent_group raw.
Proof.
  unfold search, adjacent_group.
  change (scan adjacent_at None raw)
    with (scan adjacent_at (hd_error (@nil ascii)) raw).
  rewrite <- (search_from_scan bg_pattern adjacent_at
                (fun m => Some (remove_char " " (upper (group0 m))))).
  - destruct (search_from bg_pattern [] raw); reflexivity.
  - intros p0 s m Hat. destruct (bg_at_some p0 s m Hat) as [Hw Hv].
    split; [exact Hw|]. split; [exact Hv|discriminate].
  - exact bg_at_none.
Qed.

(** The word form at one place. *)

Lemma skip_blanks_split s :
  exists sp, s = sp ++ skip_blanks s /\ forallb is_space sp = true.
Proof.
  induction s as [|c s IH]; [exists []; auto|].
  cbn [skip_blanks]. destruct (is_space c) eqn:E.
  - destruct IH as (sp & Hs & Hsp). exists (c :: sp).
    cbn [app forallb]. rewrite E, Hsp. split; [f_equal; exact Hs|reflexivity].
  - exists []. auto.
Qed.

Lemma skip_blanks_app sp r :
  forallb is_space sp = true ->
  match r with c :: _ => is_space c = false | [] => True end ->
  skip_blanks (sp ++ r) = r.
Proof.
  intros Hsp Hr. induction sp as [|c sp IH].
  - destruct r as [|c r]; [reflexivity|]. cbn [app skip_blanks].
    rewrite Hr. reflexivity.
  - cbn [forallb] in Hsp. apply andb_true_iff in Hsp. destruct Hsp as [Hc Hsp].
    cbn [app skip_blanks]. rewrite Hc. apply IH, Hsp.
Qed.

Lemma word_sign_intro sp pn post :
  sp <> [] -> forallb is_space sp = true ->
  pn = chars "positive" \/ pn = chars "negative" ->
  word_sign (sp ++ pn ++ post) = Some (sign_of pn).
Proof.
  intros Hne Hsp Hpn. destruct sp as [|c sp]; [congruence|].
  pose proof Hsp as Hsp'.
  cbn [forallb] in Hsp. apply andb_true_iff in Hsp. destruct Hsp as [Hc _].
  change ((c :: sp) ++ pn ++ post) with (c :: (sp ++ pn ++ post)).
  unfold word_sign. rewrite Hc.
  change (c :: (sp ++ pn ++ post)) with ((c :: sp) ++ pn ++ post).
  rewrite (skip_blanks_app (c :: sp) (pn ++ post) Hsp').
  - destruct Hpn as [-> | ->]; reflexivity.
  - destruct Hpn as [-> | ->]; reflexivity.
Qed.

Lemma word_sign_elim s t :
  word_sign s = Some t ->
  exists sp pn post,
    s = sp ++ pn ++ post /\ sp <> [] /\ forallb is_space sp = true /\
    (pn = chars "positive" \/ pn = chars "negative").
Proof.
  destruct s as [|c s']; [discriminate|]. unfold word_sign.
  destruct (is_space c) eqn:Hc; [|discriminate].
  destruct (skip_blanks_split (c :: s')) as (sp & Hs & Hsp).
  assert (Hne : sp <> []).
  { intros ->. cbn [app] in Hs. cbn [skip_blanks] in Hs. rewrite Hc in Hs.
    apply (f_equal (@List.length ascii)) in Hs. cbn [List.length] in Hs.
    destruct (skip_blanks_split s') as (sp' & Hs' & _).
    apply (f_equal (@List.length ascii)) in Hs'. rewrite length_app in Hs'.
    lia. }
  destruct (starts_with (chars "positive") (skip_blanks (c :: s'))) eqn:Hp.
  - intros _. apply starts_with_split in Hp.
    exists sp, (chars "positive"), (skipn 8 (skip_blanks (c :: s'))).
    split; [rewrite Hs at 1; f_equal; exact Hp|auto].
  - destruct (starts_with (chars "negative") (skip_blanks (c :: s'))) eqn:Hn;
      [|discriminate].
    intros _. apply starts_with_split in Hn.
    exists sp, (chars "negative"), (skipn 8 (skip_blanks (c :: s'))).
    split; [rewrite Hs at 1; f_equal; exact Hn|auto].
Qed.

Lemma word_sign_letter y r : is_word y = true -> word_sign (y :: r) = None.
Proof.
  intros H. unfold word_sign. destruct (is_space y) eqn:E; [|reflexivity].
  destruct (space_facts y E) as (Hw & _). congruence.
Qed.

Lemma word_at_one x r t :
  abo x = true -> word_sign r = Some t ->
  word_at (x :: r) = Some (upper_char x :: t).
Proof.
  intros Hx Ht. unfold word_at. cbn [letter_groups fold_case].
  rewrite Hx. cbn [app first_some fst snd]. rewrite Ht. reflexivity.
Qed.

Lemma word_at_ab r t :
  word_sign r = Some t ->
  word_at ("a" :: "b" :: r) = Some ("A" :: "B" :: t).
Proof.
  intros Ht. unfold word_at. cbn [letter_groups fold_case].
  change (abo "a") with true.
  change (Ascii.eqb "a" "a" && Ascii.eqb "b" "b") with true.
  cbn [app first_some fst snd].
  rewrite (word_sign_letter "b" r eq_refl). cbn [option_map].
  rewrite Ht. reflexivity.
Qed.

Lemma word_at_intro g sp pn post :
  In g group_letters -> sp <> [] -> forallb is_space sp = true ->
  pn = chars "positive" \/ pn = chars "negative" ->
  word_at (g ++ sp ++ pn ++ post) = Some (upper g ++ sign_of pn).
Proof.
  intros Hg Hne Hsp Hpn.
  pose proof (word_sign_intro sp pn post Hne Hsp Hpn) as Ht.
  unfold group_letters in Hg. cbn [In] in Hg.
  destruct Hg as [<- | [<- | [<- | [<- | []]]]].
  - exact (word_at_one "a" _ _ eq_refl Ht).
  - exact (word_at_one "b" _ _ eq_refl Ht).
  - exact (word_at_ab _ _ Ht).
  - exact (word_at_one "o" _ _ eq_refl Ht).
Qed.

Lemma abo_cases x : abo x = true -> In [x] group_letters.
Proof.
  unfold abo. intros H. apply orb_true_iff in H. destruct H as [H|H];
    [apply orb_true_iff in H; destruct H as [H|H]|];
    apply Ascii.eqb_eq in H; subst x; cbn; auto.
Qed.

Lemma word_one x s1 t :
  word_sign s1 = Some t -> abo x = true ->
  exists g sp pn post,
    x :: s1 = g ++ sp ++ pn ++ post /\ In g group_letters /\ sp <> [] /\
    forallb is_space sp = true /\
    (pn = chars "positive" \/ pn = chars "negative").
Proof.
  intros Ht Hx. apply word_sign_elim in Ht.
  destruct Ht as (sp & pn & post & -> & Hne & Hsp & Hpn).
  exists [x], sp, pn, post. split; [reflexivity|].
  split; [apply abo_cases; exact Hx|auto].
Qed.

Lemma word_two x y s2 t :
  word_sign s2 = Some t ->
  Ascii.eqb x "a" && Ascii.eqb y "b" = true ->
  exists g sp pn post,
    x :: y :: s2 = g ++ sp ++ pn ++ post /\ In g group_letters /\ sp <> [] /\
    forallb is_space sp = true /\
    (pn = chars "positive" \/ pn = chars "negative").
Proof.
  intros Ht Hxy. apply word_sign_elim in Ht.
  destruct Ht as (sp & pn & post & -> & Hne & Hsp & Hpn).
  apply andb_true_iff in Hxy. destruct Hxy as [Hx Hy].
  apply Ascii.eqb_eq in Hx, Hy. subst x y.
  exists (chars "ab"), sp, pn, post. split; [reflexivity|].
  split; [cbn; auto|auto].
Qed.

Lemma word_at_elim s v :
  word_at s = Some v ->
  exists g sp pn post,
    s = g ++ sp ++ pn ++ post /\ In g group_letters /\ sp <> [] /\
    forallb is_space sp = true /\
    (pn = chars "positive" \/ pn = chars "negative").
Proof.
  unfold word_at. destruct s as [|x s1]; [discriminate|].
  cbn [letter_groups fold_case].
  destruct (abo x) eqn:Hx; cbn [app first_some fst snd].
  - destruct (word_sign s1) as [t|] eqn:Ht; cbn [option_map].
    + intros _. exact (word_one x s1 t Ht Hx).
    + destruct s1 as [|y s2]; [discriminate|].
      destruct (Ascii.eqb x "a" && Ascii.eqb y "b") eqn:Hxy;
        cbn [first_some fst snd]; [|discriminate].
      destruct (word_sign s2) as [t|] eqn:Ht2; [|discriminate].
      intros _. exact (word_two x y s2 t Ht2 Hxy).
  - destruct s1 as [|y s2]; [discriminate|].
    destruct (Ascii.eqb x "a" && Ascii.eqb y "b") eqn:Hxy;
      cbn [first_some fst snd]; [|discriminate].
    destruct (word_sign s2) as [t|] eqn:Ht2; [|discriminate].
    intros _. exact (word_two x y s2 t Ht2 Hxy).
Qed.

Lemma group_letters_first g :
  In g group_letters -> exists x g', g = x :: g' /\ is_word x = true.
Proof.
  unfold group_letters. cbn [In].
  intros [<- | [<- | [<- | [<- | []]]]]; cbn; eauto.
Qed.

Lemma bgw_at_some p0 s m :
  match_at bg_word_pattern (p0, s) = Some m ->
  starts_word (hd_error p0) = true /\ word_at s = word_value m /\
  word_value m <> None.
Proof.
  intros Hat. apply match_at_some in Hat. destruct Hat as (st' & Hm & _).
  apply matches_bg_word in Hm.
  destruct Hm as (Hb & g & sp & pn & Hg & Hsp & Hpn & [Rs _] & Hgr).
  cbn [fst snd] in Rs.
  apply lang_bg_letters in Hg. apply lang_plus_space in Hsp.
  apply lang_bg_words in Hpn. destruct Hsp as [Hne Hsp].
  destruct (group_letters_first g Hg) as (x & g' & Hgx & Hxw).
  unfold word_value, group. rewrite Hgr. cbn [lookup Nat.eqb].
  split; [|split; [|discriminate]].
  - rewrite Rs, Hgx in Hb. cbn [app] in Hb.
    rewrite (boundary_starts_word p0 x _ Hxw) in Hb. exact Hb.
  - rewrite Rs, <- !app_assoc. apply word_at_intro; assumption.
Qed.

Lemma bgw_at_none p0 s v :
  starts_word (hd_error p0) = true -> word_at s = Some v ->
  match_at bg_word_pattern (p0, s) <> None.
Proof.
  intros Hw Hv. apply word_at_elim in Hv.
  destruct Hv as (g & sp & pn & post & -> & Hg & Hne & Hsp & Hpn).
  destruct (group_letters_first g Hg) as (x & g' & Hgx & Hxw).
  apply (match_at_matches bg_word_pattern _
           (rev (g ++ sp ++ pn) ++ p0, post) [(2%nat, pn); (1%nat, g)]).
  apply matches_bg_word. split.
  - rewrite Hgx. cbn [app]. rewrite (boundary_starts_word p0 x _ Hxw). exact Hw.
  - exists g, sp, pn.
    split.
    { unfold group_letters in Hg. cbn [In] in Hg.
      unfold bg_letters. cbn [alts lang].
      destruct Hg as [<- | [<- | [<- | [<- | []]]]].
      - left. apply lang_lit. reflexivity.
      - right. left. apply lang_lit. reflexivity.
      - right. right. left. apply (lang_word (chars "ab")). reflexivity.
      - right. right. right. apply lang_lit. reflexivity. }
    split.
    { destruct sp as [|c sp]; [congruence|].
      cbn [forallb] in Hsp. apply andb_true_iff in Hsp.
      exists [c], sp. split; [reflexivity|].
      split; [exists c; tauto|tauto]. }
    split.
    { destruct Hpn as [-> | ->]; [left|right]; apply lang_word; reflexivity. }
    split; [|reflexivity]. split; cbn [fst snd].
    + rewrite <- !app_assoc. reflexivity.
    + reflexivity.
Qed.

Lemma search_bg_word_group s :
  match search bg_word_pattern s with
  | Some m => word_value m
  | None => None
  end = word_group s.
Proof.
  unfold search, word_group.
  change (scan word_at None s) with (scan word_at (hd_error (@nil ascii)) s).
  apply (search_from_scan bg_word_pattern word_at word_value).
  - exact bgw_at_some.
  - exact bgw_at_none.
Qed.

(** The blood group is that of the two rules. *)
Lemma found_blood_group_rules raw : found_blood_group raw = two_rules raw.
Proof.
  unfold found_blood_group, two_rules.
  rewrite <- search_bg_adjacent, <- search_bg_word_group.
  destruct (search bg_pattern raw) as [m|]; cbn [option_map]; [reflexivity|].
  destruct (search bg_word_pattern (clean raw)) as [m|]; [|reflexivity].
  unfold word_value, sign_of.
  destruct (group m 1); [|reflexivity]. destruct (group m 2); reflexivity.
Qed.

(** ** The first occurrence decides *)

Lemma letters_all_word g :
  In (lower g) group_letters -> forallb is_word g = true.
Proof.
  intros H. apply letters_shape in H.
  destruct H as [(x & -> & H)|(x & y & -> & Hx & Hy)].
  - cbn. rewrite (proj1 (is_abo_facts x H)). reflexivity.
  - assert (Ax : is_abo x = true) by (unfold is_abo; rewrite Hx; reflexivity).
    assert (Ay : is_abo y = true) by (unfold is_abo; rewrite Hy; reflexivity).
    cbn. rewrite (proj1 (is_abo_facts x Ax)), (proj1 (is_abo_facts y Ay)).
    reflexivity.
Qed.

Lemma word_start_last u :
  u <> [] -> word_start u = true ->
  exists u0 c0, u = u0 ++ [c0] /\ is_word c0 = false.
Proof.
  intros Hne H. destruct (exists_last Hne) as (u0 & c0 & ->).
  exists u0, c0. split; [reflexivity|].
  unfold word_start in H. rewrite rev_app_distr in H. cbn in H.
  apply negb_true_iff in H. exact H.
Qed.

(** A reading that starts inside [u] ends inside [u] when [u] ends a
    word and a word character follows. *)
Lemma adjacent_at_app u x rest :
  u <> [] -> word_start u = true -> is_word x = true ->
  adjacent_at u = None -> adjacent_at (u ++ x :: rest) = None.
Proof.
  intros Hne Hu Hx Hnone.
  destruct (adjacent_at (u ++ x :: rest)) as [v|] eqn:Hv; [exfalso|reflexivity].
  apply adjacent_at_elim in Hv.
  destruct Hv as (g & sp & sg & post & Heq & Hg & Hsp & Hs).
  destruct (sign_facts sg Hs) as (Hsw & _).
  destruct (word_start_last u Hne Hu) as (u0 & c0 & -> & Hc0).
  rewrite app_assoc in Heq. apply app_eq_app in Heq.
  destruct Heq as (l & [[H1 H2]|[H1 H2]]).
  - (* the reading lies inside [u] *)
    destruct l as [|e l].
    + cbn [app] in H2. injection H2 as <- _. congruence.
    + cbn [app] in H2. injection H2 as <- ->.
      rewrite H1, <- app_assoc in Hnone.
      rewrite (adjacent_at_intro g sp sg l Hg Hsp Hs) in Hnone. discriminate.
  - (* the reading goes on after [u] *)
    destruct l as [|e l].
    + cbn [app] in H2. injection H2 as <- _. congruence.
    + cbn [app] in H2. injection H2 as <- H2.
      pose proof (letters_all_word g Hg) as Hgw.
      destruct Hsp as [-> | (c & -> & Hc)].
      * rewrite app_nil_r in H1. rewrite H1, <- app_assoc in Hgw.
        rewrite forallb_app in Hgw. cbn [app forallb] in Hgw.
        rewrite Hc0 in Hgw. rewrite andb_false_r in Hgw. discriminate.
      * assert (Hl : x :: l <> []) by discriminate.
        destruct (exists_last Hl) as (l0 & e0 & Hl0).
        rewrite Hl0 in H1.
        rewrite (app_assoc (u0 ++ [c0]) l0 [e0]) in H1.
        apply app_inj_tail in H1. destruct H1 as [H1 _].
        rewrite H1, <- app_assoc in Hgw.
        rewrite forallb_app in Hgw. cbn [app forallb] in Hgw.
        rewrite Hc0 in Hgw. rewrite andb_false_r in Hgw. discriminate.
Qed.

Lemma last_before_cons prev c pre :
  last_before prev (c :: pre) = last_before (Some c) pre.
Proof.
  unfold last_before. cbn [rev].
  destruct (rev pre) as [|d r]; reflexivity.
Qed.

Lemma word_start_last_before prev c pre :
  starts_word (last_before prev (c :: pre)) = word_start (c :: pre).
Proof.
  unfold last_before, word_start, starts_word.
  destruct (rev (c :: pre)) as [|d r] eqn:E; [|reflexivity].
  apply (f_equal (@List.length ascii)) in E. rewrite length_rev in E.
  discriminate.
Qed.

Lemma scan_adjacent_after x rest v :
  is_word x = true -> adjacent_at (x :: rest) = Some v ->
  forall pre prev,
    starts_word (last_before prev pre) = true ->
    scan adjacent_at prev pre = None ->
    scan adjacent_at prev (pre ++ x :: rest) = Some v.
Proof.
  intros Hx Hv. induction pre as [|c pre IH]; intros prev Hend Hnone.
  - cbn [app scan]. unfold last_before in Hend. cbn [rev] in Hend.
    rewrite Hend, Hv. reflexivity.
  - cbn [app scan] in Hnone |- *.
    assert (Hhere : (if starts_word prev
                     then adjacent_at (c :: pre ++ x :: rest)
                     else None) = None).
    { destruct (starts_word prev); [|reflexivity].
      destruct (adjacent_at (c :: pre)) eqn:Hat; [discriminate|].
      apply (adjacent_at_app (c :: pre) x rest); auto; [discriminate|].
      rewrite <- (word_start_last_before prev). exact Hend. }
    rewrite Hhere. apply IH.
    + rewrite <- (last_before_cons prev). exact Hend.
    + destruct (if starts_word prev then adjacent_at (c :: pre) else None);
        [discriminate|exact Hnone].
Qed.

Lemma remove_space_letters g sg :
  In (lower g) group_letters -> is_sign sg = true ->
  remove_char " " (upper (g ++ [sg])) = upper g ++ [sg].
Proof.
  intros Hg Hs. destruct (letters_facts g Hg) as (_ & Hgu & _).
  destruct (sign_facts sg Hs) as (_ & _ & Hu & He & _).
  unfold upper. rewrite map_app. fold (upper g). cbn [map].
  unfold remove_char. rewrite filter_app. fold (remove_char " " (upper g)).
  rewrite Hgu. cbn [filter]. rewrite Hu, He. reflexivity.
Qed.

(** A letter group that starts a word and is followed by a sign is the
    blood group when no reading of the adjacent rule comes before it. *)
Lemma adjacent_group_first pre g sg post :
  In (lower g) group_letters -> is_sign sg = true ->
  word_start pre = true -> adjacent_group pre = None ->
  adjacent_group (pre ++ g ++ sg :: post) = Some (upper g ++ [sg]).
Proof.
  intros Hg Hs Hpre Hnone.
  destruct (letters_first g Hg) as (x & g' & Hgx & Hxw).
  unfold adjacent_group in *.
  pose proof (adjacent_at_intro g [] sg post Hg (or_introl eq_refl) Hs) as Hv.
  cbn [app] in Hv. rewrite (remove_space_letters g sg Hg Hs) in Hv.
  rewrite Hgx in Hv |- *. cbn [app] in Hv |- *.
  apply (scan_adjacent_after x _ _ Hxw Hv pre None); [|exact Hnone].
  unfold last_before. unfold word_start in Hpre.
  destruct (rev pre); [reflexivity|exact Hpre].
Qed.

(** ** Upper case, no space *)

Lemma upper_char_not_lower c : is_lower (upper_char c) = false.
Proof. each_char c; reflexivity. Qed.

Lemma remove_upper_no_space l :
  forallb upper_no_space (remove_char " " (upper l)) = true.
Proof.
  unfold upper, remove_char.
  induction l as [|c l IH]; cbn [map filter forallb]; [reflexivity|].
  destruct (Ascii.eqb (upper_char c) " ") eqn:E; cbn [negb]; [exact IH|].
  cbn [forallb]. unfold upper_no_space at 1.
  rewrite E, upper_char_not_lower. cbn [negb andb]. exact IH.
Qed.

Lemma found_blood_group_upper raw s :
  found_blood_group raw = Some s -> forallb upper_no_space (chars s) = true.
Proof.
  unfold found_blood_group.
  destruct (search bg_pattern raw) as [m|].
  - intros [= <-]. unfold chars. rewrite list_ascii_of_string_of_list_ascii.
    apply remove_upper_no_space.
  - destruct (search bg_word_pattern (clean raw)) as [m|] eqn:Hw;
      [|discriminate].
    apply search_bg_word in Hw.
    destruct Hw as (pre & g & sp & pn & post & _ & Hg & _ & Hpn & Hgr).
    apply lang_bg_letters in Hg. apply lang_bg_words in Hpn.
    unfold group. rewrite Hgr. cbn [lookup Nat.eqb].
    intros [= <-]. unfold chars. rewrite list_ascii_of_string_of_list_ascii.
    unfold group_letters in Hg. cbn [In] in Hg.
    destruct Hg as [<- | [<- | [<- | [<- | []]]]];
      destruct Hpn as [-> | ->]; reflexivity.
Qed.

End two_rules_facts.

(** * Main results *)

Import re re_spec re_facts pattern_facts clean_facts parse_facts risk_facts.
Import label_facts blood_group_facts reading_facts two_rules_facts.




(** C2. When the partial-feature strategy applies (blood pressure or
    sugar extracted, but not blood pressure, sugar and age together),
    [analyze_risk] returns the tier of the rule ladder: the maximum of the
    blood-pressure rung (Critical from 180 or 120, Warning from 140 or 90)
    and the sugar rung (Critical from 200, Warning from 140), starting
    from Healthy.  In particular ["bp 160/100 age 60"] gives Warning. *)
Theorem rule_ladder_max :
  (forall rf recs f,
     parse_medical_text (join_records recs) = Ok f ->
     partial_path f = true ->
     exists a,
       analyze_risk rf recs = Ok a /\ risk_level a = level_name (ladder f)) /\
  (forall rf,
     exists a,
       analyze_risk rf ["bp 160/100 age 60"] = Ok a /\
       risk_level a = "Warning").
Proof.
  split.
  - intros rf recs f Hp Hpath.
    rewrite (analyze_risk_parse rf recs f Hp), (risk_of_partial rf f Hpath).
    eexists. split; reflexivity.
  - intros rf. eexists. split; [vm_compute; reflexivity|reflexivity].
Qed.

Lemma rule_ladder_max_witness :
  exists a,
    analyze_risk by_systolic ["bp 200/80"; "sugar 150"] = Ok a /\
    risk_level a = "Critical".
Proof.
  apply (proj1 rule_ladder_max by_systolic ["bp 200/80"; "sugar 150"]
           {| systolic := Some 200; diastolic := Some 80; sugar := Some 150;
              heart_rate := None; age := None; height := None;
              weight := None; blood_group := None |}).
  - vm_compute. reflexivity.
  - vm_compute. reflexivity.
Defined.

(** C3. [analyze_risk] answers ["Insufficient Data"] exactly when neither
    the blood-pressure pair nor the sugar was extracted, whatever the
    other fields hold; the vitals are echoed all the same; and on the
    empty list of records it returns ["Insufficient Data"] with every
    vital absent, without raising. *)
Theorem insufficient_data_iff :
  (forall rf recs,
     exists f,
       parse_medical_text (join_records recs) = Ok f /\
       ((exists a,
           analyze_risk rf recs = Ok a /\
           risk_level a = "Insufficient Data") <->
        (has_bp f = false /\ has_sugar f = false)) /\
       (has_bp f = false -> has_sugar f = false ->
        exists a,
          analyze_risk rf recs = Ok a /\
          risk_level a = "Insufficient Data" /\
          detected.bp (vitals_detected a) = None /\
          detected.sugar (vitals_detected a) = None /\
          detected.heart_rate (vitals_detected a) = heart_rate f /\
          detected.height (vitals_detected a) = height f /\
          detected.weight (vitals_detected a) = weight f /\
          detected.age (vitals_detected a) = age f /\
          detected.blood_group (vitals_detected a) = blood_group f)) /\
  (forall rf,
     analyze_risk rf [] =
     Ok {| risk_level := "Insufficient Data";
           vitals_detected :=
             {| detected.bp := None; detected.sugar := None;
                detected.heart_rate := None; detected.height := None;
                detected.weight := None; detected.age := None;
                detected.blood_group := None |} |}).
Proof.
  split.
  - intros rf recs.
    exists (extracted (chars (join_records recs))).
    set (f := extracted _).
    assert (Hp : parse_medical_text (join_records recs) = Ok f)
      by apply parse_medical_text_extracted.
    clearbody f. split; [exact Hp|]. split; [split|].
    + intros (a & Ha & Hr). rewrite (analyze_risk_parse rf recs f Hp) in Ha.
      destruct (risk_of rf f) as [st|e] eqn:Hrisk; [|discriminate].
      cbn in Ha. injection Ha as <-. cbn in Hr. subst st.
      exact (risk_of_insufficient_inv rf f Hrisk).
    + intros [Hb Hs]. rewrite (analyze_risk_parse rf recs f Hp).
      rewrite (risk_of_insufficient rf f Hb Hs). eexists. split; reflexivity.
    + intros Hb Hs. rewrite (analyze_risk_parse rf recs f Hp).
      rewrite (risk_of_insufficient rf f Hb Hs). eexists.
      split; [reflexivity|]. cbn.
      unfold has_bp, has_sugar in Hb, Hs.
      destruct (systolic f) as [sys|], (diastolic f) as [dia|],
        (sugar f) as [sug|]; try discriminate; cbn;
        rewrite ?andb_false_r; auto 10.
  - intros rf. vm_compute. reflexivity.
Qed.

Lemma insufficient_data_iff_witness :
  exists a,
    analyze_risk always_healthy ["age 40, height 170 cm"] = Ok a /\
    risk_level a = "Insufficient Data" /\
    detected.age (vitals_detected a) = Some 40 /\
    detected.height (vitals_detected a) = Some 170.
Proof.
  destruct (proj1 insufficient_data_iff always_healthy ["age 40, height 170 cm"])
    as (f & Hp & _ & Hecho).
  assert (Hf : Ok f =
               Ok {| systolic := None; diastolic := None; sugar := None;
                     heart_rate := None; age := Some 40; height := Some 170;
                     weight := None; blood_group := None |}).
  { rewrite <- Hp. vm_compute. reflexivity. }
  injection Hf as ->.
  destruct (Hecho eq_refl eq_refl)
    as (a & Ha & Hr & _ & _ & _ & Hh & _ & Hage & _).
  exists a. auto.
Defined.

(** C4. Whatever the text, the systolic and diastolic fields are both
    absent or both present: they are the two numbers of one match of the
    paired pattern.  A text without a slash leaves both absent, and a
    text with two numbers of two or three digits around a slash makes
    both present.  On ASCII text, when they are present the cleaned text
    holds the two numbers, of two or three digits each, around a slash
    with optional blanks. *)
Theorem bp_pair_invariant :
  forall text_data,
    exists f,
      parse_medical_text text_data = Ok f /\
      ((systolic f = None /\ diastolic f = None) \/
       (exists sys dia, systolic f = Some sys /\ diastolic f = Some dia)) /\
      (ascii_only (chars text_data) = true ->
       (systolic f = None /\ diastolic f = None) \/
       (exists pre lab mid d1 s1 s2 d2 post,
          clean (chars text_data) =
            pre ++ lab ++ mid ++ d1 ++ s1 ++ "/"%char :: s2 ++ d2 ++ post /\
          is_digits 2 3 d1 /\ is_digits 2 3 d2 /\
          forallb is_space s1 = true /\ forallb is_space s2 = true /\
          systolic f = Some (digits_value d1) /\
          diastolic f = Some (digits_value d2))) /\
      (forallb not_slash (chars text_data) = true ->
       systolic f = None /\ diastolic f = None) /\
      (forall pre d1 s1 s2 d2 post,
         clean (chars text_data) = pre ++ d1 ++ s1 ++ "/"%char :: s2 ++ d2 ++ post ->
         is_digits 2 3 d1 -> is_digits 2 3 d2 ->
         forallb is_space s1 = true -> forallb is_space s2 = true ->
         systolic f <> None /\ diastolic f <> None).
Proof.
  intros text_data. eexists. split; [apply parse_medical_text_extracted|].
  unfold extracted. cbn [systolic diastolic]. unfold found.
  set (s := clean (chars text_data)).
  assert (Hsome : forall m, search bp_pattern s = Some m ->
    exists pre lab mid d1 s1 s2 d2 post,
      s = pre ++ lab ++ mid ++ d1 ++ s1 ++ "/"%char :: s2 ++ d2 ++ post /\
      is_digits 2 3 d1 /\ is_digits 2 3 d2 /\
      forallb is_space s1 = true /\ forallb is_space s2 = true /\
      option_map digits_value (group m 1) = Some (digits_value d1) /\
      option_map digits_value (group m 2) = Some (digits_value d2)).
  { intros m Hm. apply search_bp in Hm.
    destruct Hm as (pre & lab & mid & d1 & s1 & s2 & d2 & post & Hs & _ & _ &
                    Hd1 & Hs1 & Hs2 & Hd2 & Hg).
    exists pre, lab, mid, d1, s1, s2, d2, post.
    unfold group. rewrite Hg. cbn. auto 10. }
  split; [|split; [|split]].
  - destruct (search bp_pattern s) as [m|] eqn:Hm; [right|left; auto].
    destruct (Hsome m eq_refl)
      as (_ & _ & _ & d1 & _ & _ & d2 & _ & _ & _ & _ & _ & _ & H1 & H2).
    exists (digits_value d1), (digits_value d2). auto.
  - intros _. destruct (search bp_pattern s) as [m|] eqn:Hm; [right|left; auto].
    exact (Hsome m eq_refl).
  - intros Hno. destruct (search bp_pattern s) as [m|] eqn:Hm; [|auto].
    exfalso. destruct (Hsome m eq_refl)
      as (pre & lab & mid & d1 & s1 & s2 & d2 & post & Hs & _).
    apply clean_not_slash in Hno. fold s in Hno. rewrite Hs in Hno.
    rewrite !app_assoc in Hno. rewrite forallb_not_slash_no_slash in Hno.
    discriminate.
  - intros pre d1 s1 s2 d2 post Hs Hd1 Hd2 Hs1 Hs2.
    destruct (search bp_pattern s) as [m|] eqn:Hm.
    + destruct (Hsome m eq_refl)
        as (_ & _ & _ & e1 & _ & _ & e2 & _ & _ & _ & _ & _ & _ & -> & ->).
      split; discriminate.
    + exfalso. rewrite Hs in Hm.
      refine (search_none _ _ Hm pre _
                (rev (d1 ++ s1 ++ "/"%char :: s2 ++ d2) ++ rev pre, post)
                [(2%nat, d2); (1%nat, d1)] eq_refl _).
      apply matches_bp. exists [], [], d1, s1, s2, d2.
      split; [apply lang_bp_labels_nil|]. split; [reflexivity|].
      do 4 (split; [assumption|]). split; [|reflexivity].
      split; cbn [fst snd app].
      * rewrite <- !app_assoc. cbn [app]. rewrite <- !app_assoc. reflexivity.
      * reflexivity.
Qed.

Lemma bp_pair_invariant_witness :
  exists f,
    parse_medical_text "BP: 150 / 95 mmHg" = Ok f /\
    systolic f = Some 150 /\ diastolic f = Some 95.
Proof.
  destruct (bp_pair_invariant "BP: 150 / 95 mmHg")
    as (f & Hp & _ & Hascii & _ & Hyes).
  assert (Hpresent : systolic f <> None /\ diastolic f <> None).
  { apply (Hyes (chars "bp  ") (chars "150") (chars " ") (chars " ")
             (chars "95") (chars " mmhg")).
    - vm_compute. reflexivity.
    - vm_compute. auto.
    - vm_compute. auto.
    - reflexivity.
    - reflexivity. }
  assert (Hf : Ok f =
               Ok {| systolic := Some 150; diastolic := Some 95; sugar := None;
                     heart_rate := None; age := None; height := None;
                     weight := None; blood_group := None |}).
  { rewrite <- Hp. vm_compute. reflexivity. }
  exists f. split; [exact Hp|].
  destruct (Hascii eq_refl) as [[Hn _]|(pre & lab & mid & d1 & s1 & s2 & d2 &
                                        post & _ & _ & _ & _ & _ & H1 & H2)].
  - destruct Hpresent as [Hs _]. congruence.
  - injection Hf as Hf. rewrite Hf in H1, H2 |- *. cbn [systolic diastolic].
    split; reflexivity.
Defined.

(** C5. The echoed ["bp"] entry is tested by truth value, not by
    presence: on ["bp 00/80"] both readings are extracted (0 and 80),
    the rule ladder classifies them, and yet no ["bp"] string is
    returned. *)
Theorem bp_echo_drops_zero_reading :
  forall rf,
    (exists f,
       parse_medical_text "bp 00/80" = Ok f /\
       systolic f = Some 0 /\ diastolic f = Some 80) /\
    (exists a,
       analyze_risk rf ["bp 00/80"] = Ok a /\
       risk_level a = "Healthy" /\
       detected.bp (vitals_detected a) = None).
Proof.
  intros rf. split.
  - eexists. split; [vm_compute; reflexivity|]. split; reflexivity.
  - eexists. split; [vm_compute; reflexivity|]. split; reflexivity.
Qed.

(** C6. When the blood-pressure pair, the sugar and the age are all
    extracted, [analyze_risk] gives the classifier the vector
    [systolic, diastolic, sugar, heart rate or 72, age] and returns the
    name of the class it answers; for a classifier with the three
    classes 0, 1 and 2 that is Healthy, Warning or Critical, never
    ["Insufficient Data"]. *)
Theorem full_feature_strategy :
  forall rf recs f sys dia sug a,
    (forall x, 0 <= rf x <= 2) ->
    parse_medical_text (join_records recs) = Ok f ->
    systolic f = Some sys -> diastolic f = Some dia ->
    sugar f = Some sug -> age f = Some a ->
    exists r l,
      analyze_risk rf recs = Ok r /\
      rank l =
        rf [sys; dia; sug;
            match heart_rate f with Some hr => hr | None => 72 end; a] /\
      risk_level r = level_name l /\
      risk_level r <> "Insufficient Data".
Proof.
  intros rf recs f sys dia sug a Hrf Hp Hs Hd Hg Ha.
  rewrite (analyze_risk_parse rf recs f Hp).
  rewrite (risk_of_full rf f sys dia sug a Hs Hd Hg Ha).
  unfold feature_vector.
  set (v := [sys; dia; sug; _; a]). specialize (Hrf v).
  assert (Hl : exists l, rank l = rf v).
  { destruct (Z.eq_dec (rf v) 0) as [E|N0]; [exists Healthy; auto|].
    destruct (Z.eq_dec (rf v) 1) as [E|N1]; [exists Warning; auto|].
    exists Critical. simpl. lia. }
  destruct Hl as (l & Hl). rewrite <- Hl, status_map_level. cbn.
  eexists. exists l. repeat split. destruct l; discriminate.
Qed.

Lemma full_feature_strategy_witness :
  exists r l,
    analyze_risk by_systolic ["BP 150/90, sugar 200, age 45"] = Ok r /\
    rank l = by_systolic [150; 90; 200; 72; 45] /\
    risk_level r = level_name l /\
    risk_level r <> "Insufficient Data".
Proof.
  apply (full_feature_strategy by_systolic ["BP 150/90, sugar 200, age 45"]
           {| systolic := Some 150; diastolic := Some 90; sugar := Some 200;
              heart_rate := None; age := Some 45; height := None;
              weight := None; blood_group := None |} 150 90 200 45).
  - intros [|sys x]; unfold by_systolic; [lia|].
    destruct (150 <=? sys); [lia|]. destruct (130 <=? sys); lia.
  - vm_compute. reflexivity.
  - reflexivity.
  - reflexivity.
  - reflexivity.
  - reflexivity.
Defined.

(** C7. On the rule ladder, with the sugar and the age fixed, raising
    the systolic and diastolic readings never lowers the tier. *)
Theorem rule_ladder_monotone :
  forall rf recs1 recs2 f1 f2 s1 d1 s2 d2,
    parse_medical_text (join_records recs1) = Ok f1 ->
    parse_medical_text (join_records recs2) = Ok f2 ->
    partial_path f1 = true ->
    sugar f1 = sugar f2 -> age f1 = age f2 ->
    systolic f1 = Some s1 -> diastolic f1 = Some d1 ->
    systolic f2 = Some s2 -> diastolic f2 = Some d2 ->
    s1 <= s2 -> d1 <= d2 ->
    exists a1 a2 l1 l2,
      analyze_risk rf recs1 = Ok a1 /\ analyze_risk rf recs2 = Ok a2 /\
      risk_level a1 = level_name l1 /\ risk_level a2 = level_name l2 /\
      rank l1 <= rank l2.
Proof.
  intros rf recs1 recs2 f1 f2 s1 d1 s2 d2 Hp1 Hp2 Hpath Hsug Hage
    Hs1 Hd1 Hs2 Hd2 Hs Hd.
  assert (Hpath2 : partial_path f2 = true).
  { revert Hpath. unfold partial_path, full_path, has_bp, has_sugar, has_age.
    rewrite Hs1, Hd1, Hs2, Hd2, Hsug, Hage. auto. }
  rewrite (analyze_risk_parse rf recs1 f1 Hp1), (risk_of_partial rf f1 Hpath).
  rewrite (analyze_risk_parse rf recs2 f2 Hp2), (risk_of_partial rf f2 Hpath2).
  cbn. do 2 eexists. exists (ladder f1), (ladder f2).
  do 4 (split; [reflexivity|]).
  unfold ladder. rewrite Hs1, Hd1, Hs2, Hd2, Hsug.
  set (g := match sugar f2 with Some sug => sugar_level sug | None => Healthy end).
  unfold level_max, bp_level.
  destruct (180 <=? s1) eqn:A1, (120 <=? d1) eqn:B1, (140 <=? s1) eqn:C1,
    (90 <=? d1) eqn:D1, (180 <=? s2) eqn:A2, (120 <=? d2) eqn:B2,
    (140 <=? s2) eqn:C2, (90 <=? d2) eqn:D2;
    cbn [orb]; destruct g; cbn; try lia;
    rewrite ?Z.leb_le, ?Z.leb_gt in *; lia.
Qed.

Lemma rule_ladder_monotone_witness :
  exists a1 a2 l1 l2,
    analyze_risk always_healthy ["bp 135/85 sugar 150"] = Ok a1 /\
    analyze_risk always_healthy ["bp 185/95 sugar 150"] = Ok a2 /\
    risk_level a1 = level_name l1 /\ risk_level a2 = level_name l2 /\
    rank l1 <= rank l2.
Proof.
  apply (rule_ladder_monotone always_healthy
           ["bp 135/85 sugar 150"] ["bp 185/95 sugar 150"]
           {| systolic := Some 135; diastolic := Some 85; sugar := Some 150;
              heart_rate := None; age := None; height := None;
              weight := None; blood_group := None |}
           {| systolic := Some 185; diastolic := Some 95; sugar := Some 150;
              heart_rate := None; age := None; height := None;
              weight := None; blood_group := None |} 135 85 185 95).
  - vm_compute. reflexivity.
  - vm_compute. reflexivity.
  - reflexivity.
  - reflexivity.
  - reflexivity.
  - reflexivity.
  - reflexivity.
  - reflexivity.
  - reflexivity.
  - lia.
  - lia.
Defined.








(** C10 as stated fails: not any such letter is taken.  In ["O+ donor,
    vitamin b-12"] the letter [b] starts a word and is followed by a
    hyphen, yet the blood group is the O+ that comes first. *)
Lemma earlier_group_wins :
  (exists f,
     parse_medical_text "O+ donor, vitamin b-12" = Ok f /\
     blood_group f = Some "O+") /\
  ~ (forall f,
       parse_medical_text "O+ donor, vitamin b-12" = Ok f ->
       blood_group f = Some "B-").
Proof.
  split.
  - eexists. split; [vm_compute; reflexivity|reflexivity].
  - intros H.
    specialize (H _ (parse_medical_text_extracted "O+ donor, vitamin b-12")).
    vm_compute in H. discriminate.
Qed.

(** * Further results about [parse_medical_text] and [analyze_risk] *)

Module more_facts.

Lemma found_bound pat k s n :
  (forall m, search pat s = Some m ->
             exists ds, group m k = Some ds /\ is_digits 1 3 ds) ->
  found pat k s = Some n -> 0 <= n <= 999.
Proof.
  intros H. unfold found.
  destruct (search pat s) as [m|]; [|discriminate].
  destruct (H m eq_refl) as (ds & -> & [Hall Hlen]). cbn. intros [= <-].
  destruct (digits_value_bound ds Hall) as (H0 & _ & H1000); lia.
Qed.

Lemma bp_group_digits k s m :
  (k = 1 \/ k = 2)%nat ->
  search bp_pattern s = Some m ->
  exists ds, group m k = Some ds /\ is_digits 1 3 ds.
Proof.
  intros Hk Hm. destruct (bp_groups s m Hm) as (d1 & d2 & H1 & H2 & D1 & D2).
  destruct Hk as [-> | ->]; [exists d1|exists d2];
    (split; [assumption|]); apply (is_digits_weaken 2 3); auto.
Qed.

Lemma measured_group_digits U s m :
  plain U = true ->
  search (measured U) s = Some m ->
  exists ds, group m 1 = Some ds /\ is_digits 1 3 ds.
Proof.
  intros HU Hm. destruct (measured_group1 U s m HU Hm) as (ds & Hg & Hd).
  exists ds. split; [exact Hg|]. apply (is_digits_weaken 2 3); auto.
Qed.

(** Where the value of a labelled field comes from. *)
Lemma labelled_provenance L D s n :
  plain L = true -> plain D = true ->
  found (labelled L D) 1 s = Some n ->
  exists pre lab mid ds post,
    s = pre ++ lab ++ mid ++ ds ++ post /\
    lang L lab /\ forallb non_digit mid = true /\ lang D ds /\
    n = digits_value ds.
Proof.
  intros HL HD. unfold found.
  destruct (search (labelled L D) s) as [m|] eqn:Hm; [|discriminate].
  apply (search_labelled L D s m HL HD) in Hm.
  destruct Hm as (pre & lab & mid & ds & post & Hs & Hlab & Hmid & Hds & Hg & _).
  unfold group. rewrite Hg. cbn. intros [= <-].
  exists pre, lab, mid, ds, post. auto.
Qed.

Lemma analyze_risk_full rf recs f sys dia sug a :
  parse_medical_text (join_records recs) = Ok f ->
  systolic f = Some sys -> diastolic f = Some dia ->
  sugar f = Some sug -> age f = Some a ->
  analyze_risk rf recs =
  (risk_status <-
     status_map (rf [sys; dia; sug;
                     match heart_rate f with Some hr => hr | None => 72 end; a]) ;;
   Ok {| risk_level := risk_status; vitals_detected := echo f |}).
Proof.
  intros Hp Hs Hd Hg Ha.
  rewrite (analyze_risk_parse rf recs f Hp).
  rewrite (risk_of_full rf f sys dia sug a Hs Hd Hg Ha). reflexivity.
Qed.

Lemma status_map_classes i :
  0 <= i <= 2 -> exists l, status_map i = Ok (level_name l).
Proof.
  intros Hi.
  destruct (Z.eq_dec i 0) as [->|N0]; [exists Healthy; reflexivity|].
  destruct (Z.eq_dec i 1) as [->|N1]; [exists Warning; reflexivity|].
  assert (i = 2) as -> by lia. exists Critical. reflexivity.
Qed.

Lemma status_map_key_error i :
  ~ (0 <= i <= 2) -> status_map i = Raise KeyError.
Proof.
  intros Hi. unfold status_map.
  destruct (i =? 0) eqn:E0; [apply Z.eqb_eq in E0; lia|].
  destruct (i =? 1) eqn:E1; [apply Z.eqb_eq in E1; lia|].
  destruct (i =? 2) eqn:E2; [apply Z.eqb_eq in E2; lia|reflexivity].
Qed.

Lemma level_name_tier l : In (level_name l) tier_names.
Proof. destruct l; cbn; auto. Qed.

End more_facts.

Import more_facts.

(** X1. [parse_medical_text] never raises, and the numbers it returns
    are bounded by the widths of the patterns: the systolic, diastolic,
    sugar, heart-rate, height and weight readings lie between 0 and 999,
    the age between 0 and 99. *)
Theorem parse_medical_text_bounds :
  forall text_data,
    exists f,
      parse_medical_text text_data = Ok f /\
      (forall n,
         In (Some n)
            [systolic f; diastolic f; sugar f; heart_rate f; height f;
             weight f] ->
         0 <= n <= 999) /\
      (forall n, age f = Some n -> 0 <= n <= 99).
Proof.
  intros text_data. eexists.
  split; [apply parse_medical_text_extracted|].
  set (s := clean (chars text_data)). split.
  - intros n Hin. cbn [In extracted systolic diastolic sugar heart_rate
                          height weight] in Hin.
    destruct Hin as [H|[H|[H|[H|[H|[H|[]]]]]]].
    + apply (found_bound bp_pattern 1 s n); [|exact H].
      intros m. apply bp_group_digits. auto.
    + apply (found_bound bp_pattern 2 s n); [|exact H].
      intros m. apply bp_group_digits. auto.
    + apply (found_bound sugar_pattern 1 s n); [|exact H].
      intros m. apply sugar_group1.
    + apply (found_bound hr_pattern 1 s n); [|exact H].
      intros m. apply hr_group1.
    + apply (found_bound height_pattern 1 s n); [|exact H].
      intros m. apply (measured_group_digits height_units). reflexivity.
    + apply (found_bound weight_pattern 1 s n); [|exact H].
      intros m. apply (measured_group_digits weight_units). reflexivity.
  - intros n. cbn [extracted age]. unfold found.
    destruct (search age_pattern (clean (chars text_data))) as [m|] eqn:Hm;
      [|discriminate].
    destruct (age_group1 _ m Hm) as (ds & -> & [Hall Hlen]). cbn.
    intros [= <-].
    destruct (digits_value_bound ds Hall) as (H0 & H100 & _); [lia|].
    specialize (H100 (proj2 Hlen)). lia.
Qed.

Lemma parse_medical_text_bounds_witness :
  exists f,
    parse_medical_text "sugar 1234 weight 98765 kg" = Ok f /\
    sugar f = Some 123 /\ weight f = Some 765 /\ 0 <= 765 <= 999.
Proof.
  destruct (parse_medical_text_bounds "sugar 1234 weight 98765 kg")
    as (f & Hp & Hb & _).
  assert (Hf : Ok f =
               Ok {| systolic := None; diastolic := None; sugar := Some 123;
                     heart_rate := None; age := None; height := None;
                     weight := Some 765; blood_group := None |}).
  { rewrite <- Hp. vm_compute. reflexivity. }
  exists f. split; [exact Hp|]. injection Hf as Hf. rewrite Hf in Hb |- *.
  split; [reflexivity|]. split; [reflexivity|].
  apply (Hb 765). cbn. auto 10.
Defined.



(** X3. With a classifier that answers one of its three classes,
    [analyze_risk] never raises and its risk level is one of the four
    names; on the full-feature path an answer outside 0, 1, 2 is a
    [KeyError]. *)
Theorem analyze_risk_outcomes :
  (forall rf recs,
     (forall x, 0 <= rf x <= 2) ->
     exists a, analyze_risk rf recs = Ok a /\ In (risk_level a) tier_names) /\
  (forall rf recs f sys dia sug a,
     parse_medical_text (join_records recs) = Ok f ->
     systolic f = Some sys -> diastolic f = Some dia ->
     sugar f = Some sug -> age f = Some a ->
     ~ (0 <= rf [sys; dia; sug;
                 match heart_rate f with Some hr => hr | None => 72 end; a]
        <= 2) ->
     analyze_risk rf recs = Raise KeyError).
Proof.
  split.
  - intros rf recs Hrf.
    pose proof (parse_medical_text_extracted (join_records recs)) as Hp.
    set (f := extracted _) in Hp. clearbody f.
    rewrite (analyze_risk_parse rf recs f Hp).
    destruct (full_path f) eqn:Hfull.
    + destruct (full_path_inv f Hfull)
        as (sys & dia & sug & a & Hs & Hd & Hg & Ha).
      rewrite (risk_of_full rf f sys dia sug a Hs Hd Hg Ha).
      destruct (status_map_classes _ (Hrf (feature_vector sys dia sug a
                                             (heart_rate f)))) as (l & ->).
      eexists. split; [reflexivity|]. apply level_name_tier.
    + destruct (has_bp f || has_sugar f) eqn:Hany.
      * rewrite risk_of_partial
          by (unfold partial_path; rewrite Hfull, Hany; reflexivity).
        eexists. split; [reflexivity|]. apply level_name_tier.
      * apply orb_false_iff in Hany. destruct Hany as [Hb Hs].
        rewrite (risk_of_insufficient rf f Hb Hs).
        eexists. split; [reflexivity|]. cbn. auto.
  - intros rf recs f sys dia sug a Hp Hs Hd Hg Ha Hout.
    rewrite (analyze_risk_full rf recs f sys dia sug a Hp Hs Hd Hg Ha).
    rewrite (status_map_key_error _ Hout). reflexivity.
Qed.

Lemma analyze_risk_outcomes_witness :
  (exists a,
     analyze_risk by_systolic ["BP 150/90, sugar 200, age 45"] = Ok a /\
     In (risk_level a) tier_names) /\
  analyze_risk (fun _ => 7) ["BP 150/90, sugar 200, age 45"] = Raise KeyError.
Proof.
  split.
  - apply (proj1 analyze_risk_outcomes by_systolic).
    intros [|sys x]; unfold by_systolic; [lia|].
    destruct (150 <=? sys); [lia|]. destruct (130 <=? sys); lia.
  - apply (proj2 analyze_risk_outcomes (fun _ => 7)
             ["BP 150/90, sugar 200, age 45"]
             {| systolic := Some 150; diastolic := Some 90; sugar := Some 200;
                heart_rate := None; age := Some 45; height := None;
                weight := None; blood_group := None |} 150 90 200 45).
    + vm_compute. reflexivity.
    + reflexivity.
    + reflexivity.
    + reflexivity.
    + reflexivity.
    + lia.
Defined.

(** X4. On the rule ladder, with the blood pressure fixed, raising the
    sugar never lowers the tier. *)
Theorem rule_ladder_monotone_sugar :
  forall rf recs1 recs2 f1 f2 g1 g2,
    parse_medical_text (join_records recs1) = Ok f1 ->
    parse_medical_text (join_records recs2) = Ok f2 ->
    partial_path f1 = true -> partial_path f2 = true ->
    systolic f1 = systolic f2 -> diastolic f1 = diastolic f2 ->
    sugar f1 = Some g1 -> sugar f2 = Some g2 -> g1 <= g2 ->
    exists a1 a2 l1 l2,
      analyze_risk rf recs1 = Ok a1 /\ analyze_risk rf recs2 = Ok a2 /\
      risk_level a1 = level_name l1 /\ risk_level a2 = level_name l2 /\
      rank l1 <= rank l2.
Proof.
  intros rf recs1 recs2 f1 f2 g1 g2 Hp1 Hp2 Hpath1 Hpath2 Hsys Hdia
    Hg1 Hg2 Hle.
  rewrite (analyze_risk_parse rf recs1 f1 Hp1), (risk_of_partial rf f1 Hpath1).
  rewrite (analyze_risk_parse rf recs2 f2 Hp2), (risk_of_partial rf f2 Hpath2).
  cbn. do 2 eexists. exists (ladder f1), (ladder f2).
  do 4 (split; [reflexivity|]).
  unfold ladder. rewrite Hsys, Hdia, Hg1, Hg2.
  set (b := match systolic f2 with
            | Some sys =>
                match diastolic f2 with
                | Some dia => bp_level sys dia
                | None => Healthy
                end
            | None => Healthy
            end).
  unfold level_max, sugar_level.
  destruct (200 <=? g1) eqn:A1, (140 <=? g1) eqn:B1, (200 <=? g2) eqn:A2,
    (140 <=? g2) eqn:B2; destruct b; cbn; try lia;
    rewrite ?Z.leb_le, ?Z.leb_gt in *; lia.
Qed.

Lemma rule_ladder_monotone_sugar_witness :
  exists a1 a2 l1 l2,
    analyze_risk always_healthy ["bp 120/80 sugar 130"] = Ok a1 /\
    analyze_risk always_healthy ["bp 120/80 sugar 210"] = Ok a2 /\
    risk_level a1 = level_name l1 /\ risk_level a2 = level_name l2 /\
    rank l1 <= rank l2.
Proof.
  apply (rule_ladder_monotone_sugar always_healthy
           ["bp 120/80 sugar 130"] ["bp 120/80 sugar 210"]
           {| systolic := Some 120; diastolic := Some 80; sugar := Some 130;
              heart_rate := None; age := None; height := None;
              weight := None; blood_group := None |}
           {| systolic := Some 120; diastolic := Some 80; sugar := Some 210;
              heart_rate := None; age := None; height := None;
              weight := None; blood_group := None |} 130 210).
  - vm_compute. reflexivity.
  - vm_compute. reflexivity.
  - reflexivity.
  - reflexivity.
  - reflexivity.
  - reflexivity.
  - reflexivity.
  - reflexivity.
  - lia.
Defined.

(** X5. What the rule ladder does not look at: two extractions on the
    partial path with the same blood pressure and sugar get the same
    tier whatever their heart rate, age, height, weight and blood group;
    and readings are never flagged for being low -- below 140/90 and
    below 140 the tier is Healthy however small the values. *)
Theorem rule_ladder_blind_spots :
  (forall rf recs1 recs2 f1 f2,
     parse_medical_text (join_records recs1) = Ok f1 ->
     parse_medical_text (join_records recs2) = Ok f2 ->
     partial_path f1 = true -> partial_path f2 = true ->
     systolic f1 = systolic f2 -> diastolic f1 = diastolic f2 ->
     sugar f1 = sugar f2 ->
     exists a1 a2,
       analyze_risk rf recs1 = Ok a1 /\ analyze_risk rf recs2 = Ok a2 /\
       risk_level a1 = risk_level a2) /\
  (forall rf recs f,
     parse_medical_text (join_records recs) = Ok f ->
     partial_path f = true ->
     (forall sys, systolic f = Some sys -> sys < 140) ->
     (forall dia, diastolic f = Some dia -> dia < 90) ->
     (forall sug, sugar f = Some sug -> sug < 140) ->
     exists a, analyze_risk rf recs = Ok a /\ risk_level a = "Healthy").
Proof.
  split.
  - intros rf recs1 recs2 f1 f2 Hp1 Hp2 Hpath1 Hpath2 Hsys Hdia Hsug.
    rewrite (analyze_risk_parse rf recs1 f1 Hp1), (risk_of_partial rf f1 Hpath1).
    rewrite (analyze_risk_parse rf recs2 f2 Hp2), (risk_of_partial rf f2 Hpath2).
    cbn. do 2 eexists. do 2 (split; [reflexivity|]). cbn.
    unfold ladder. rewrite Hsys, Hdia, Hsug. reflexivity.
  - intros rf recs f Hp Hpath Hsys Hdia Hsug.
    rewrite (analyze_risk_parse rf recs f Hp), (risk_of_partial rf f Hpath).
    cbn. eexists. split; [reflexivity|]. cbn.
    assert (Hl : ladder f = Healthy); [|rewrite Hl; reflexivity].
    unfold ladder, bp_level, sugar_level.
    destruct (systolic f) as [sys|], (diastolic f) as [dia|],
      (sugar f) as [sug|];
      repeat match goal with
             | H : forall x, Some ?v = Some x -> _ |- _ =>
                 specialize (H v eq_refl)
             end;
      repeat match goal with
             | |- context [?a <=? ?b] =>
                 let E := fresh "E" in
                 destruct (a <=? b) eqn:E;
                 [apply Z.leb_le in E; lia|]
             end; reflexivity.
Qed.

Lemma rule_ladder_blind_spots_witness :
  exists a,
    analyze_risk always_healthy ["bp 60/35 sugar 20"] = Ok a /\
    risk_level a = "Healthy".
Proof.
  apply (proj2 rule_ladder_blind_spots always_healthy ["bp 60/35 sugar 20"]
           {| systolic := Some 60; diastolic := Some 35; sugar := Some 20;
              heart_rate := None; age := None; height := None;
              weight := None; blood_group := None |}).
  - vm_compute. reflexivity.
  - reflexivity.
  - intros sys [= <-]. lia.
  - intros dia [= <-]. lia.
  - intros sug [= <-]. lia.
Defined.

(** ** The values of the blood group *)

Module blood_group_values_facts.

Lemma upper_abo c :
  is_abo c = true ->
  (lower_char c = "a"%char -> upper_char c = "A"%char) /\
  (lower_char c = "b"%char -> upper_char c = "B"%char) /\
  (lower_char c = "o"%char -> upper_char c = "O"%char).
Proof. each_char c; cbn; intros H; try discriminate; repeat split; intros E; try discriminate; reflexivity. Qed.

Lemma upper_space c : is_space c = true -> upper_char c = c.
Proof. each_char c; cbn; intros H; try discriminate; reflexivity. Qed.

Lemma upper_letters_i g :
  In (lower g) group_letters -> In (upper g) group_names.
Proof.
  intros H. apply letters_shape in H.
  destruct H as [(x & -> & H)|(x & y & -> & Hx & Hy)].
  - destruct (upper_abo x H) as (Ha & Hb & Ho).
    unfold is_abo in H. apply orb_true_iff in H.
    destruct H as [H|H]; [apply orb_true_iff in H; destruct H as [H|H]|];
      apply Ascii.eqb_eq in H; cbn.
    + rewrite (Ha H). auto.
    + rewrite (Hb H). auto.
    + rewrite (Ho H). auto 6.
  - assert (Ax : is_abo x = true) by (unfold is_abo; rewrite Hx; reflexivity).
    assert (Ay : is_abo y = true) by (unfold is_abo; rewrite Hy; reflexivity).
    destruct (upper_abo x Ax) as (Ha & _). destruct (upper_abo y Ay) as (_ & Hb & _).
    cbn. rewrite (Ha Hx), (Hb Hy). auto 6.
Qed.

Lemma upper_letters g : In g group_letters -> In (upper g) group_names.
Proof.
  unfold group_letters. cbn [In].
  intros [<-|[<-|[<-|[<-|[]]]]]; cbn; auto 6.
Qed.

Lemma named_group L sg :
  In L group_names -> (sg = chars "+" \/ sg = chars "-") ->
  In (string_of_list_ascii (L ++ sg)) blood_groups.
Proof.
  unfold group_names. cbn [In].
  intros [<-|[<-|[<-|[<-|[]]]]] [-> | ->]; cbn; auto 10.
Qed.

Lemma remove_space_app a b :
  remove_char " " (a ++ b) = remove_char " " a ++ remove_char " " b.
Proof. unfold remove_char. apply filter_app. Qed.

Lemma upper_app a b : upper (a ++ b) = upper a ++ upper b.
Proof. unfold upper. apply map_app. Qed.

Lemma upper_sign sg :
  (sg = chars "+" \/ sg = chars "-") ->
  remove_char " " (upper sg) = sg.
Proof. intros [-> | ->]; reflexivity. Qed.

(** What the adjacent-sign rule stores for a reading [g ++ sp ++ sg]. *)
Lemma adjacent_value g sp sg :
  In (lower g) group_letters ->
  (sp = [] \/ exists c, sp = [c] /\ is_space c = true) ->
  (sg = chars "+" \/ sg = chars "-") ->
  remove_char " " (upper (g ++ sp ++ sg)) =
  upper g ++ filter odd_blank sp ++ sg.
Proof.
  intros Hg Hsp Hsg.
  destruct (letters_facts g Hg) as (_ & Hgu & _).
  rewrite !upper_app, !remove_space_app, Hgu, (upper_sign sg Hsg).
  f_equal. f_equal.
  destruct Hsp as [-> | (c & -> & Hc)]; [reflexivity|].
  cbn. rewrite (upper_space c Hc). unfold odd_blank. rewrite Hc. cbn.
  destruct (Ascii.eqb c " "); reflexivity.
Qed.

End blood_group_values_facts.

Import blood_group_values_facts.



(** ** The number in front of a unit *)

Module unit_facts.

Lemma digit_not_space c : is_digit c = true -> is_space c = false.
Proof. each_char c; cbn; intros H; try discriminate; reflexivity. Qed.

Lemma forallb_not_char (p : ascii -> bool) c0 xs :
  p c0 = false -> forallb p xs = true -> forallb (not_char c0) xs = true.
Proof.
  intros H0. induction xs as [|x xs IH]; [reflexivity|].
  simpl. intros H. apply andb_true_iff in H. destruct H as [Hx Hxs].
  rewrite (IH Hxs), andb_true_r. unfold not_char.
  destruct (Ascii.eqb x c0) eqn:E; [|reflexivity].
  apply Ascii.eqb_eq in E. congruence.
Qed.

Lemma forallb_rev (p : ascii -> bool) xs :
  forallb p (rev xs) = forallb p xs.
Proof.
  induction xs as [|x xs IH]; [reflexivity|].
  simpl. rewrite forallb_app, IH. simpl. rewrite andb_true_r. apply andb_comm.
Qed.

Lemma not_char_self c0 : not_char c0 c0 = false.
Proof. unfold not_char. rewrite Ascii.eqb_refl. reflexivity. Qed.

Section Measured.
Variable U : regex.
Variable c0 : ascii.
Hypothesis plain_U : plain U = true.
(** Every unit word starts with [c0], which is neither a digit nor a
    blank. *)
Hypothesis unit_first : forall x, lang U x -> exists x', x = c0 :: x'.
Hypothesis c0_no_digit : is_digit c0 = false.
Hypothesis c0_no_space : is_space c0 = false.

Lemma measured_reading pre ds sp u post :
  forallb (not_char c0) pre = true ->
  unit_digits pre ds -> forallb is_space sp = true -> lang U u ->
  found (measured U) 1 (pre ++ ds ++ sp ++ u ++ post) =
  Some (digits_value ds).
Proof.
  intros Hpre [Hds Hfit] Hsp Hu.
  set (s := pre ++ ds ++ sp ++ u ++ post).
  assert (Hex : matches (measured U) (rev pre, ds ++ sp ++ u ++ post) []
                  (rev (ds ++ sp ++ u) ++ rev pre, post) [(1%nat, ds)]).
  { apply (matches_measured U plain_U). exists ds, sp, u.
    do 3 (split; [assumption|]). split; [|reflexivity].
    split; cbn [fst snd]; [rewrite <- !app_assoc|]; reflexivity. }
  unfold found.
  destruct (search (measured U) s) as [m|] eqn:Hsearch.
  2:{ exfalso. exact (search_finds _ _ _ _ _ Hex Hsearch). }
  pose proof Hsearch as Hgroup.
  apply (search_measured U s m plain_U) in Hgroup.
  apply search_leftmost in Hsearch.
  destruct Hsearch as (ys & rest & Hs & Hat & Hleft).
  destruct (leftmost_before _ s m ys rest pre _ _ _ Hs eq_refl Hleft Hat Hex)
    as (z & Hpre_eq & Hrest).
  apply match_at_some in Hat. destruct Hat as (st' & Hm & _).
  apply (matches_measured U plain_U) in Hm.
  destruct Hm as (ds' & sp' & u' & Hds' & Hsp' & Hu' & [Rs _] & Hg).
  cbn [fst snd] in Rs.
  destruct (unit_first u Hu) as (u0 & ->).
  destruct (unit_first u' Hu') as (u0' & ->).
  assert (Hz : forallb (not_char c0) z = true).
  { rewrite Hpre_eq, forallb_app in Hpre.
    apply andb_true_iff in Hpre. tauto. }
  (* the two readings stop at the same first letter of the unit *)
  assert (Hcut : z ++ ds ++ sp = ds' ++ sp').
  { assert (Heq : (z ++ ds ++ sp) ++ c0 :: (u0 ++ post) =
                  (ds' ++ sp') ++ c0 :: (u0' ++ snd st')).
    { rewrite <- !app_assoc. cbn [app] in Hrest, Rs.
      rewrite <- !app_assoc in Rs. cbn [app] in Rs.
      rewrite <- Hrest, Rs. reflexivity. }
    apply (first_stop_unique (not_char c0)) in Heq; [tauto| | | |].
    - rewrite !forallb_app, Hz.
      rewrite (forallb_not_char is_digit c0 ds c0_no_digit (proj1 Hds)).
      rewrite (forallb_not_char is_space c0 sp c0_no_space Hsp). reflexivity.
    - rewrite !forallb_app.
      rewrite (forallb_not_char is_digit c0 ds' c0_no_digit (proj1 Hds')).
      rewrite (forallb_not_char is_space c0 sp' c0_no_space Hsp').
      reflexivity.
    - apply not_char_self.
    - apply not_char_self. }
  (* and, read backwards, at the same last digit *)
  assert (Hdig : ds' = z ++ ds).
  { apply (f_equal (@rev ascii)) in Hcut.
    rewrite !rev_app_distr in Hcut.
    destruct Hds as [Hall Hlen]. destruct Hds' as [Hall' Hlen'].
    destruct (rev ds) as [|c r1] eqn:Er.
    { apply (f_equal (@List.length ascii)) in Er.
      rewrite length_rev in Er. simpl in Er. lia. }
    destruct (rev ds') as [|c' r2] eqn:Er'.
    { apply (f_equal (@List.length ascii)) in Er'.
      rewrite length_rev in Er'. simpl in Er'. lia. }
    assert (Hc : is_space c = false).
    { apply digit_not_space. rewrite <- forallb_rev, Er in Hall.
      simpl in Hall. apply andb_true_iff in Hall. tauto. }
    assert (Hc' : is_space c' = false).
    { apply digit_not_space. rewrite <- forallb_rev, Er' in Hall'.
      simpl in Hall'. apply andb_true_iff in Hall'. tauto. }
    rewrite <- !app_assoc in Hcut. cbn [app] in Hcut.
    apply (first_stop_unique is_space) in Hcut;
      [|rewrite forallb_rev; assumption|rewrite forallb_rev; assumption
       |assumption|assumption].
    destruct Hcut as (_ & <- & Hr).
    apply (f_equal (@rev ascii)) in Er'. rewrite rev_involutive in Er'.
    rewrite Er', <- Hr. cbn [rev]. rewrite rev_app_distr, rev_involutive.
    rewrite <- app_assoc. f_equal.
    apply (f_equal (@rev ascii)) in Er. rewrite rev_involutive in Er.
    rewrite Er. reflexivity. }
  assert (Hznil : z = []).
  { destruct Hds as [Hall Hlen]. destruct Hds' as [Hall' Hlen'].
    rewrite Hdig, length_app in Hlen'.
    destruct z as [|z0 z]; [reflexivity|exfalso].
    simpl in Hlen'. destruct Hfit as [H3|Hlast]; [lia|].
    assert (z = []) as -> by (destruct z; [reflexivity|simpl in Hlen'; lia]).
    unfold no_digit_last in Hlast. rewrite Hpre_eq, rev_app_distr in Hlast.
    cbn in Hlast. rewrite Hdig in Hall'. simpl in Hall'.
    apply andb_true_iff in Hall'. destruct Hall' as [Hz0 _]. congruence. }
  subst z. cbn [app] in Hdig. subst ds'.
  unfold group. rewrite Hg. reflexivity.
Qed.
End Measured.

Lemma lang_height_units u :
  lang height_units u <-> u = chars "cm" \/ u = chars "centimeters".
Proof. unfold height_units, w. cbn [lang]. rewrite !lang_word. reflexivity. Qed.

Lemma lang_weight_units u :
  lang weight_units u <-> u = chars "kg" \/ u = chars "kilograms".
Proof. unfold weight_units, w. cbn [lang]. rewrite !lang_word. reflexivity. Qed.

(** Where the value of a measured field comes from. *)
Lemma measured_provenance U s n :
  plain U = true ->
  found (measured U) 1 s = Some n ->
  exists pre ds sp u post,
    s = pre ++ ds ++ sp ++ u ++ post /\
    is_digits 2 3 ds /\ forallb is_space sp = true /\ lang U u /\
    n = digits_value ds.
Proof.
  intros HU. unfold found.
  destruct (search (measured U) s) as [m|] eqn:Hm; [|discriminate].
  apply (search_measured U s m HU) in Hm.
  destruct Hm as (pre & ds & sp & u & post & Hs & Hds & Hsp & Hu & Hg).
  unfold group. rewrite Hg. cbn. intros [= <-].
  exists pre, ds, sp, u, post. auto.
Qed.

End unit_facts.

Import unit_facts.



(** * Results about the callers *)

Module caller_facts.

Lemma clean_char_idempotent c : clean_char (clean_char c) = clean_char c.
Proof. each_char c; reflexivity. Qed.

Lemma clean_idempotent raw : clean (clean raw) = clean raw.
Proof.
  rewrite !clean_map, map_map. apply map_ext. apply clean_char_idempotent.
Qed.

Lemma chars_of_string l : chars (string_of_list_ascii l) = l.
Proof. apply list_ascii_of_string_of_list_ascii. Qed.

(** The fields of the timeline do not change when the text is cleaned
    before it is parsed. *)
Lemma entry_precleaned record :
  main.entry_of record
    (extracted (chars (string_of_list_ascii
                         (clean (chars (history.text record)))))) =
  main.entry_of record (extracted (chars (history.text record))) /\
  main.key_metric_found
    (extracted (chars (string_of_list_ascii
                         (clean (chars (history.text record)))))) =
  main.key_metric_found (extracted (chars (history.text record))).
Proof.
  rewrite chars_of_string.
  unfold main.entry_of, main.key_metric_found, extracted.
  cbn [systolic diastolic sugar heart_rate weight].
  rewrite clean_idempotent. split; reflexivity.
Qed.

Lemma trends_loop_filter history :
  forall timeline,
    main.trends_loop history timeline =
    Ok (timeline ++ map entry_as_stored (filter kept history)).
Proof.
  induction history as [|record rest IH]; intros timeline.
  - cbn. rewrite app_nil_r. reflexivity.
  - assert (Hkept : kept record =
                    main.key_metric_found
                      (extracted (chars (history.text record)))).
    { unfold kept. rewrite parse_medical_text_extracted. reflexivity. }
    assert (Hentry : entry_as_stored record =
                     main.entry_of record
                       (extracted (chars (history.text record)))).
    { unfold entry_as_stored. rewrite parse_medical_text_extracted.
      reflexivity. }
    cbn [main.trends_loop filter].
    rewrite parse_medical_text_extracted. cbn [bind].
    destruct (entry_precleaned record) as [He Hk]. rewrite He, Hk, IH, Hkept.
    destruct (main.key_metric_found
                (extracted (chars (history.text record)))); cbn [map].
    + rewrite Hentry, <- app_assoc. reflexivity.
    + reflexivity.
Qed.

Lemma texts_of_nonempty data :
  Forall (fun s => s <> EmptyString) (app.texts_of data).
Proof.
  unfold app.texts_of. induction data as [|item data IH]; [constructor|].
  cbn [flat_map]. apply Forall_app. split; [|exact IH].
  destruct item as [s|]; [|constructor]. cbn.
  destruct (String.eqb s "") eqn:E; cbn; [constructor|].
  constructor; [|constructor]. intros ->. discriminate.
Qed.

End caller_facts.

Import caller_facts.


(** X9. [analyze_health] of [app.py] runs the engine only on a list
    that is not empty and holds no empty text: the texts of the chunk
    rows, or those of the record rows when there is no chunk row at all.
    It answers that no records were found exactly when both queries are
    empty; chunk rows without text end in the other failure even when
    the record rows have text. *)
Theorem app_analyze_health_inputs :
  forall rf chunks records,
    (app.analyze_health rf chunks records =
       app.Failure "No medical records found for analysis" <->
     chunks = [] /\ records = []) /\
    (forall a,
       app.analyze_health rf chunks records = app.Prediction a ->
       exists text_records,
         text_records =
           app.texts_of (match chunks with [] => records | _ => chunks end) /\
         text_records <> [] /\
         Forall (fun s => s <> EmptyString) text_records /\
         analyze_risk rf text_records = Ok a) /\
    (chunks <> [] -> app.texts_of chunks = [] ->
     app.analyze_health rf chunks records =
       app.Failure "Records exist but contain no text.").
Proof.
  intros rf chunks records. unfold app.analyze_health.
  split; [|split].
  - split.
    + destruct chunks as [|c chunks]; [destruct records as [|r records]|];
        [auto| |];
        match goal with
        | |- context [app.texts_of ?l] =>
            destruct (app.texts_of l) as [|t ts]; [discriminate|];
            destruct (analyze_risk rf (t :: ts)); discriminate
        end.
    + intros [-> ->]. reflexivity.
  - intros a H.
    assert (Hrun : forall l,
      match app.texts_of l with
      | [] => app.Failure "Records exist but contain no text."
      | _ :: _ =>
          match analyze_risk rf (app.texts_of l) with
          | Ok analysis_result => app.Prediction analysis_result
          | Raise e => app.ServerError e
          end
      end = app.Prediction a ->
      app.texts_of l <> [] /\ analyze_risk rf (app.texts_of l) = Ok a).
    { intros l Hl. destruct (app.texts_of l) as [|t ts]; [discriminate|].
      split; [discriminate|].
      destruct (analyze_risk rf (t :: ts)); [|discriminate].
      injection Hl as ->. reflexivity. }
    destruct chunks as [|c chunks]; [destruct records as [|r records]|].
    + discriminate.
    + destruct (Hrun (r :: records) H) as [Hne Ha].
      exists (app.texts_of (r :: records)).
      split; [reflexivity|]. split; [exact Hne|].
      split; [apply texts_of_nonempty|exact Ha].
    + destruct (Hrun (c :: chunks) H) as [Hne Ha].
      exists (app.texts_of (c :: chunks)).
      split; [reflexivity|]. split; [exact Hne|].
      split; [apply texts_of_nonempty|exact Ha].
  - intros Hne Hnil. destruct chunks as [|c chunks]; [congruence|].
    rewrite Hnil. reflexivity.
Qed.

Lemma app_analyze_health_inputs_witness :
  app.analyze_health always_healthy [Some EmptyString; None]
    [Some "bp 150/95"%string] =
  app.Failure "Records exist but contain no text.".
Proof.
  apply (proj2 (proj2 (app_analyze_health_inputs always_healthy
                         [Some EmptyString; None] [Some "bp 150/95"%string]))).
  - discriminate.
  - reflexivity.
Defined.

(** ** The merge of the values of the language model *)

Module merge_facts.

Lemma star_greedy_all {A : Type} (p : ascii -> bool) (k : state -> option A) :
  (forall st, k st <> None) ->
  forall xs pre suf,
    forallb p xs = true ->
    match suf with c :: _ => p c = false | [] => True end ->
    star_greedy p k pre (xs ++ suf) = k (rev xs ++ pre, suf).
Proof.
  intros Hk. induction xs as [|x xs IH]; intros pre suf Hall Hsuf.
  - cbn [app rev]. destruct suf as [|c suf]; cbn [star_greedy];
      [reflexivity|]. rewrite Hsuf. reflexivity.
  - cbn [forallb] in Hall. apply andb_true_iff in Hall.
    destruct Hall as [Hx Hall].
    cbn [app star_greedy]. rewrite Hx, (IH (x :: pre) suf Hall Hsuf).
    cbn [rev]. rewrite <- app_assoc. cbn [app].
    destruct (k (rev xs ++ x :: pre, suf)) eqn:E; [reflexivity|].
    exfalso. exact (Hk _ E).
Qed.

Lemma search_digits_skip pre :
  forall acc rest,
    forallb non_digit pre = true ->
    search_from (plus is_digit) acc (pre ++ rest) =
    search_from (plus is_digit) (rev pre ++ acc) rest.
Proof.
  induction pre as [|c pre IH]; intros acc rest Hpre; [reflexivity|].
  cbn [forallb] in Hpre. apply andb_true_iff in Hpre.
  destruct Hpre as [Hc Hpre]. unfold non_digit in Hc.
  apply negb_true_iff in Hc.
  cbn [app search_from]. unfold match_at at 1, plus at 1.
  cbn [run fst snd]. rewrite Hc.
  rewrite (IH (c :: acc) rest Hpre). cbn [rev]. rewrite <- app_assoc.
  reflexivity.
Qed.

Lemma search_from_found r pre suf m :
  match_at r (pre, suf) = Some m -> search_from r pre suf = Some m.
Proof. intros H. destruct suf; cbn [search_from]; rewrite H; reflexivity. Qed.

Lemma match_at_digits acc ds post :
  ds <> [] -> forallb is_digit ds = true -> no_digit_next post ->
  match_at (plus is_digit) (acc, ds ++ post) =
  Some {| group0 := ds; groups := [] |}.
Proof.
  intros Hne Hds Hpost.
  destruct ds as [|d1 ds]; [congruence|].
  cbn [forallb] in Hds. apply andb_true_iff in Hds. destruct Hds as [H1 Hds].
  unfold match_at, plus. cbn [app run fst snd]. rewrite H1.
  rewrite star_greedy_all;
    [|intros st H; discriminate H|exact Hds|exact Hpost].
  pose proof (consumed_app acc (d1 :: ds) (d1 :: ds ++ post) post) as Hc.
  cbn [rev] in Hc. rewrite <- app_assoc in Hc. cbn [app] in Hc.
  rewrite Hc. reflexivity.
Qed.

Lemma first_number_run pre ds post :
  forallb non_digit pre = true ->
  ds <> [] -> forallb is_digit ds = true -> no_digit_next post ->
  main.first_number (pre ++ ds ++ post) = Some ds.
Proof.
  intros Hpre Hne Hds Hpost. unfold main.first_number, search.
  rewrite (search_digits_skip pre [] (ds ++ post) Hpre), app_nil_r.
  rewrite (search_from_found _ _ _ _ (match_at_digits (rev pre) ds post Hne Hds Hpost)).
  reflexivity.
Qed.

Lemma first_number_none s :
  forallb non_digit s = true -> main.first_number s = None.
Proof.
  intros Hs. unfold main.first_number, search.
  rewrite <- (app_nil_r s), (search_digits_skip s [] [] Hs). reflexivity.
Qed.

Lemma vkey_eqb_eq a b : main.vkey_eqb a b = true <-> a = b.
Proof. destruct a, b; cbn; split; intros H; congruence. Qed.

Lemma vkey_eqb_refl a : main.vkey_eqb a a = true.
Proof. destruct a; reflexivity. Qed.

Section Merge.
Variable json : Type.
Variable json_truth : json -> bool.
Variable json_str : json -> text.
Variable limit : nat.

Abbreviation update := (main.update_if_missing json json_truth json_str limit).
Abbreviation merge := (main.merge_vitals json json_truth json_str limit).
Abbreviation truth := (main.cell_truth json json_truth).

Lemma store_same key c (d : main.vitals json) : main.store json key c d key = c.
Proof. unfold main.store. rewrite vkey_eqb_refl. reflexivity. Qed.

Lemma store_other key c (d : main.vitals json) k :
  k <> key -> main.store json key c d k = d k.
Proof.
  intros Hk. unfold main.store.
  destruct (main.vkey_eqb k key) eqn:E; [|reflexivity].
  apply vkey_eqb_eq in E. congruence.
Qed.

Lemma update_other key val d k :
  k <> key -> update key val d k = d k.
Proof.
  intros Hk. unfold main.update_if_missing.
  destruct val as [v|]; [|reflexivity].
  destruct (negb (truth (d key)) && json_truth v); [|reflexivity].
  destruct (main.numeric_key key).
  - destruct (main.first_number (json_str v)); [|reflexivity].
    destruct (main.int_limited limit l); [|reflexivity].
    apply store_other, Hk.
  - apply store_other, Hk.
Qed.

Lemma update_local key val d1 d2 :
  d1 key = d2 key -> update key val d1 key = update key val d2 key.
Proof.
  intros H. unfold main.update_if_missing. rewrite H.
  destruct val as [v|]; [|exact H].
  destruct (negb (truth (d2 key)) && json_truth v); [|exact H].
  destruct (main.numeric_key key); [|rewrite !store_same; reflexivity].
  destruct (main.first_number (json_str v)); [|exact H].
  destruct (main.int_limited limit l); [rewrite !store_same; reflexivity|exact H].
Qed.

(** Each key is decided by its own call. *)
Lemma merge_at g d k :
  merge g d k =
  if main.vkey_eqb k main.key_height then d k else update k (g k) d k.
Proof.
  unfold main.merge_vitals.
  destruct k; cbn [main.vkey_eqb];
    repeat (rewrite update_other by discriminate);
    try reflexivity;
    apply update_local; repeat (rewrite update_other by discriminate);
    reflexivity.
Qed.

Lemma update_kept key val d :
  truth (d key) = true -> update key val d key = d key.
Proof.
  intros H. unfold main.update_if_missing.
  destruct val as [v|]; [|reflexivity]. rewrite H. reflexivity.
Qed.

(** What one call leaves under its key. *)
Lemma update_cases key val d :
  update key val d key = d key \/
  (truth (d key) = false /\
   ((main.numeric_key key = true /\ exists n, update key val d key = main.Int n) \/
    (main.numeric_key key = false /\
     exists v, json_truth v = true /\ update key val d key = main.Json v))).
Proof.
  unfold main.update_if_missing.
  destruct val as [v|]; [|auto].
  destruct (truth (d key)) eqn:Ht; [auto|].
  destruct (json_truth v) eqn:Hv; [|auto]. cbn [negb andb].
  destruct (main.numeric_key key).
  - destruct (main.first_number (json_str v)); [|auto].
    destruct (main.int_limited limit l); [|auto].
    right. split; [reflexivity|]. left. split; [reflexivity|].
    eexists. apply store_same.
  - right. split; [reflexivity|]. right. split; [reflexivity|].
    exists v. split; [exact Hv|apply store_same].
Qed.

(** On a key that holds nothing, what a call does depends on the
    value offered alone. *)
Lemma update_falsy key val d d' :
  truth (d key) = false -> truth (d' key) = false ->
  (update key val d key = d key /\ update key val d' key = d' key) \/
  update key val d key = update key val d' key.
Proof.
  intros Ht Ht'. unfold main.update_if_missing.
  destruct val as [v|]; [|auto]. rewrite Ht, Ht'. cbn [negb andb].
  destruct (json_truth v); [|auto].
  destruct (main.numeric_key key).
  - destruct (main.first_number (json_str v)) as [l|]; [|auto].
    destruct (main.int_limited limit l) as [m|]; [|auto].
    right. rewrite !store_same. reflexivity.
  - right. rewrite !store_same. reflexivity.
Qed.

Lemma update_twice key val d :
  update key val (update key val d) key = update key val d key.
Proof.
  destruct (truth (update key val d key)) eqn:T.
  - apply update_kept, T.
  - destruct (truth (d key)) eqn:T0.
    + apply update_local, update_kept, T0.
    + destruct (update_falsy key val d (update key val d) T0 T)
        as [[_ E]|E]; [exact E|symmetry; exact E].
Qed.

End Merge.

End merge_facts.

(** X10.  In the merge of [analyze_health] (main.py) a value that
    [analyze_risk] detected and that counts as true is never replaced by
    what the language model returned, and the height is never touched,
    whatever the model returned. *)
Theorem merge_keeps_detected
    (json : Type) (json_truth : json -> bool) (json_str : json -> text)
    (limit : nat) (gemini_vitals : main.vkey -> option json)
    (d : main.vitals json) (key : main.vkey) :
  main.cell_truth json json_truth (d key) = true \/ key = main.key_height ->
  main.merge_vitals json json_truth json_str limit gemini_vitals d key = d key.
Proof.
  intros H. rewrite merge_facts.merge_at.
  destruct (main.vkey_eqb key main.key_height) eqn:E; [reflexivity|].
  destruct H as [H | ->]; [|discriminate E].
  apply merge_facts.update_kept, H.
Qed.

Lemma merge_keeps_detected_witness :
  main.merge_vitals string (fun s => negb (String.eqb s EmptyString)) chars
    4300 (fun _ => Some "99"%string)
    (main.vitals_of string
       {| detected.bp := None; detected.sugar := Some 110;
          detected.heart_rate := None; detected.height := None;
          detected.weight := None; detected.age := None;
          detected.blood_group := None |})
    main.key_sugar = main.Int 110.
Proof.
  apply (merge_keeps_detected string (fun s => negb (String.eqb s EmptyString))
           chars 4300 (fun _ => Some "99"%string)
           (main.vitals_of string
              {| detected.bp := None; detected.sugar := Some 110;
                 detected.heart_rate := None; detected.height := None;
                 detected.weight := None; detected.age := None;
                 detected.blood_group := None |})
           main.key_sugar).
  left. reflexivity.
Defined.



(** X12.  Running the merge a second time with the same values of the
    language model changes nothing. *)
Theorem merge_idempotent
    (json : Type) (json_truth : json -> bool) (json_str : json -> text)
    (limit : nat) (gemini_vitals : main.vkey -> option json)
    (d : main.vitals json) (key : main.vkey) :
  main.merge_vitals json json_truth json_str limit gemini_vitals
    (main.merge_vitals json json_truth json_str limit gemini_vitals d) key =
  main.merge_vitals json json_truth json_str limit gemini_vitals d key.
Proof.
  rewrite (merge_facts.merge_at json json_truth json_str limit gemini_vitals
             (main.merge_vitals json json_truth json_str limit gemini_vitals d)).
  destruct (main.vkey_eqb key main.key_height) eqn:E; [reflexivity|].
  rewrite merge_facts.update_local
    with (d2 := main.update_if_missing json json_truth json_str limit key
                  (gemini_vitals key) d).
  - rewrite merge_facts.update_twice, merge_facts.merge_at, E. reflexivity.
  - rewrite merge_facts.merge_at, E. reflexivity.
Qed.

(** X13.  After the merge the keys [sugar], [heart_rate], [height],
    [weight] and [age] of [vitals_detected] hold an integer or nothing,
    whatever the language model returned; only [bp] and [blood_group] can
    hold a raw value of the model. *)
Theorem merge_numbers_stay_numbers
    (json : Type) (json_truth : json -> bool) (json_str : json -> text)
    (limit : nat) (gemini_vitals : main.vkey -> option json)
    (detected : detected.t) (key : main.vkey) :
  key <> main.key_bp -> key <> main.key_blood_group ->
  main.merge_vitals json json_truth json_str limit gemini_vitals
    (main.vitals_of json detected) key = main.Absent \/
  exists n : Z,
    main.merge_vitals json json_truth json_str limit gemini_vitals
      (main.vitals_of json detected) key = main.Int n.
Proof.
  intros Hbp Hbg. rewrite merge_facts.merge_at.
  assert (Hd : main.vitals_of json detected key = main.Absent \/
               exists n, main.vitals_of json detected key = main.Int n).
  { destruct key; try congruence; cbn [main.vitals_of];
      match goal with
      | |- context [main.of_option_int _ ?o] => destruct o
      end; cbn [main.of_option_int]; eauto. }
  destruct (main.vkey_eqb key main.key_height) eqn:E; [exact Hd|].
  destruct (merge_facts.update_cases json json_truth json_str limit key
              (gemini_vitals key) (main.vitals_of json detected))
    as [Eq|(_ & [(_ & n & Eq)|(Hn & _)])].
  - rewrite Eq. exact Hd.
  - right. exists n. exact Eq.
  - destruct key; try congruence; discriminate.
Qed.

Lemma merge_numbers_stay_numbers_witness :
  main.merge_vitals string (fun s => negb (String.eqb s EmptyString)) chars
    4300 (fun _ => Some "unknown"%string)
    (main.vitals_of string
       {| detected.bp := None; detected.sugar := None;
          detected.heart_rate := None; detected.height := None;
          detected.weight := None; detected.age := None;
          detected.blood_group := None |})
    main.key_age = main.Absent \/
  exists n : Z,
    main.merge_vitals string (fun s => negb (String.eqb s EmptyString)) chars
      4300 (fun _ => Some "unknown"%string)
      (main.vitals_of string
         {| detected.bp := None; detected.sugar := None;
            detected.heart_rate := None; detected.height := None;
            detected.weight := None; detected.age := None;
            detected.blood_group := None |})
      main.key_age = main.Int n.
Proof.
  apply (merge_numbers_stay_numbers string
           (fun s => negb (String.eqb s EmptyString)) chars 4300
           (fun _ => Some "unknown"%string)
           {| detected.bp := None; detected.sugar := None;
              detected.heart_rate := None; detected.height := None;
              detected.weight := None; detected.age := None;
              detected.blood_group := None |}
           main.key_age); discriminate.
Defined.
